(** * SteamLibraryScrape: the family-library aggregation pipeline

    A shallow embedding of the package [steam_family_agg] (utils.py,
    input_parser.py, enrich.py, models.py, pipeline.py, cli.py) with the
    library fetcher it imports (steam_fetch.py, as it stands in
    steam_family_agg_old), the properties its specification states about it
    (Part II) and further properties of the code (Part III).

    Modelling conventions.
    - Text is a [string] of 8-bit characters; character classes ([\s], [\d],
      [\b], [str.isdigit], [str.strip], IGNORECASE) are the ASCII ones.
    - The usage hours and the install sizes are floats taken as the numbers
      they denote ([Num]): a rational, or one of the special values inf, -inf,
      nan.  Their arithmetic is exact; binary64 rounding and overflow are not
      modelled there, and [round(x, 2)] rounds the exact value to the nearest
      hundredth, ties to even.
    - The percentage of positive reviews is computed in IEEE 754 binary64
      ([F64], on the Standard Library's [SpecFloat]): the quotient of the two
      integers, the product and the rounding to two decimals are each
      correctly rounded, ties to even, and the quotient raises OverflowError
      when it is beyond the floats, as the interpreter does.
    - Python exceptions are values of [exn]; a computation that may raise
      returns a [result].  Local variables that survive an exception are
      state of the computation.
    - Network access is a function from URLs to responses; every request made
      is appended to a log that records the throttle bucket it waited on, if
      any.  Logging and the writing of the CSV file are left out.
    - The throttle is modelled apart from the requests, on explicit readings
      of the clock and of the random source ([Throttle]), which are taken as
      the numbers they denote, like the delays; the sleeping itself and the
      lock are left out.
    - The prompts of cli.py run on a console: the lines still to be read
      from the input and the pieces written to the output ([Cli]).
    - The decoders of the runtime ([urlparse], [ET.fromstring], [json.loads],
      [str] on decoded values) are parameters of the functions that call them.
    - The two worker pools of the pipeline are run item by item, in the order
      of submission. *)

From Stdlib Require Import ZArith QArith Qround Ascii String List Bool Lia Lqa SpecFloat.
From stdpp Require Import gmap strings.
Import ListNotations.
Local Open Scope string_scope.
Local Open Scope list_scope.

Set Default Proof Using "Type".

(** ** Characters and text *)

Module Text.

Definition code (a : ascii) : nat := nat_of_ascii a.

Definition between (lo hi : nat) (a : ascii) : bool :=
  (lo <=? code a)%nat && (code a <=? hi)%nat.

Definition is_digit (a : ascii) : bool := between 48 57 a.
Definition is_upper (a : ascii) : bool := between 65 90 a.
Definition is_lower (a : ascii) : bool := between 97 122 a.
Definition is_alpha (a : ascii) : bool := is_upper a || is_lower a.

(** [str.isspace] on the ASCII range: TAB..CR, FS..US and the blank. *)
Definition is_space (a : ascii) : bool :=
  between 9 13 a || between 28 31 a || (code a =? 32)%nat.

(** [\w]: letters, digits and the underscore. *)
Definition is_word (a : ascii) : bool :=
  is_alpha a || is_digit a || (code a =? 95)%nat.

Definition lower_char (a : ascii) : ascii :=
  if is_upper a then ascii_of_nat (code a + 32) else a.

Definition upper_char (a : ascii) : ascii :=
  if is_lower a then ascii_of_nat (code a - 32) else a.

Fixpoint map_string (f : ascii -> ascii) (s : string) : string :=
  match s with
  | EmptyString => EmptyString
  | String a t => String (f a) (map_string f t)
  end.

(** [str.lower] and [str.upper]. *)
Definition lower (s : string) : string := map_string lower_char s.
Definition upper (s : string) : string := map_string upper_char s.

Definition chars (s : string) : list ascii := list_ascii_of_string s.
Definition text (l : list ascii) : string := string_of_list_ascii l.

Fixpoint lstrip (l : list ascii) : list ascii :=
  match l with
  | a :: t => if is_space a then lstrip t else l
  | [] => []
  end.

(** [str.strip()] with no argument. *)
Definition strip (s : string) : string :=
  text (rev (lstrip (rev (lstrip (chars s))))).

(** [str.isdigit()]: non-empty and all digits. *)
Definition isdigit (s : string) : bool :=
  match chars s with
  | [] => false
  | l => forallb is_digit l
  end.

(** [s.replace(",", "")] and the like: drop every occurrence of one character. *)
Definition remove_char (c : ascii) (s : string) : string :=
  text (List.filter (fun a => negb (Ascii.eqb a c)) (chars s)).

(** [sub in s] for strings. *)
Fixpoint prefix_of (p l : list ascii) : bool :=
  match p, l with
  | [], _ => true
  | a :: p', b :: l' => Ascii.eqb a b && prefix_of p' l'
  | _ :: _, [] => false
  end.

Fixpoint contains_chars (p l : list ascii) : bool :=
  prefix_of p l ||
  match l with
  | [] => false
  | _ :: t => contains_chars p t
  end.

Definition contains (sub s : string) : bool := contains_chars (chars sub) (chars s).

Definition startswith (p s : string) : bool := prefix_of (chars p) (chars s).

Definition digit_val (a : ascii) : Z := Z.of_nat (code a - 48).

(** The value of a run of decimal digits, most significant first. *)
Definition digits_val (l : list ascii) : Z :=
  fold_left (fun acc a => 10 * acc + digit_val a)%Z l 0%Z.

Definition digit_char (n : nat) : ascii := ascii_of_nat (48 + n).

Fixpoint Z_digits (fuel : nat) (n : Z) (acc : list ascii) : list ascii :=
  match fuel with
  | O => acc
  | S f =>
      let acc' := digit_char (Z.to_nat (n mod 10)) :: acc in
      if (n <? 10)%Z then acc' else Z_digits f (n / 10)%Z acc'
  end.

(** [str(n)] for an integer. *)
Definition str_of_Z (z : Z) : string :=
  let n := Z.abs z in
  let d := text (Z_digits (S (Z.to_nat (Z.log2 n))) n []) in
  if (z <? 0)%Z then String "-" d else d.

End Text.

(** ** Numbers *)

Module Num.

(** [round(x)] to the nearest integer, ties to even. *)
Definition round_half_even (q : Q) : Z :=
  let n := Qnum q in
  let d := Z.pos (Qden q) in
  let f := (n / d)%Z in
  match (2 * (n mod d) ?= d)%Z with
  | Lt => f
  | Gt => (f + 1)%Z
  | Eq => if Z.even f then f else (f + 1)%Z
  end.

(** [round(x, 2)] on a finite value. *)
Definition round2 (q : Q) : Q := Qred (round_half_even (q * 100) # 100).

Definition Qltb (a b : Q) : bool := negb (Qle_bool b a).

(** A Python float. *)
Inductive float : Type :=
| Fin (q : Q)
| Inf (neg : bool)
| NaN.

Definition zero : float := Fin 0.

(** [x + y]. *)
Definition add (x y : float) : float :=
  match x, y with
  | NaN, _ | _, NaN => NaN
  | Inf a, Inf b => if Bool.eqb a b then Inf a else NaN
  | Inf a, Fin _ => Inf a
  | Fin _, Inf b => Inf b
  | Fin a, Fin b => Fin (Qred (a + b))
  end.

(** [x <= y]; false as soon as a nan is involved. *)
Definition leb (x y : float) : bool :=
  match x, y with
  | NaN, _ | _, NaN => false
  | Inf true, _ => true
  | _, Inf false => true
  | Inf false, _ => false
  | _, Inf true => false
  | Fin a, Fin b => Qle_bool a b
  end.

(** [bool(x)]: every float but zero is true. *)
Definition truthy (x : float) : bool :=
  match x with
  | Fin q => negb (Qeq_bool q 0)
  | _ => true
  end.

(** [round(x, 2)]: infinities and nan round to themselves. *)
Definition fround2 (x : float) : float :=
  match x with
  | Fin q => Fin (round2 q)
  | _ => x
  end.

(** Decimal value [m * 10^e]. *)
Definition scale10 (m e : Z) : Q :=
  if (0 <=? e)%Z then Qred (inject_Z (m * 10 ^ e))
  else Qred (m # Z.to_pos (10 ^ (- e))).

(** A run of digits in which single underscores may separate digits. *)
Fixpoint take_digitpart (l : list ascii) : list ascii * list ascii :=
  match l with
  | a :: t =>
      if Text.is_digit a then
        match t with
        | u :: (b :: _) as t' =>
            if Ascii.eqb u "_" && Text.is_digit b
            then let '(ds, r) := take_digitpart t' in (a :: ds, r)
            else let '(ds, r) := take_digitpart t in (a :: ds, r)
        | _ => let '(ds, r) := take_digitpart t in (a :: ds, r)
        end
      else ([], l)
  | [] => ([], [])
  end.

Definition take_sign (l : list ascii) : bool * list ascii :=
  match l with
  | a :: t =>
      if Ascii.eqb a "-" then (true, t)
      else if Ascii.eqb a "+" then (false, t)
      else (false, l)
  | [] => (false, [])
  end.

Definition take_exponent (l : list ascii) : option (Z * list ascii) :=
  match l with
  | a :: t =>
      if Ascii.eqb (Text.lower_char a) "e" then
        let '(neg, t1) := take_sign t in
        match take_digitpart t1 with
        | ([], _) => None
        | (ds, r) =>
            let v := Text.digits_val ds in
            Some (if neg then (- v)%Z else v, r)
        end
      else Some (0%Z, l)
  | [] => Some (0%Z, [])
  end.

(** [float(s)] for a string; [None] stands for ValueError. *)
Definition float_of_string (s : string) : option float :=
  let '(neg, body) := take_sign (Text.chars (Text.strip s)) in
  let word := Text.lower (Text.text body) in
  if String.eqb word "inf" || String.eqb word "infinity" then Some (Inf neg)
  else if String.eqb word "nan" then Some NaN
  else
    let '(ip, r1) := take_digitpart body in
    let '(fp, r2) :=
      match r1 with
      | a :: t => if Ascii.eqb a "." then take_digitpart t else ([], r1)
      | [] => ([], [])
      end in
    match ip ++ fp with
    | [] => None
    | ds =>
        match take_exponent r2 with
        | Some (e, []) =>
            let m := Text.digits_val ds in
            let v := scale10 m (e - Z.of_nat (List.length fp)) in
            Some (Fin (if neg then Qred (- v) else v))
        | _ => None
        end
    end.

End Num.

(** ** Regular expressions

    A backtracking matcher with the search order of Python's [re]: the
    alternatives of [|] left to right, greedy repetition longest first, lazy
    repetition shortest first.  Repetition is over single-character classes,
    which is all the patterns of the package use. *)

Module Regex.

Definition cclass := ascii -> bool.

Inductive re : Type :=
| Eps
| Chr (c : cclass)
| Cat (r1 r2 : re)
| Alt (r1 r2 : re)
| Rep (greedy : bool) (lo : nat) (c : cclass)
| Opt (r : re)
| Grp (n : nat) (r : re)
| Bol
| WordB.

Definition is_chr (x : ascii) : cclass := fun a => Ascii.eqb a x.
Definition not_chr (x : ascii) : cclass := fun a => negb (Ascii.eqb a x).
Definition chr_ci (x : ascii) : cclass :=
  fun a => Ascii.eqb (Text.lower_char a) (Text.lower_char x).
Definition any : cclass := fun _ => true.

Definition seq (rs : list re) : re := fold_right Cat Eps rs.
Definition alts (r : re) (rs : list re) : re := fold_left Alt rs r.

(** A literal, case-sensitive or not. *)
Definition lit (s : string) : re := seq (map (fun a => Chr (is_chr a)) (Text.chars s)).
Definition lit_ci (s : string) : re := seq (map (fun a => Chr (chr_ci a)) (Text.chars s)).

(** The position in the subject: offset, the character before, what remains. *)
Record cursor : Type := Cursor { pos : nat; prev : option ascii; rest : list ascii }.

Definition start (s : string) : cursor := Cursor 0 None (Text.chars s).

Definition step (c : cursor) : option cursor :=
  match rest c with
  | a :: t => Some (Cursor (S (pos c)) (Some a) t)
  | [] => None
  end.

Fixpoint skip (n : nat) (c : cursor) : cursor :=
  match n with
  | O => c
  | S m => match step c with Some c' => skip m c' | None => c end
  end.

Fixpoint run_length (p : cclass) (l : list ascii) : nat :=
  match l with
  | a :: t => if p a then S (run_length p t) else O
  | [] => O
  end.

Definition captures := list (nat * string).

Fixpoint group (n : nat) (g : captures) : option string :=
  match g with
  | (m, s) :: t => if (n =? m)%nat then Some s else group n t
  | [] => None
  end.

Definition at_word_boundary (c : cursor) : bool :=
  let before := match prev c with Some a => Text.is_word a | None => false end in
  let after := match rest c with a :: _ => Text.is_word a | [] => false end in
  xorb before after.

Section Matcher.
Context {A : Type}.

(** Try [f] on [n; n-1; ...; lo]. *)
Fixpoint try_down (n lo : nat) (f : nat -> option A) : option A :=
  if (n <? lo)%nat then None
  else match f n with
       | Some x => Some x
       | None => match n with O => None | S m => try_down m lo f end
       end.

(** Try [f] on [lo; lo+1; ...; lo+k]. *)
Fixpoint try_up (k lo : nat) (f : nat -> option A) : option A :=
  match f lo with
  | Some x => Some x
  | None => match k with O => None | S j => try_up j (S lo) f end
  end.

Fixpoint mtch (r : re) (c : cursor) (g : captures)
    (k : cursor -> captures -> option A) : option A :=
  match r with
  | Eps => k c g
  | Chr p =>
      match rest c with
      | a :: _ => if p a then match step c with Some c' => k c' g | None => None end else None
      | [] => None
      end
  | Cat r1 r2 => mtch r1 c g (fun c' g' => mtch r2 c' g' k)
  | Alt r1 r2 =>
      match mtch r1 c g k with
      | Some x => Some x
      | None => mtch r2 c g k
      end
  | Rep greedy lo p =>
      let n := run_length p (rest c) in
      if (n <? lo)%nat then None
      else if greedy then try_down n lo (fun i => k (skip i c) g)
      else try_up (n - lo) lo (fun i => k (skip i c) g)
  | Opt r1 =>
      match mtch r1 c g k with
      | Some x => Some x
      | None => k c g
      end
  | Grp n r1 =>
      mtch r1 c g (fun c' g' =>
        k c' ((n, Text.text (firstn (pos c' - pos c) (rest c))) :: g'))
  | Bol => if (pos c =? 0)%nat then k c g else None
  | WordB => if at_word_boundary c then k c g else None
  end.
End Matcher.

(** A match: where it starts, where it ends, the groups. *)
Record found : Type := Found { m_start : cursor; m_end : cursor; m_groups : captures }.

(** [re.match]: a match at the cursor only. *)
Definition match_at (r : re) (c : cursor) : option found :=
  mtch r c [] (fun c' g => Some (Found c c' g)).

(** The leftmost match at or after the cursor. *)
Fixpoint search_rest (r : re) (p : nat) (pv : option ascii) (l : list ascii) : option found :=
  match match_at r (Cursor p pv l) with
  | Some m => Some m
  | None =>
      match l with
      | a :: t => search_rest r (S p) (Some a) t
      | [] => None
      end
  end.

Definition search_from (r : re) (c : cursor) : option found :=
  search_rest r (pos c) (prev c) (rest c).

(** [re.search]. *)
Definition search (r : re) (s : string) : option found := search_from r (start s).

(** The non-overlapping matches left to right; an empty match moves on by one
    character. *)
Fixpoint all_from (fuel : nat) (r : re) (c : cursor) : list found :=
  match fuel with
  | O => []
  | S f =>
      match search_from r c with
      | None => []
      | Some m =>
          let e := m_end m in
          if (pos (m_start m) <? pos e)%nat then m :: all_from f r e
          else m :: match step e with Some e' => all_from f r e' | None => [] end
      end
  end.

Definition find_all (r : re) (s : string) : list found :=
  all_from (S (String.length s)) r (start s).

(** The text of the subject between two cursors. *)
Definition between (c1 c2 : cursor) : list ascii := firstn (pos c2 - pos c1) (rest c1).

(** [re.sub(r, repl, s)]: the replacement is computed from each match. *)
Fixpoint sub_from (ms : list found) (repl : found -> list ascii) (c : cursor) : list ascii :=
  match ms with
  | [] => rest c
  | m :: ms' => between c (m_start m) ++ repl m ++ sub_from ms' repl (m_end m)
  end.

Definition sub_with (r : re) (repl : found -> string) (s : string) : string :=
  Text.text (sub_from (find_all r s) (fun m => Text.chars (repl m)) (start s)).

Definition sub (r : re) (repl : string) (s : string) : string :=
  sub_with r (fun _ => repl) s.

Definition group_or_empty (n : nat) (m : found) : string :=
  match group n (m_groups m) with Some s => s | None => "" end.

End Regex.

(** ** Python values, exceptions and the request log *)

#[warnings="-register-all"]
Inductive json : Type :=
| JNull
| JBool (b : bool)
| JInt (z : Z)
| JFloat (f : Num.float)
| JStr (s : string)
| JList (l : list json)
| JDict (kv : list (string * json)).

(** An element tree: tag, text, children. *)
#[warnings="-register-all"]
Inductive xml : Type :=
| Element (tag : string) (txt : option string) (children : list xml).

Inductive exn : Type :=
| RequestException
| HTTPError
| JSONDecodeError
| ParseError
| AttributeError
| TypeError
| ValueError
| OverflowError
| ZeroDivisionError
| KeyError
| UnboundLocalError (name : string)
| SystemExit (msg : string).

(** [except Exception] catches everything here but SystemExit. *)
Definition is_Exception (e : exn) : bool :=
  match e with
  | SystemExit _ => false
  | _ => true
  end.

Inductive result (A : Type) : Type :=
| Ok (a : A)
| Raise (e : exn).
Arguments Ok {A} a.
Arguments Raise {A} e.

Definition and_then {A B} (r : result A) (f : A -> result B) : result B :=
  match r with
  | Ok a => f a
  | Raise e => Raise e
  end.

Declare Scope result_scope.
Delimit Scope result_scope with result.
Notation "x <- m ;; k" := (and_then m (fun x => k))
  (at level 100, m at next level, k at level 200) : result_scope.

(** ** Binary64

    Floats as the interpreter has them: IEEE 754 binary64, in the
    representation and with the operations of [SpecFloat] (sign, mantissa and
    exponent; signed zeros and infinities; nan). *)

Module F64.

Definition t : Type := spec_float.
Definition prec : Z := 53.
Definition emax : Z := 1024.

(** The float nearest to [n / d], ties to even, with the sign [s], for
    [0 <= n] and [0 < d]; an infinity when that is beyond the largest float. *)
Definition nearest (s : bool) (n d : Z) : t :=
  if (n =? 0)%Z then S754_zero s
  else
    let '(q, e, l) := SFdiv_core_binary prec emax n 0 d 0 in
    binary_round_aux prec emax s q e l.

(** [float(z)], when it does not overflow, and the float of a decimal
    numeral [m / 10^k]. *)
Definition of_Z (z : Z) : t := nearest (z <? 0)%Z (Z.abs z) 1.
Definition of_decimal (m : Z) (k : nat) : t := nearest (m <? 0)%Z (Z.abs m) (10 ^ Z.of_nat k).

(** [a / b] for two ints: the correctly rounded quotient; OverflowError when
    it is too large for a float. *)
Definition truediv (a b : Z) : result t :=
  if (b =? 0)%Z then Raise ZeroDivisionError
  else
    match nearest (xorb (a <? 0)%Z (b <? 0)%Z) (Z.abs a) (Z.abs b) with
    | S754_infinity _ => Raise OverflowError
    | x => Ok x
    end.

(** [x * y]. *)
Definition mul : t -> t -> t := SFmul prec emax.

(** [n / d] to the nearest integer, ties to even, for [0 < d]. *)
Definition round_half_even (n d : Z) : Z :=
  let f := (n / d)%Z in
  match (2 * (n mod d) ?= d)%Z with
  | Lt => f
  | Gt => (f + 1)%Z
  | Eq => if Z.even f then f else (f + 1)%Z
  end.

(** [round(x, 2)]: the exact value of [x] is rounded to hundredths, ties to
    even, and the float nearest to that decimal is returned; infinities and
    nan round to themselves. *)
Definition round2 (x : t) : t :=
  match x with
  | S754_finite s m e =>
      let h := if (0 <=? e)%Z then (Z.pos m * 2 ^ e * 100)%Z
               else round_half_even (Z.pos m * 100) (2 ^ (- e)) in
      nearest s h 100
  | _ => x
  end.

End F64.

Inductive host : Type := Store | Community | Api.

(** One outbound GET: the throttle bucket it waited on, if any, and the URL. *)
Record request : Type := Request { throttled : option host; url : string }.

Record response : Type := Response { status : Z; body : string }.

(** The upstream: what a GET of a URL yields; [None] is a transport failure. *)
Definition network := string -> option response.

(** Computations over a state [S] (local variables, the request log) that
    may raise.  The state survives an exception: what was assigned before the
    raise is still there in the handler. *)
Definition prog (S A : Type) : Type := S -> result A * S.

Definition ret {S A} (a : A) : prog S A := fun s => (Ok a, s).
Definition raise {S A} (e : exn) : prog S A := fun s => (Raise e, s).
Definition lift {S A} (r : result A) : prog S A := fun s => (r, s).
Definition get_state {S} : prog S S := fun s => (Ok s, s).
Definition modify {S} (f : S -> S) : prog S unit := fun s => (Ok tt, f s).

Definition bind {S A B} (m : prog S A) (f : A -> prog S B) : prog S B :=
  fun s =>
    match m s with
    | (Ok a, s') => f a s'
    | (Raise e, s') => (Raise e, s')
    end.

(** [try: m  except Exception: h]. *)
Definition try_except {S A} (m : prog S A) (h : exn -> prog S A) : prog S A :=
  fun s =>
    match m s with
    | (Ok a, s') => (Ok a, s')
    | (Raise e, s') => if is_Exception e then h e s' else (Raise e, s')
    end.

Declare Scope prog_scope.
Delimit Scope prog_scope with prog.
Notation "x <- m ;; k" := (bind m (fun x => k))
  (at level 100, m at next level, k at level 200) : prog_scope.
Notation "m ;;; k" := (bind m (fun _ => k))
  (at level 100, k at level 200) : prog_scope.

(** Computations whose only state is the request log. *)
Definition io (A : Type) : Type := prog (list request) A.

(** Run a computation on the log inside a larger state. *)
Definition zoom {S A} (get : S -> list request) (set : list request -> S -> S)
    (m : io A) : prog S A :=
  fun s => let '(r, l) := m (get s) in (r, set l s).

Definition run {A} (m : io A) : result A * list request := m [].
Definition value {A} (m : io A) : result A := fst (run m).
Definition requests {A} (m : io A) : list request := snd (run m).

Module Json.

Definition truthy (v : json) : bool :=
  match v with
  | JNull => false
  | JBool b => b
  | JInt z => negb (z =? 0)%Z
  | JFloat f => Num.truthy f
  | JStr s => negb (String.eqb s "")
  | JList l => match l with [] => false | _ => true end
  | JDict kv => match kv with [] => false | _ => true end
  end.

(** [v or d]. *)
Definition or_else (v d : json) : json := if truthy v then v else d.

Fixpoint assoc (k : string) (kv : list (string * json)) : option json :=
  match kv with
  | (k', v) :: t => if String.eqb k k' then Some v else assoc k t
  | [] => None
  end.

(** [v.get(k, d)]: only a dict has the method. *)
Definition get_default (v : json) (k : string) (d : json) : result json :=
  match v with
  | JDict kv => Ok (match assoc k kv with Some x => x | None => d end)
  | _ => Raise AttributeError
  end.

(** [v.get(k)]. *)
Definition get (v : json) (k : string) : result json := get_default v k JNull.

(** [int(v)] for a decoded value. *)
Definition to_int (v : json) : result Z :=
  match v with
  | JInt z => Ok z
  | JBool b => Ok (if b then 1 else 0)%Z
  | JFloat (Num.Fin q) => Ok (Z.quot (Qnum q) (Z.pos (Qden q)))
  | JFloat (Num.Inf _) => Raise OverflowError
  | JFloat Num.NaN => Raise ValueError
  | JStr s =>
      let '(neg, ds) := Num.take_sign (Text.chars (Text.strip s)) in
      match Num.take_digitpart ds with
      | (d :: dl, []) =>
          let v := Text.digits_val (d :: dl) in Ok (if neg then - v else v)%Z
      | _ => Raise ValueError
      end
  | _ => Raise TypeError
  end.

End Json.

(** ** utils.py *)

Module Utils.

Local Open Scope prog_scope.

(** [_HostThrottle.wait(kind)] paces the caller; of the wait itself only the
    bucket is recorded, with the request that follows it. *)
Definition session_get (n : network) (via : option host) (u : string) : io response :=
  fun log =>
    (match n u with Some r => Ok r | None => Raise RequestException end,
     log ++ [Request via u]).

Definition http_get_store (n : network) (u : string) : io response :=
  session_get n (Some Store) u.

Definition http_get_community (n : network) (u : string) : io response :=
  session_get n (Some Community) u.

Definition http_get_api (n : network) (u : string) : io response :=
  session_get n (Some Api) u.

(** [r.raise_for_status()]. *)
Definition raise_for_status (r : response) : io unit :=
  if (400 <=? status r)%Z && (status r <? 600)%Z then raise HTTPError else ret tt.

(** [parse_hours(val)]. *)
Definition parse_hours (val : json) : Num.float :=
  match val with
  | JNull => Num.zero
  | JInt z => Num.Fin (inject_Z z)
  | JBool b => Num.Fin (if b then 1 else 0)
  | JFloat f => f
  | JStr str =>
      let s := Text.remove_char "," (Text.strip str) in
      if String.eqb s "" then Num.zero
      else match Num.float_of_string s with
           | Some f => f
           | None => Num.zero
           end
  | JList _ | JDict _ => Num.zero
  end.

Definition tag_re : Regex.re :=
  Regex.seq [Regex.Chr (Regex.is_chr "<"); Regex.Rep true 1 (Regex.not_chr ">");
             Regex.Chr (Regex.is_chr ">")].

(** [strip_html(html)]: every tag becomes a blank. *)
Definition strip_html (html : string) : string := Regex.sub tag_re " " html.

Definition mb_gb (value : Q) : Q := Num.round2 (value / 1024).
Definition tb_gb (value : Q) : Q := Num.round2 (value * 1024).

End Utils.

(** ** enrich.py *)

Module Enrich.

Import Regex.
Local Open Scope prog_scope.

Definition dquote : ascii := ascii_of_nat 34.
Definition backslash : ascii := ascii_of_nat 92.
Definition newline : ascii := ascii_of_nat 10.

Definition spaces0 : re := Rep true 0 Text.is_space.
Definition spaces1 : re := Rep true 1 Text.is_space.

(** Words separated by [\s+], case-insensitive. *)
Fixpoint phrase (ws : list string) : re :=
  match ws with
  | [] => Eps
  | [w] => lit_ci w
  | w :: t => Cat (lit_ci w) (Cat spaces1 (phrase t))
  end.

(** [([0-9]+(?:\.[0-9]+)?)\s*(TB|GB|GiB|MB)] after [[^:]*:\s*]. *)
Definition number_re : re :=
  Cat (Rep true 1 Text.is_digit) (Opt (Cat (Chr (is_chr ".")) (Rep true 1 Text.is_digit))).

Definition unit_re : re := alts (lit_ci "TB") [lit_ci "GB"; lit_ci "GiB"; lit_ci "MB"].

Definition size_tail : re :=
  seq [Rep true 0 (not_chr ":"); Chr (is_chr ":"); spaces0;
       Grp 1 number_re; spaces0; Grp 2 unit_re].

(** The three patterns of [parse_storage_requirement_gb_from_html], all
    IGNORECASE. *)
Definition size_patterns : list re :=
  [ Cat (lit_ci "Storage") size_tail;
    seq [Alt (lit_ci "Disk") (lit_ci "Hard"); spaces0; lit_ci "Space"; size_tail];
    seq [lit_ci "free"; spaces1; lit_ci "space"; size_tail] ].

(** [float(num)] for the digits a pattern captured. *)
Definition number_value (num : string) : Q :=
  match Num.float_of_string num with
  | Some (Num.Fin q) => q
  | _ => 0
  end.

(** One size phrase in GB: the loop body. *)
Definition size_in_gb (num unit : string) : Q :=
  let v := number_value num in
  let u := Text.upper unit in
  if String.eqb u "MB" then Utils.mb_gb v
  else if String.eqb u "GB" || String.eqb u "GIB" then Num.round2 v
  else if String.eqb u "TB" then Utils.tb_gb v
  else v.

(** [max(vals)]: the first of the largest elements. *)
Definition py_max (vals : list Q) : option Q :=
  match vals with
  | [] => None
  | x :: t => Some (fold_left (fun m v => if Num.Qltb m v then v else m) t x)
  end.

(** The list [vals] the function builds. *)
Definition size_phrases (html : string) : list Q :=
  let text := Utils.strip_html html in
  flat_map (fun pat =>
    map (fun m => size_in_gb (group_or_empty 1 m) (group_or_empty 2 m))
        (find_all pat text)) size_patterns.

Definition parse_storage_requirement_gb_from_html (html : string) : option Q :=
  py_max (size_phrases html).

Definition digit4 : re :=
  Grp 1 (seq [Chr Text.is_digit; Chr Text.is_digit; Chr Text.is_digit; Chr Text.is_digit]).

(** [_extract_year(date_str)]. *)
Definition _extract_year (date_str : option string) : option Z :=
  match date_str with
  | None => None
  | Some s =>
      if String.eqb s "" then None
      else match search digit4 s with
           | None => None
           | Some m =>
               let y := Text.digits_val (Text.chars (group_or_empty 1 m)) in
               if (1970 <=? y)%Z && (y <=? 2100)%Z then Some y else None
           end
  end.

(** The page-type hints of [_type_from_html]. *)
Definition _TYPE_DLC_HINTS : re :=
  alts (phrase ["Downloadable"; "Content"])
       [phrase ["Requires"; "the"; "base"; "game"]; Cat (lit_ci "DLC") WordB].
Definition _TYPE_SOFTWARE_HINTS : re := seq [WordB; lit_ci "Software"; WordB].
Definition _TYPE_TOOL_HINTS : re := seq [WordB; lit_ci "Tool"; WordB].
Definition _TYPE_VIDEO_HINTS : re :=
  Alt (seq [WordB; lit_ci "Video"; WordB]) (seq [WordB; lit_ci "Movie"; WordB]).

Definition found_in (r : re) (s : string) : bool :=
  match search r s with Some _ => true | None => false end.

Definition _type_from_html (html : string) : option string :=
  if found_in _TYPE_DLC_HINTS html then Some "dlc"
  else if found_in _TYPE_SOFTWARE_HINTS html then Some "software"
  else if found_in _TYPE_TOOL_HINTS html then Some "tool"
  else if found_in _TYPE_VIDEO_HINTS html then Some "video"
  else Some "game".

Definition quoted (s : string) : re :=
  seq [Chr (is_chr dquote); lit_ci s; Chr (is_chr dquote)].

Definition not_gt : re := Rep true 0 (not_chr ">").

(** [_RELEASE_BLOCK], IGNORECASE and DOTALL. *)
Definition _RELEASE_BLOCK : re :=
  seq [lit_ci "<div"; not_gt; lit_ci "class="; quoted "release_date"; not_gt;
       Chr (is_chr ">"); Rep false 0 any;
       lit_ci "<div"; not_gt; lit_ci "class="; quoted "date"; not_gt;
       Chr (is_chr ">"); spaces0; Grp 1 (Rep true 1 (not_chr "<")); spaces0;
       Chr (is_chr "<")].

(** The system-requirements block searched for by the fallback. *)
Definition sys_req_re : re :=
  Grp 1 (seq [lit_ci "<div"; Rep true 1 (not_chr ">"); lit_ci "id=";
              Opt (Chr (is_chr backslash)); Chr (is_chr dquote);
              lit_ci "game_area_sys_req";
              Opt (Chr (is_chr backslash)); Chr (is_chr dquote);
              Rep false 0 any; lit_ci "</div>"]).

(** [_DELISTED_HINTS], IGNORECASE; its [.] stops at a newline. *)
Definition _DELISTED_HINTS : re :=
  alts (phrase ["is"; "no"; "longer"; "available"; "on"; "the"; "Steam"; "store"])
       [phrase ["no"; "longer"; "available"; "for"; "purchase"];
        seq [phrase ["at"; "the"; "request"; "of"; "the"; "publisher"];
             Rep true 0 (not_chr newline);
             phrase ["no"; "longer"; "available"]];
        phrase ["this"; "item"; "is"; "currently"; "unavailable"; "on"; "Steam"]].

(** The dict [fetch_app_meta] returns. *)
Module Meta.
Record t : Type := Make {
  app_type : option string;
  release_year : option Z;
  approx_install_size_gb : option Q;
  delisted : option bool }.
End Meta.

(** The dict [fetch_review_summary] returns. *)
Record review : Type := Review {
  review_summary : json;
  recent_percent_positive : option F64.t }.

(** The local variables of [fetch_app_meta], with the request log. *)
Record meta_locals : Type := Locals {
  app_type : option string;
  release_year : option Z;
  size_gb : option Q;
  delisted : option bool;
  log : list request }.

Definition set_app_type (v : option string) (l : meta_locals) : meta_locals :=
  Locals v (release_year l) (size_gb l) (delisted l) (log l).
Definition set_release_year (v : option Z) (l : meta_locals) : meta_locals :=
  Locals (app_type l) v (size_gb l) (delisted l) (log l).
Definition set_size_gb (v : option Q) (l : meta_locals) : meta_locals :=
  Locals (app_type l) (release_year l) v (delisted l) (log l).
Definition set_delisted (v : option bool) (l : meta_locals) : meta_locals :=
  Locals (app_type l) (release_year l) (size_gb l) v (log l).
Definition set_log (v : list request) (l : meta_locals) : meta_locals :=
  Locals (app_type l) (release_year l) (size_gb l) (delisted l) v.

Definition net {A} (m : io A) : prog meta_locals A := zoom log set_log m.

Definition REVIEWS_RECENT (appid : string) (day_range : Z) : string :=
  "https://store.steampowered.com/appreviews/" ++ appid
  ++ "?json=1&language=all&purchase_type=all&filter=recent&day_range="
  ++ Text.str_of_Z day_range ++ "&num_per_page=0".

Definition REVIEWS_OVERALL (appid : string) : string :=
  "https://store.steampowered.com/appreviews/" ++ appid
  ++ "?json=1&language=all&purchase_type=all&num_per_page=0".

Definition APPDETAILS_META (appid : string) : string :=
  "https://store.steampowered.com/api/appdetails?appids=" ++ appid
  ++ "&cc=us&l=en&filters=type,release_date,pc_requirements".

Definition STORE_PAGE (appid : string) : string :=
  "https://store.steampowered.com/app/" ++ appid ++ "/?l=english&cc=US".

(** [v.lower()]: only a string has the method. *)
Definition str_lower (v : json) : result string :=
  match v with
  | JStr s => Ok (Text.lower s)
  | _ => Raise AttributeError
  end.

(** [_extract_year(v)] on a decoded value: a false value gives None, a true
    one that is not a string makes [re.search] raise. *)
Definition extract_year_of (v : json) : result (option Z) :=
  if Json.truthy v then
    match v with
    | JStr s => Ok (_extract_year (Some s))
    | _ => Raise TypeError
    end
  else Ok None.

(** [parse_storage_requirement_gb_from_html(v)] on a decoded value that is a
    string or, being [x or ""], true. *)
Definition parse_size_of (v : json) : result (option Q) :=
  match v with
  | JStr s => Ok (parse_storage_requirement_gb_from_html s)
  | _ => Raise TypeError
  end.

(** Truth of an optional float: None and 0.0 are false. *)
Definition size_truthy (v : option Q) : bool :=
  match v with
  | Some q => negb (Qeq_bool q 0)
  | None => false
  end.

Definition is_none {A} (o : option A) : bool :=
  match o with None => true | Some _ => false end.

Definition GET_NEWS_V2 (appid : string) (count : Z) : string :=
  "https://api.steampowered.com/ISteamNews/GetNewsForApp/v2/?appid=" ++ appid
  ++ "&count=" ++ Text.str_of_Z count.

(** [_UPDATE_KEYWORDS], IGNORECASE. *)
Definition _UPDATE_KEYWORDS : re :=
  seq [WordB;
       alts (lit_ci "update")
            [lit_ci "patch"; lit_ci "hotfix"; lit_ci "changelog"; lit_ci "balance";
             seq [lit_ci "bug"; spaces0; lit_ci "fix"];
             seq [lit_ci "release"; spaces0; lit_ci "notes"]];
       WordB].

(** [_UPDATE_KEYWORDS.search(v)] for a value that is a string or true. *)
Definition keywords_in (v : json) : result bool :=
  match v with
  | JStr s => Ok (found_in _UPDATE_KEYWORDS s)
  | _ => Raise TypeError
  end.

Fixpoint lowered_strings (l : list json) : result (list string) :=
  match l with
  | [] => Ok []
  | JStr s :: t =>
      match lowered_strings t with
      | Ok r => Ok (Text.lower s :: r)
      | Raise e => Raise e
      end
  | _ :: _ => Raise AttributeError
  end.

Definition mem_string (x : string) (l : list string) : bool :=
  existsb (String.eqb x) l.

(** ["patchnotes" in [t.lower() for t in tags]]. *)
Definition has_patchnotes_tag (tags : json) : result bool :=
  match tags with
  | JList l =>
      match lowered_strings l with
      | Ok ls => Ok (mem_string "patchnotes" ls)
      | Raise e => Raise e
      end
  | JStr _ => Ok false
  | JDict kv => Ok (mem_string "patchnotes" (map (fun p => Text.lower (fst p)) kv))
  | _ => Raise TypeError
  end.

(** The calendar year of a day count from 1970-01-01. *)
Definition year_of_days (days : Z) : Z :=
  let z := (days + 719468)%Z in
  let era := (z / 146097)%Z in
  let doe := (z - era * 146097)%Z in
  let yoe := ((doe - doe / 1460 + doe / 36524 - doe / 146096) / 365)%Z in
  let doy := (doe - (365 * yoe + yoe / 4 - yoe / 100))%Z in
  let mp := ((5 * doy + 2) / 153)%Z in
  (yoe + era * 400 + (if (mp <? 10)%Z then 0 else 1))%Z.

(** [datetime.utcfromtimestamp(ts).year]; a date past year 9999 raises. *)
Definition year_of_timestamp (ts : Z) : result Z :=
  let y := year_of_days (ts / 86400) in
  if (y <=? 9999)%Z then Ok y else Raise ValueError.

(** [a > b] where [b] may still be None: the test [b is None or a > b]. *)
Definition newer (ts : Z) (cur : option Z) : bool :=
  match cur with
  | None => true
  | Some c => (c <? ts)%Z
  end.

(** The loop of [fetch_last_update_year] over the news items, with
    [best_ts] and [fallback_ts]. *)
Fixpoint scan_news (items : list json) (best_ts fallback_ts : option Z)
    : result (option Z * option Z) :=
  match items with
  | [] => Ok (best_ts, fallback_ts)
  | it :: more =>
      match Json.get it "date", Json.get it "title", Json.get it "contents",
            Json.get it "tags" with
      | Ok dv, Ok tv, Ok cv, Ok gv =>
          match Json.to_int (Json.or_else dv (JInt 0)) with
          | Raise e => Raise e
          | Ok ts =>
              let title := Json.or_else tv (JStr "") in
              let contents := Json.or_else cv (JStr "") in
              let tags := Json.or_else gv (JList []) in
              let matched : result bool :=
                if (0 <? ts)%Z then
                  match keywords_in title with
                  | Raise e => Raise e
                  | Ok true => Ok true
                  | Ok false =>
                      match keywords_in contents with
                      | Raise e => Raise e
                      | Ok true => Ok true
                      | Ok false => has_patchnotes_tag tags
                      end
                  end
                else Ok false in
              match matched with
              | Raise e => Raise e
              | Ok b =>
                  let best' := if b && newer ts best_ts then Some ts else best_ts in
                  let fallback' :=
                    if (0 <? ts)%Z && newer ts fallback_ts then Some ts else fallback_ts in
                  scan_news more best' fallback'
              end
          end
      | _, _, _, _ => Raise AttributeError
      end
  end.

(** [(j or {}).get("query_summary", {}) or {}] for the decoded response [j]. *)
Definition query_summary (j : json) : result json :=
  (qs <- Json.get_default (Json.or_else j (JDict [])) "query_summary" (JDict []) ;;
   Ok (Json.or_else qs (JDict [])))%result.

(** [int(q.get(key) or 0)]. *)
Definition int_field (q : json) (key : string) : result Z :=
  (v <- Json.get q key ;; Json.to_int (Json.or_else v (JInt 0)))%result.

(** [round((pos / total) * 100.0, 2)]. *)
Definition percent_positive (pos total : Z) : result F64.t :=
  (ratio <- F64.truediv pos total ;;
   Ok (F64.round2 (F64.mul ratio (F64.of_Z 100))))%result.

(** What a [try] block of [fetch_review_summary] does with the decoded
    response [r.json()]. *)
Definition summary_of (j : json) (default_desc : string) : result (option review) :=
  (q <- query_summary j ;;
   total <- int_field q "total_reviews" ;;
   if (0 <? total)%Z then
     pos <- int_field q "total_positive" ;;
     pct <- percent_positive pos total ;;
     d <- Json.get q "review_score_desc" ;;
     Ok (Some (Review (Json.or_else d (JStr default_desc)) (Some pct)))
   else Ok None)%result.

(** The size the details give: [parse(mn) or parse(rc)] for the blocks of
    [pc_requirements]. *)
Definition size_from_requirements (pc : json) : result (option Q) :=
  (mnv <- Json.get pc "minimum" ;;
   let mn := Json.or_else mnv (JStr "") in
   rcv <- Json.get pc "recommended" ;;
   let rc := Json.or_else rcv (JStr "") in
   from_min <- parse_size_of mn ;;
   if size_truthy from_min then Ok from_min else parse_size_of rc)%result.

(** Step 1 of [fetch_app_meta] after the test of [entry.get("success")]: the
    assignments from the dict [d]. *)
Definition read_details (d : json) : prog meta_locals unit :=
  (ty <- lift (Json.get d "type") ;;
   lowered <- lift (str_lower (Json.or_else ty (JStr ""))) ;;
   modify (set_app_type (if String.eqb lowered "" then None else Some lowered)) ;;;
   rdv <- lift (Json.get d "release_date") ;;
   let rd := Json.or_else rdv (JDict []) in
   coming_soon <- lift (Json.get rd "coming_soon") ;;
   (if Json.truthy coming_soon then ret tt
    else
      date <- lift (Json.get rd "date") ;;
      y <- lift (extract_year_of date) ;;
      modify (set_release_year y)) ;;;
   pcv <- lift (Json.get d "pc_requirements") ;;
   size <- lift (size_from_requirements (Json.or_else pcv (JDict []))) ;;
   modify (set_size_gb size))%prog.

Section Fetchers.

(** The JSON decoder behind [r.json()]; [None] when it raises. *)
Variable json_loads : string -> option json.
Variable n : network.

Definition response_json (r : response) : io json :=
  match json_loads (body r) with
  | Some j => ret j
  | None => raise JSONDecodeError
  end.

(** The body of one [try] block of [fetch_review_summary]: [Some] when it
    returns, [None] when control leaves the block without returning. *)
Definition review_query (u : string) (default_desc : string) : io (option review) :=
  r <- Utils.http_get_store n u ;;
  Utils.raise_for_status r ;;;
  j <- response_json r ;;
  lift (summary_of j default_desc).

Definition attempt (u : string) (default_desc : string) : io (option review) :=
  try_except (review_query u default_desc) (fun _ => ret None).

Definition fetch_review_summary (appid : string) (day_range : Z) : io review :=
  recent <- attempt (REVIEWS_RECENT appid day_range) "Recent reviews" ;;
  match recent with
  | Some r => ret r
  | None =>
      overall <- attempt (REVIEWS_OVERALL appid) "Overall reviews" ;;
      match overall with
      | Some r => ret r
      | None => ret (Review (JStr "No reviews") None)
      end
  end.

(** Step 1 of [fetch_app_meta], the first [try] block, up to the test of
    [entry.get("success")]: the dict [d] of a successful response. *)
Definition request_details (appid : string) : io (option json) :=
  r <- Utils.http_get_store n (APPDETAILS_META appid) ;;
  Utils.raise_for_status r ;;;
  j <- response_json r ;;
  let data := Json.or_else j (JDict []) in
  entry <- lift (Json.get_default data appid (JDict [])) ;;
  success <- lift (Json.get entry "success") ;;
  if Json.truthy success then
    dv <- lift (Json.get_default entry "data" (JDict [])) ;;
    ret (Some (Json.or_else dv (JDict [])))
  else ret None.

Definition appdetails_step (appid : string) : prog meta_locals unit :=
  found <- net (request_details appid) ;;
  match found with
  | Some d => read_details d
  | None => ret tt
  end.

(** Step 2: the body of the second [try] block, the store page. *)
Definition store_page_step (appid : string) (need_size_fallback : bool)
    : prog meta_locals unit :=
  r2 <- net (Utils.http_get_store n (STORE_PAGE appid)) ;;
  net (Utils.raise_for_status r2) ;;;
  let html := body r2 in
  l <- get_state ;;
  (if is_none (app_type l) then modify (set_app_type (_type_from_html html))
   else ret tt) ;;;
  l <- get_state ;;
  (if is_none (release_year l) then
     match search _RELEASE_BLOCK html with
     | Some m => modify (set_release_year (_extract_year (Some (group_or_empty 1 m))))
     | None => ret tt
     end
   else ret tt) ;;;
  l <- get_state ;;
  (if is_none (size_gb l) && need_size_fallback then
     let section :=
       match search sys_req_re html with
       | Some m2 => group_or_empty 1 m2
       | None => html
       end in
     modify (set_size_gb (parse_storage_requirement_gb_from_html section))
   else ret tt) ;;;
  l <- get_state ;;
  (if is_none (delisted l) then
     modify (set_delisted (Some (found_in _DELISTED_HINTS html)))
   else ret tt).

Definition swallow (m : prog meta_locals unit) : prog meta_locals unit :=
  try_except m (fun _ => ret tt).

Definition needs_store_page (l : meta_locals) (need_size_fallback check_availability : bool)
    : bool :=
  is_none (app_type l) || is_none (release_year l)
  || (is_none (size_gb l) && need_size_fallback) || check_availability.

(** The returned dict, from the locals at the [return]. *)
Definition meta_of (l : meta_locals) : Meta.t :=
  Meta.Make (app_type l) (release_year l)
    (if size_truthy (size_gb l)
     then match size_gb l with Some v => Some (Num.round2 v) | None => None end
     else None)
    (delisted l).

Definition fetch_app_meta_body (appid : string) (need_size_fallback check_availability : bool)
    : prog meta_locals Meta.t :=
  swallow (appdetails_step appid) ;;;
  l <- get_state ;;
  (if needs_store_page l need_size_fallback check_availability
   then swallow (store_page_step appid need_size_fallback)
   else ret tt) ;;;
  l <- get_state ;;
  ret (meta_of l).

Definition fetch_app_meta (appid : string) (need_size_fallback check_availability : bool)
    : io Meta.t :=
  fun log0 =>
    let '(r, l) := fetch_app_meta_body appid need_size_fallback check_availability
                     (Locals None None None None log0) in
    (r, log l).

(** The [try] block of [fetch_last_update_year]. *)
Definition last_update_query (appid : string) (count : Z) : io (option Z) :=
  r <- Utils.http_get_api n (GET_NEWS_V2 appid count) ;;
  Utils.raise_for_status r ;;;
  j <- response_json r ;;
  news <- lift (Json.get (Json.or_else j (JDict [])) "appnews") ;;
  itemsv <- lift (Json.get (Json.or_else news (JDict [])) "newsitems") ;;
  let items := Json.or_else itemsv (JList []) in
  if Json.truthy items then
    match items with
    | JList l =>
        found <- lift (scan_news l None None) ;;
        let final_ts := match fst found with Some b => Some b | None => snd found end in
        match final_ts with
        | None => ret None
        | Some ts => y <- lift (year_of_timestamp ts) ;; ret (Some y)
        end
    | JDict _ | JStr _ => raise AttributeError
    | _ => raise TypeError
    end
  else ret None.

Definition fetch_last_update_year (appid : string) : io (option Z) :=
  try_except (last_update_query appid 60) (fun _ => ret None).

End Fetchers.

End Enrich.

(** ** input_parser.py *)

Module InputParser.

Import Regex.
Local Open Scope prog_scope.

(** What [urlparse] returns, as far as the package reads it. *)
Record parsed_url : Type := ParsedUrl { scheme : string; netloc : string; path : string }.

(** An entry of the account list. *)
Record entry : Type := Entry { label : string; steamid64 : string }.

(** [^/(id|profiles)/([^/]+)/?] *)
Definition profile_path_re : re :=
  seq [Bol; Chr (is_chr "/"); Grp 1 (Alt (lit "id") (lit "profiles")); Chr (is_chr "/");
       Grp 2 (Rep true 1 (not_chr "/")); Opt (Chr (is_chr "/"))].

Definition vanity_url (ident : string) : string :=
  "https://steamcommunity.com/id/" ++ ident ++ "/?xml=1".

(** The elements below [x], in document order. *)
Fixpoint descendants (x : xml) : list xml :=
  match x with
  | Element _ _ cs =>
      (fix go (l : list xml) : list xml :=
         match l with
         | [] => []
         | c :: t => c :: descendants c ++ go t
         end) cs
  end.

Definition tag_of (x : xml) : string := match x with Element t _ _ => t end.
Definition text_of (x : xml) : option string := match x with Element _ t _ => t end.
Definition children_of (x : xml) : list xml := match x with Element _ _ c => c end.

Definition has_tag (t : string) (x : xml) : bool := String.eqb (tag_of x) t.

(** [root.findtext(".//tag")]: the text of the first such element below the
    root, the empty string when that element has no text, None when there is
    no such element. *)
Definition findtext_descendant (t : string) (root : xml) : option string :=
  match List.filter (has_tag t) (descendants root) with
  | x :: _ => Some (match text_of x with Some s => s | None => "" end)
  | [] => None
  end.

(** [str.splitlines()] on the ASCII line boundaries; CR LF is one boundary. *)
Definition is_linebreak (a : ascii) : bool :=
  Text.between 10 13 a || Text.between 28 30 a.

Fixpoint splitlines_chars (l cur : list ascii) : list (list ascii) :=
  match l with
  | [] => match cur with [] => [] | _ => [rev cur] end
  | a :: t =>
      if is_linebreak a then
        rev cur ::
        match t with
        | b :: t2 =>
            if (Text.code a =? 13)%nat && (Text.code b =? 10)%nat
            then splitlines_chars t2 []
            else splitlines_chars t []
        | [] => splitlines_chars t []
        end
      else splitlines_chars t (a :: cur)
  end.

Definition splitlines (s : string) : list string :=
  map Text.text (splitlines_chars (Text.chars s) []).

Section Resolver.

(** [urllib.parse.urlparse]; it raises ValueError on some malformed hosts. *)
Variable urlparse : string -> result parsed_url.
(** [ET.fromstring]; [None] when it raises ParseError. *)
Variable xml_fromstring : string -> option xml.
Variable n : network.

Definition parse_xml (content : string) : io xml :=
  match xml_fromstring content with
  | Some x => ret x
  | None => raise ParseError
  end.

(** The [try] block of the vanity case. *)
Definition resolve_vanity (ident : string) : io (option string) :=
  resp <- Utils.session_get n None (vanity_url ident) ;;
  Utils.raise_for_status resp ;;;
  root <- parse_xml (body resp) ;;
  ret (findtext_descendant "steamID64" root).

Definition normalize_to_steamid64 (val : string) : io (option string) :=
  let s := Text.strip val in
  if Text.isdigit s then ret (Some s)
  else
    u <- lift (urlparse s) ;;
    if negb (String.eqb (scheme u) "") && Text.contains "steamcommunity.com" (netloc u) then
      match match_at profile_path_re (start (path u)) with
      | None => ret None
      | Some m =>
          let kind := group_or_empty 1 m in
          let ident := group_or_empty 2 m in
          if String.eqb kind "profiles" then
            ret (if Text.isdigit ident then Some ident else None)
          else
            try_except (resolve_vanity ident) (fun _ => ret None)
      end
    else ret None.

(** [line.split(":", 1)] when the line has a colon. *)
Fixpoint split_colon (l : list ascii) : option (list ascii * list ascii) :=
  match l with
  | [] => None
  | a :: t =>
      if Ascii.eqb a ":" then Some ([], t)
      else match split_colon t with
           | Some (x, y) => Some (a :: x, y)
           | None => None
           end
  end.

(** The loop of [parse_ids_file] over the lines that remain, with the set
    [seen] and the list [out] built so far. *)
Fixpoint parse_lines (lines : list string) (seen : gset string) (out : list entry)
    : io (list entry) :=
  match lines with
  | [] => ret out
  | raw :: more =>
      let line := Text.strip raw in
      if String.eqb line "" || Text.startswith "#" line then parse_lines more seen out
      else
        match split_colon (Text.chars line) with
        | None => parse_lines more seen out
        | Some (l, i) =>
            let label := Text.strip (Text.text l) in
            let ident := Text.strip (Text.text i) in
            if String.eqb label "" || String.eqb ident "" then parse_lines more seen out
            else
              sid <- normalize_to_steamid64 ident ;;
              match sid with
              | None => parse_lines more seen out
              | Some sid64 =>
                  if String.eqb sid64 "" then parse_lines more seen out
                  else if bool_decide (sid64 ∈ seen) then parse_lines more seen out
                  else parse_lines more ({[sid64]} ∪ seen) (out ++ [Entry label sid64])
              end
        end
  end.

(** [parse_ids_file], on the content of the file. *)
Definition parse_ids_file (content : string) : io (list entry) :=
  parse_lines (splitlines content) ∅ [].

End Resolver.

End InputParser.

(** ** steam_fetch.py *)

Module SteamFetch.

Import Regex.
Import InputParser.
Local Open Scope prog_scope.

(** One entry of an account's library. *)
Record game : Type := Game { appid : string; name : json; hours_on_record : Num.float }.

Definition build_profile_urls (steamid64 : string) : string * string :=
  let base := ("/profiles/" ++ steamid64 ++ "/games")%string in
  (("https://steamcommunity.com" ++ base ++ "?tab=all&xml=1")%string,
   ("https://steamcommunity.com" ++ base ++ "/?tab=all")%string).

Definition children_tagged (t : string) (x : xml) : list xml :=
  List.filter (has_tag t) (children_of x).

(** [root.findall(".//a/b/...")]: the elements [a] below the root, then
    children by tag along the rest of the path. *)
Definition findall_path (first : string) (steps : list string) (root : xml) : list xml :=
  fold_left (fun ctx t => flat_map (children_tagged t) ctx) steps
            (List.filter (has_tag first) (descendants root)).

(** [a or b] on lists. *)
Definition list_or {A} (a b : list A) : list A :=
  match a with [] => b | _ => a end.

Definition str_or (a b : string) : string := if String.eqb a "" then b else a.

(** The local function [txt(tag)] of [fetch_games_xml]. *)
Definition txt (g : xml) (tag : string) : string :=
  match children_tagged tag g with
  | node :: _ =>
      match text_of node with
      | Some t => if String.eqb t "" then "" else Text.strip t
      | None => ""
      end
  | [] => ""
  end.

Definition game_of_node (g : xml) : option game :=
  let appid := str_or (txt g "appID") (str_or (txt g "appId") (txt g "appId64")) in
  let name := txt g "name" in
  let hours_on_record := Utils.parse_hours (JStr (txt g "hoursOnRecord")) in
  if negb (String.eqb appid "") && negb (String.eqb name "")
  then Some (Game appid (JStr name) hours_on_record)
  else None.

Definition games_of_root (root : xml) : list game :=
  let nodes :=
    list_or (findall_path "gamesList" ["games"; "game"] root)
      (list_or (findall_path "games" ["game"] root)
               (findall_path "game" [] root)) in
  omap game_of_node nodes.

(** [RG_GAMES_REGEX], DOTALL, and the looser pattern tried after it. *)
Definition RG_GAMES_REGEX : re :=
  seq [lit "var"; Rep true 1 Text.is_space; lit "rgGames"; Rep true 0 Text.is_space;
       Chr (is_chr "="); Rep true 0 Text.is_space;
       Grp 1 (seq [Chr (is_chr "["); Rep true 0 Text.is_space; Chr (is_chr "{");
                   Rep false 0 any; Chr (is_chr "}"); Rep true 0 Text.is_space;
                   Chr (is_chr "]")]);
       Rep true 0 Text.is_space; Chr (is_chr ";")].

Definition rg_games_loose : re :=
  seq [lit "rgGames"; Rep true 0 Text.is_space; Chr (is_chr "="); Rep true 0 Text.is_space;
       Grp 1 (seq [Chr (is_chr "["); Rep true 0 (not_chr "]");
                   Chr (is_chr Enrich.dquote); lit "appid"; Chr (is_chr Enrich.dquote);
                   Rep true 0 (not_chr "]"); Chr (is_chr "]")]);
       Rep true 0 Text.is_space; Chr (is_chr ";")].

(** [,(\s*])]: a separator left before the closing bracket. *)
Definition trailing_comma : re :=
  seq [Chr (is_chr ","); Grp 1 (seq [Rep true 0 Text.is_space; Chr (is_chr "]")])].

Section Fetch.

Variable xml_fromstring : string -> option xml.
Variable json_loads : string -> option json.
(** The builtin [str] on a decoded value. *)
Variable py_str : json -> string.
Variable n : network.

Definition fetch_games_xml (xml_url : string) : io (list game) :=
  r <- Utils.session_get n None xml_url ;;
  Utils.raise_for_status r ;;;
  root <- parse_xml xml_fromstring (body r) ;;
  ret (games_of_root root).

(** One iteration of the loop over the decoded array. *)
Definition game_of_json (g : json) : result (option game) :=
  match Json.get g "appid", Json.get g "appID", Json.get g "name",
        Json.get g "friendly_name", Json.get g "hours_forever" with
  | Ok a1, Ok a2, Ok n1, Ok n2, Ok h =>
      let appid := Json.or_else a1 a2 in
      let name := Json.or_else n1 n2 in
      let hours := Utils.parse_hours h in
      Ok (if Json.truthy appid && Json.truthy name
          then Some (Game (py_str appid) name hours) else None)
  | _, _, _, _, _ => Raise AttributeError
  end.

Fixpoint games_of_array (arr : list json) : result (list game) :=
  match arr with
  | [] => Ok []
  | g :: t =>
      match game_of_json g with
      | Raise e => Raise e
      | Ok og =>
          match games_of_array t with
          | Raise e => Raise e
          | Ok gs => Ok (match og with Some x => x :: gs | None => gs end)
          end
      end
  end.

Definition loads_or_raise (blob : string) : io json :=
  match json_loads blob with
  | Some j => ret j
  | None => raise JSONDecodeError
  end.

Definition fetch_games_html_rg (html_url : string) : io (list game) :=
  r <- Utils.session_get n None html_url ;;
  Utils.raise_for_status r ;;;
  let text := body r in
  let found_blob :=
    match search RG_GAMES_REGEX text with
    | Some m => Some (group_or_empty 1 m)
    | None =>
        match search rg_games_loose text with
        | Some m2 => Some (group_or_empty 1 m2)
        | None => None
        end
    end in
  match found_blob with
  | None => ret []
  | Some blob =>
      arr <- match json_loads blob with
             | Some j => ret j
             | None => loads_or_raise (sub_with trailing_comma (group_or_empty 1) blob)
             end ;;
      match arr with
      | JList l => lift (games_of_array l)
      | _ => raise TypeError
      end
  end.

Definition get_owned_games_for_steamid (steamid64 : string) : io (list game) :=
  let '(xml_url, html_url) := build_profile_urls steamid64 in
  games <- try_except (fetch_games_xml xml_url) (fun _ => ret []) ;;
  match games with
  | [] => try_except (fetch_games_html_rg html_url) (fun _ => ret [])
  | _ => ret games
  end.

End Fetch.

End SteamFetch.

(** ** models.py and pipeline.py *)

Module Pipeline.

Import InputParser.
Local Open Scope prog_scope.

(** [Config], without the fields that only set logging and request pacing. *)
Record Config : Type := MkConfig {
  ids_file : string;
  workers : Z;
  day_range : Z;
  include_reviews : bool;
  include_release_size : bool;
  include_last_update : bool }.

(** A value of the dict [combined]. *)
Record info : Type := Info { name : json; owners : gset string; hours : Num.float }.

(** [combined]: a dict keeps the order in which its keys were inserted. *)
Definition combined_t : Type := list (string * info).

Fixpoint lookup_key {V} (k : string) (d : list (string * V)) : option V :=
  match d with
  | [] => None
  | (k', v) :: t => if String.eqb k k' then Some v else lookup_key k t
  end.

Definition has_key {V} (k : string) (d : list (string * V)) : bool :=
  match lookup_key k d with Some _ => true | None => false end.

Fixpoint alter_key {V} (f : V -> V) (k : string) (d : list (string * V)) : list (string * V) :=
  match d with
  | [] => []
  | (k', v) :: t => if String.eqb k k' then (k', f v) :: t else (k', v) :: alter_key f k t
  end.

(** [float(x or 0.0)] for a float [x]. *)
Definition float_or_zero (x : Num.float) : Num.float :=
  if Num.truthy x then x else Num.zero.

(** The body of the loop [for g in games]. *)
Definition merge_game (sid : string) (combined : combined_t) (g : SteamFetch.game)
    : combined_t :=
  let appid := SteamFetch.appid g in
  let hrs := float_or_zero (SteamFetch.hours_on_record g) in
  let combined1 :=
    if has_key appid combined then combined
    else combined ++ [(appid, Info (SteamFetch.name g) ∅ Num.zero)] in
  let combined2 := alter_key (fun i => Info (name i) ({[sid]} ∪ owners i) (hours i)) appid combined1 in
  alter_key (fun i => Info (name i) (owners i) (Num.add (hours i) hrs)) appid combined2.

Definition merge_account (sid : string) (combined : combined_t) (games : list SteamFetch.game)
    : combined_t :=
  fold_left (merge_game sid) games combined.

(** What stage 1 builds. *)
Record libraries : Type := Libraries {
  combined : combined_t;
  ok_count : Z;
  failed : list string }.

Definition no_games_msg : string := "No games visible (check Game details privacy = Public)".

Definition failed_line (e : entry) : string :=
  label e ++ " (" ++ steamid64 e ++ ") — " ++ no_games_msg.

(** A row of the output. *)
Record row : Type := Row {
  appid : string;
  row_name : json;
  row_owners : Z;
  combined_hours_on_record : Num.float;
  review_summary : option json;
  recent_percent_positive : option F64.t;
  release_year : option Z;
  last_update_year : option Z;
  approx_install_size_gb : option Q }.

Record Coverage : Type := MkCoverage {
  counts : list (string * Z);
  perc : list (string * Q);
  total_rows : Z }.

(** [Results]; the timings are left out. *)
Record Results : Type := MkResults {
  rows : list row;
  out_path : string;
  coverage : Coverage;
  type_counts : list (string * Z);
  included_games : Z;
  excluded_items : Z;
  failed_accounts : list string;
  ok_accounts : Z;
  total_accounts : Z }.

(** The call [Results(...)]: the dataclass gives none of its fields a default,
    so a field the call does not pass makes its [__init__] raise TypeError. *)
Definition Results_init (rows : option (list row)) (out_path : option string)
    (coverage : option Coverage) (type_counts : option (list (string * Z)))
    (included_games excluded_items : option Z) (failed_accounts : option (list string))
    (ok_accounts total_accounts : option Z) : result Results :=
  match rows, out_path, coverage, type_counts, included_games, excluded_items,
        failed_accounts, ok_accounts, total_accounts with
  | Some a, Some b, Some c, Some d, Some e, Some f, Some g, Some h, Some i =>
      Ok (MkResults a b c d e f g h i)
  | _, _, _, _, _, _, _, _, _ => Raise TypeError
  end.

(** Reading a local variable: one that was never assigned raises. *)
Definition read_local {A} (name : string) (v : option A) : result A :=
  match v with
  | Some a => Ok a
  | None => Raise (UnboundLocalError name)
  end.

Definition CSV_COLUMNS : list string :=
  ["appid"; "name"; "owners"; "combined_hours_on_record"; "review_summary";
   "recent_percent_positive"; "release_year"; "last_update_year"; "approx_install_size_gb"].

Definition is_true (o : option bool) : bool :=
  match o with Some true => true | _ => false end.

Definition when {A} (b : bool) (v : option A) : option A := if b then v else None.

Section Rows.

Variable cfg : Config.
Variable combined : combined_t.
Variable metas : list (string * Enrich.Meta.t).
Variable enrichments : list (string * Enrich.review).
Variable last_update_years : list (string * option Z).

Definition make_row (appid : string) (i : info) : row :=
  let meta := lookup_key appid metas in
  let review := lookup_key appid enrichments in
  Row appid (name i) (Z.of_nat (size (owners i))) (Num.fround2 (hours i))
    (when (include_reviews cfg)
       (match review with Some r => Some (Enrich.review_summary r) | None => None end))
    (when (include_reviews cfg)
       (match review with Some r => Enrich.recent_percent_positive r | None => None end))
    (when (include_release_size cfg)
       (match meta with Some m => Enrich.Meta.release_year m | None => None end))
    (when (include_last_update cfg)
       (match lookup_key appid last_update_years with Some y => y | None => None end))
    (when (include_release_size cfg)
       (match meta with Some m => Enrich.Meta.approx_install_size_gb m | None => None end)).

(** The loop [for appid in targets] that builds [rows]; [excluded_delisted]
    is the local variable of that name, None while it is unassigned. *)
Fixpoint build_rows (targets : list string) (rows : list row) (excluded_delisted : option Z)
    : result (list row * option Z) :=
  match targets with
  | [] => Ok (rows, excluded_delisted)
  | appid :: more =>
      let delisted :=
        match lookup_key appid metas with
        | Some m => Enrich.Meta.delisted m
        | None => None
        end in
      if is_true delisted then
        match read_local "excluded_delisted" excluded_delisted with
        | Raise e => Raise e
        | Ok k => build_rows more rows (Some (k + 1)%Z)
        end
      else
        match lookup_key appid combined with
        | None => Raise KeyError
        | Some i => build_rows more (rows ++ [make_row appid i]) excluded_delisted
        end
  end.

End Rows.

(** The sort key [(-r["owners"], r["name"].lower())]. *)
Definition sort_key (r : row) : result (Z * string) :=
  match Enrich.str_lower (row_name r) with
  | Ok s => Ok ((- row_owners r)%Z, s)
  | Raise e => Raise e
  end.

Definition key_le (a b : Z * string) : bool :=
  (fst a <? fst b)%Z || ((fst a =? fst b)%Z && String.leb (snd a) (snd b)).

Fixpoint keyed (rs : list row) : result (list ((Z * string) * row)) :=
  match rs with
  | [] => Ok []
  | r :: t =>
      match sort_key r, keyed t with
      | Ok k, Ok kt => Ok ((k, r) :: kt)
      | Raise e, _ => Raise e
      | _, Raise e => Raise e
      end
  end.

Fixpoint insert_keyed (x : (Z * string) * row) (l : list ((Z * string) * row))
    : list ((Z * string) * row) :=
  match l with
  | [] => [x]
  | y :: t => if key_le (fst x) (fst y) then x :: y :: t else y :: insert_keyed x t
  end.

(** [rows.sort(key=...)]: a stable sort on the keys. *)
Definition sort_rows (rs : list row) : result (list row) :=
  match keyed rs with
  | Ok ks => Ok (map snd (fold_right insert_keyed [] ks))
  | Raise e => Raise e
  end.

Definition blank (s : string) : bool := String.eqb (Text.strip s) "".

Definition not_blank_json (v : option json) : bool :=
  match v with
  | None | Some JNull => false
  | Some (JStr s) => negb (blank s)
  | Some _ => true
  end.

Definition some {A} (o : option A) : bool := negb (Enrich.is_none o).

(** [not_blank(row.get(c))] for each column, in the order of CSV_COLUMNS. *)
Definition not_blank_columns (r : row) : list bool :=
  [negb (blank (appid r)); not_blank_json (Some (row_name r)); true; true;
   not_blank_json (review_summary r); some (recent_percent_positive r);
   some (release_year r); some (last_update_year r); some (approx_install_size_gb r)].

Definition count_true (l : list bool) : Z := Z.of_nat (List.length (List.filter id l)).

Definition coverage_of (rs : list row) : Coverage :=
  let total := Z.of_nat (List.length rs) in
  let cols := List.length CSV_COLUMNS in
  let cnt (j : nat) : Z := count_true (map (fun r => nth j (not_blank_columns r) false) rs) in
  let counts := map (fun j => (nth j CSV_COLUMNS "", cnt j)) (seq 0 cols) in
  let perc := map (fun p =>
                (fst p, if (total =? 0)%Z then 0%Q
                        else Qred (inject_Z (snd p) / inject_Z total * 100))) counts in
  MkCoverage counts perc total.

Definition REMINDER_CMD : string := "python -m steam_family_agg.main".

Definition no_valid_lines : string :=
  "No valid lines found. Expected 'Username: SteamID64' or a profile URL."
  ++ String Enrich.newline "Create ./ids.txt then run:"
  ++ String Enrich.newline "  " ++ REMINDER_CMD.

Definition no_games_found : string := "No games found across provided accounts.".

Definition no_reviews : Enrich.review := Enrich.Review (JStr "No reviews") None.

Definition empty_meta : Enrich.Meta.t := Enrich.Meta.Make None None None None.

Section Run.

Variable urlparse : string -> result parsed_url.
Variable xml_fromstring : string -> option xml.
Variable json_loads : string -> option json.
Variable py_str : json -> string.
Variable n : network.
(** The name of the CSV file, which the code derives from the clock. *)
Variable out_name : string.

(** Stage 1: the loop [for e in entries], one account after the other. *)
Fixpoint fetch_libraries (entries : list entry) (st : libraries) : io libraries :=
  match entries with
  | [] => ret st
  | e :: more =>
      let sid := steamid64 e in
      games <- SteamFetch.get_owned_games_for_steamid xml_fromstring json_loads py_str n sid ;;
      match games with
      | [] => fetch_libraries more
                (Libraries (combined st) (ok_count st) (failed st ++ [failed_line e]))
      | _ => fetch_libraries more
               (Libraries (merge_account sid (combined st) games) (ok_count st + 1)%Z (failed st))
      end
  end.

(** Stage 2, item by item in the order of [appids].  The worker pool runs the
    items concurrently; an item's result depends on its own requests only. *)
Fixpoint fetch_metas (appids : list string) (need_size_fallback : bool)
    : io (list (string * Enrich.Meta.t)) :=
  match appids with
  | [] => ret []
  | appid :: more =>
      meta <- try_except (Enrich.fetch_app_meta json_loads n appid need_size_fallback true)
                         (fun _ => ret empty_meta) ;;
      rest <- fetch_metas more need_size_fallback ;;
      ret ((appid, meta) :: rest)
  end.

(** The local function [enrich_one]. *)
Definition enrich_one (cfg : Config) (appid : string) : io (Enrich.review * option Z) :=
  review <- (if include_reviews cfg
             then Enrich.fetch_review_summary json_loads n appid (day_range cfg)
             else ret no_reviews) ;;
  last_up <- (if include_last_update cfg
              then Enrich.fetch_last_update_year json_loads n appid
              else ret None) ;;
  ret (review, last_up).

(** Stage 3, item by item in the order of [targets]. *)
Fixpoint enrich_all (cfg : Config) (targets : list string)
    : io (list (string * Enrich.review) * list (string * option Z)) :=
  match targets with
  | [] => ret ([], [])
  | appid :: more =>
      one <- try_except (enrich_one cfg appid) (fun _ => ret (no_reviews, None)) ;;
      rest <- enrich_all cfg more ;;
      ret ((appid, fst one) :: fst rest, (appid, snd one) :: snd rest)
  end.

Definition run_pipeline (cfg : Config) : io Results :=
  entries <- parse_ids_file urlparse xml_fromstring n (ids_file cfg) ;;
  match entries with
  | [] => raise (SystemExit no_valid_lines)
  | _ =>
      libs <- fetch_libraries entries (Libraries [] 0 []) ;;
      match combined libs with
      | [] => raise (SystemExit no_games_found)
      | _ =>
          let appids := map fst (combined libs) in
          metas <- fetch_metas appids (include_release_size cfg) ;;
          let targets := appids in
          enriched <- enrich_all cfg targets ;;
          built <- lift (build_rows cfg (combined libs) metas (fst enriched) (snd enriched)
                           targets [] None) ;;
          _ <- lift (read_local "excluded_delisted" (snd built)) ;;
          rows <- lift (sort_rows (fst built)) ;;
          lift (Results_init (Some rows) (Some out_name) (Some (coverage_of rows)) None
                  (Some (Z.of_nat (List.length targets))) None (Some (failed libs))
                  (Some (ok_count libs)) (Some (Z.of_nat (List.length entries))))
      end
  end.

End Run.

End Pipeline.

(** ** utils.py: the host throttle

    [_HostThrottle] on explicit readings of the clock: a call of [wait] gets
    the two values [time.monotonic()] returns to it and the number that
    [random.random()] would return, and gives the new state and the time to
    sleep.  The lock makes the update one step. *)

Module Throttle.

Record t : Type := Make {
  last : gmap string Q;
  min_delay : gmap string Q;
  jitter_ms : Z }.

(** [_HostThrottle()]. *)
Definition init : t :=
  Make (<["store" := 0%Q]> (<["community" := 0%Q]> (<["api" := 0%Q]> ∅)))
       (<["store" := (3 # 5)%Q]> (<["community" := (1 # 4)%Q]> (<["api" := (1 # 5)%Q]> ∅)))
       120.

(** [configure(store, community, api, jitter_ms)]. *)
Definition configure (store community api : Q) (jitter : Z) (th : t) : t :=
  Make (last th)
       (<["api" := api]> (<["community" := community]> (<["store" := store]> (min_delay th))))
       jitter.

(** [random.uniform(a, b)], from the number [r] of [random.random()]. *)
Definition uniform (a b r : Q) : Q := (a + (b - a) * r)%Q.

(** [d.get(kind, 0.0)]. *)
Definition get_or_zero (d : gmap string Q) (kind : string) : Q := default 0%Q (d !! kind).

(** [wait(kind)]: the new state and [sleep_for]. *)
Definition wait (kind : string) (now rnd now2 : Q) (th : t) : t * Q :=
  let last_ := get_or_zero (last th) kind in
  let need := (get_or_zero (min_delay th) kind - (now - last_))%Q in
  let sleep_for :=
    if Num.Qltb 0 need then (need + uniform 0 (inject_Z (jitter_ms th) / 1000) rnd)%Q
    else 0%Q in
  (Make (<[kind := (now2 + (if Num.Qltb 0 sleep_for then sleep_for else 0))%Q]> (last th))
        (min_delay th) (jitter_ms th),
   sleep_for).

End Throttle.

(** ** cli.py

    The prompts read lines from the standard input and write to the standard
    output.  [input()] takes the next line, and raises EOFError when there is
    none left; a prompt that asks again reads one more line each time, so
    every loop of the module ends.  What is written is kept piece by piece,
    each [print] with the line end it adds. *)

Module Cli.

Record console : Type := Console { stdin : list string; stdout : list string }.

(** How a prompt ends: with a value, with SystemExit, or with the EOFError of
    an [input()] that finds no line. *)
Inductive outcome (A : Type) : Type :=
| Returned (a : A)
| Exited (msg : string)
| EndOfInput.
Arguments Returned {A} a.
Arguments Exited {A} msg.
Arguments EndOfInput {A}.

Definition cli (A : Type) : Type := console -> outcome A * console.

Definition pure {A} (a : A) : cli A := fun c => (Returned a, c).

Definition and_then {A B} (m : cli A) (f : A -> cli B) : cli B :=
  fun c =>
    match m c with
    | (Returned a, c') => f a c'
    | (Exited msg, c') => (Exited msg, c')
    | (EndOfInput, c') => (EndOfInput, c')
    end.

Declare Scope cli_scope.
Delimit Scope cli_scope with cli.
Notation "x <- m ;; k" := (and_then m (fun x => k))
  (at level 100, m at next level, k at level 200) : cli_scope.
Notation "m ;;; k" := (and_then m (fun _ => k))
  (at level 100, k at level 200) : cli_scope.
Local Open Scope cli_scope.

Definition nl : string := String Enrich.newline "".

(** [print(s, end="")] and [print(s)]. *)
Definition write (s : string) : cli unit :=
  fun c => (Returned tt, Console (stdin c) (stdout c ++ [s])).
Definition print (s : string) : cli unit := write (s ++ nl).

(** [input()]. *)
Definition input : cli string :=
  fun c =>
    match stdin c with
    | line :: rest => (Returned line, Console rest (stdout c))
    | [] => (EndOfInput, c)
    end.

Definition exit {A} (msg : string) : cli A := fun c => (Exited msg, c).

Definition str_of_bool (b : bool) : string := if b then "True" else "False".

(** The loop of [_ask_yn], on the lines that are left. *)
Fixpoint ask_yn_loop (text : string) (default : bool) (lines : list string)
    (out : list string) : outcome bool * console :=
  let out1 := out ++ [text] in
  match lines with
  | [] => (EndOfInput, Console [] out1)
  | line :: rest =>
      let ans := Text.lower (Text.strip line) in
      if String.eqb ans "" then (Returned default, Console rest out1)
      else if String.eqb ans "y" || String.eqb ans "yes" then (Returned true, Console rest out1)
      else if String.eqb ans "n" || String.eqb ans "no" then (Returned false, Console rest out1)
      else ask_yn_loop text default rest (out1 ++ [("Please answer y or n." ++ nl)%string])
  end.

Definition _ask_yn (prompt : string) (default : bool) : cli bool :=
  fun c =>
    let suffix := if default then " [Y/n] " else " [y/N] " in
    ask_yn_loop (prompt ++ suffix) default (stdin c) (stdout c).

Section Prompts.

(** The builtin [int] on a string; [None] when it raises ValueError. *)
Variable py_int : string -> option Z.
(** [Path(raw).exists()] and [str(Path(raw))]; a path is kept as the text it
    was made from. *)
Variable path_exists : string -> bool.
Variable path_str : string -> string.

(** The loop of [_ask_int]. *)
Fixpoint ask_int_loop (text : string) (default minimum : Z) (maximum : option Z)
    (lines : list string) (out : list string) : outcome Z * console :=
  let out1 := out ++ [text] in
  match lines with
  | [] => (EndOfInput, Console [] out1)
  | line :: rest =>
      let raw := Text.strip line in
      if String.eqb raw "" then (Returned default, Console rest out1)
      else
        match py_int raw with
        | Some val =>
            if (val <? minimum)%Z then
              ask_int_loop text default minimum maximum rest
                (out1 ++ [("Enter >= " ++ Text.str_of_Z minimum ++ "." ++ nl)%string])
            else
              match maximum with
              | Some mx =>
                  if (mx <? val)%Z then
                    ask_int_loop text default minimum maximum rest
                      (out1 ++ [("Enter <= " ++ Text.str_of_Z mx ++ "." ++ nl)%string])
                  else (Returned val, Console rest out1)
              | None => (Returned val, Console rest out1)
              end
        | None =>
            ask_int_loop text default minimum maximum rest
              (out1 ++ [("Enter a whole number." ++ nl)%string])
        end
  end.

Definition _ask_int (prompt : string) (default minimum : Z) (maximum : option Z) : cli Z :=
  fun c =>
    ask_int_loop (prompt ++ " [" ++ Text.str_of_Z default ++ "] ") default minimum maximum
      (stdin c) (stdout c).

(** [_ask_path(prompt, default)]; a Path is always true. *)
Definition _ask_path (prompt : string) (default : option string) : cli string :=
  match default with
  | Some d =>
      write (prompt ++ " [" ++ path_str d ++ "] ") ;;;
      line <- input ;;
      let raw := Text.strip line in
      pure (if String.eqb raw "" then d else raw)
  | None =>
      write (prompt ++ " ") ;;;
      line <- input ;;
      pure (Text.strip line)
  end.

(** [Config] of models.py. *)
Record Config : Type := MkConfig {
  ids_path : string;
  verbose : bool;
  debug : bool;
  workers : Z;
  day_range : Z;
  include_reviews : bool;
  include_release_size : bool;
  include_last_update : bool;
  safe_mode : bool;
  min_delay_store : Q;
  min_delay_community : Q;
  min_delay_api : Q;
  jitter_ms : Z }.

(** The loop [while not ids_path.exists()]. *)
Fixpoint valid_path_loop (ids_path : string) (lines : list string) (out : list string)
    : outcome string * console :=
  if path_exists ids_path then (Returned ids_path, Console lines out)
  else
    let out1 := out ++ [("File not found: " ++ path_str ids_path ++ nl)%string;
                        ("Enter a valid path:" ++ " ")%string] in
    match lines with
    | [] => (EndOfInput, Console [] out1)
    | line :: rest => valid_path_loop (Text.strip line) rest out1
    end.

Definition on_off (b : bool) : string := if b then "ON" else "OFF".

Definition interactive_setup : cli (Config * bool) :=
  print (nl ++ "=== Steam Family Aggregator (interactive) ===" ++ nl) ;;;
  use_default <- _ask_yn "Use ./ids.txt for account list?" true ;;
  ids_path0 <-
    (if use_default then
       if path_exists "ids.txt" then pure "ids.txt"
       else print "No ./ids.txt found." ;;; _ask_path "Enter path to your IDs file:" None
     else _ask_path "Enter path to your IDs file:" None) ;;
  ids_path <- (fun c => valid_path_loop ids_path0 (stdin c) (stdout c)) ;;
  verbose <- _ask_yn "Enable verbose logs (INFO)?" true ;;
  debug <- _ask_yn "Enable debug logs (very chatty)?" false ;;
  safe_mode <- _ask_yn "Safe mode (slower, fewer workers, fewer 403s)?" true ;;
  pace <-
    (if safe_mode then pure (6%Z, 30%Z, (3 # 5)%Q, (1 # 4)%Q, (1 # 5)%Q, 120%Z)
     else
       workers <- _ask_int "How many parallel workers?" 12 1 (Some 128%Z) ;;
       day_rng <- _ask_int "Days for 'recent' reviews window?" 30 1 (Some 365%Z) ;;
       pure (workers, day_rng, (7 # 20)%Q, (3 # 20)%Q, (3 # 20)%Q, 100%Z)) ;;
  let '(workers, day_rng, min_delay_store, min_delay_comm, min_delay_api, jitter_ms) := pace in
  inc_reviews <- _ask_yn "Include review summary and percent positive?" true ;;
  inc_release_size <- _ask_yn "Include release year and install size?" true ;;
  inc_last_update <- _ask_yn "Include last update year (from news)?" true ;;
  print (nl ++ "--- Choices ---") ;;;
  print ("IDs file:            " ++ path_str ids_path) ;;;
  print ("Verbose / Debug:     " ++ str_of_bool verbose ++ " / " ++ str_of_bool debug) ;;;
  print ("Safe mode:           " ++ str_of_bool safe_mode) ;;;
  print ("Workers:             " ++ Text.str_of_Z workers) ;;;
  print ("Recent day range:    " ++ Text.str_of_Z day_rng) ;;;
  print ("Reviews:             " ++ on_off inc_reviews) ;;;
  print ("Release+Size:        " ++ on_off inc_release_size) ;;;
  print ("Last update year:    " ++ on_off inc_last_update) ;;;
  proceed <- _ask_yn "Proceed with these settings?" true ;;
  if negb proceed then exit "Aborted by user."
  else
    pure (MkConfig ids_path verbose debug workers day_rng inc_reviews inc_release_size
            inc_last_update safe_mode min_delay_store min_delay_comm min_delay_api jitter_ms,
          use_default).

End Prompts.

End Cli.

(** ** Observations on computations *)

(** A computation on the request log only appends to it, and what it returns
    and what it requests do not depend on the log it starts from. *)
Definition appends {A} (m : io A) : Prop :=
  forall log, m log = (value m, log ++ requests m).

(** The exceptions a computation can raise are all caught by
    [except Exception]. *)
Definition catchable {A} (r : result A) : Prop :=
  match r with
  | Ok _ => True
  | Raise e => is_Exception e = true
  end.

(** A computation that raises nothing [except Exception] lets through. *)
Definition safe {S A} (m : prog S A) : Prop := forall s, catchable (fst (m s)).

(** The local variables of [fetch_app_meta] at three points: after the first
    [try] block, after the second one when it runs from locals [l], and at the
    [return]. *)
Definition fresh_locals : Enrich.meta_locals := Enrich.Locals None None None None [].

Definition after_appdetails (json_loads : string -> option json) (n : network)
    (appid : string) : Enrich.meta_locals :=
  snd (Enrich.swallow (Enrich.appdetails_step json_loads n appid) fresh_locals).

Definition after_store_page (n : network) (appid : string) (need_size_fallback : bool)
    (l : Enrich.meta_locals) : Enrich.meta_locals :=
  snd (Enrich.swallow (Enrich.store_page_step n appid need_size_fallback) l).

Definition at_return (json_loads : string -> option json) (n : network)
    (appid : string) (need_size_fallback check_availability : bool) : Enrich.meta_locals :=
  let l := after_appdetails json_loads n appid in
  if Enrich.needs_store_page l need_size_fallback check_availability
  then after_store_page n appid need_size_fallback l
  else l.

(** What the first [try] block leaves in [app_type]. *)
Definition kind_of_details (d : json) : option string :=
  match Json.get d "type" with
  | Ok ty =>
      match Enrich.str_lower (Json.or_else ty (JStr "")) with
      | Ok lowered => if String.eqb lowered "" then None else Some lowered
      | Raise _ => None
      end
  | Raise _ => None
  end.

(** What one review query comes to, read off the response. *)
Definition review_outcome (json_loads : string -> option json) (n : network)
    (u d : string) : result (option Enrich.review) :=
  match n u with
  | None => Raise RequestException
  | Some r =>
      if (400 <=? status r)%Z && (status r <? 600)%Z then Raise HTTPError
      else match json_loads (body r) with
           | None => Raise JSONDecodeError
           | Some j => Enrich.summary_of j d
           end
  end.

(** The path segment to look up when [val] is a vanity URL: not all digits,
    parsed with a scheme and a steamcommunity.com host, and a path that starts
    with /id/<segment>. *)
Definition vanity_segment (urlparse : string -> result InputParser.parsed_url)
    (val : string) : option string :=
  let s := Text.strip val in
  if Text.isdigit s then None
  else
    match urlparse s with
    | Raise _ => None
    | Ok u =>
        if negb (String.eqb (InputParser.scheme u) "")
           && Text.contains "steamcommunity.com" (InputParser.netloc u)
        then
          match Regex.match_at InputParser.profile_path_re (Regex.start (InputParser.path u)) with
          | Some m =>
              if String.eqb (Regex.group_or_empty 1 m) "profiles" then None
              else Some (Regex.group_or_empty 2 m)
          | None => None
          end
        else None
    end.

(** What the lookup of a vanity segment yields, read off the response. *)
Definition lookup_outcome (xml_fromstring : string -> option xml) (n : network)
    (ident : string) : option string :=
  match n (InputParser.vanity_url ident) with
  | None => None
  | Some r =>
      if (400 <=? status r)%Z && (status r <? 600)%Z then None
      else match xml_fromstring (body r) with
           | None => None
           | Some root => InputParser.findtext_descendant "steamID64" root
           end
  end.

(** A computation that makes no request. *)
Definition silent {S A} (m : prog S A) : Prop := forall s, snd (m s) = s.

(** ** Observations on matching *)



(** The character before the cursor once [l] has been read. *)
Definition last_or (pv : option ascii) (l : list ascii) : option ascii :=
  fold_left (fun _ a => Some a) l pv.


(** ** Observations on aggregation *)

(** A character that can stand in a numeral that [float] reads: a digit, a
    sign, the point, the underscore, or a letter of an exponent, of inf,
    infinity or nan. *)
Definition numeral_char (a : ascii) : bool :=
  Text.is_digit a
  || existsb (Ascii.eqb a) ["+"; "-"; "."; "_"]%char
  || existsb (Ascii.eqb (Text.lower_char a)) ["e"; "i"; "n"; "f"; "t"; "y"; "a"]%char.

(** A float that is zero or more; nan is not. *)
Definition nonneg (x : Num.float) : Prop := Num.leb Num.zero x = true.

(** What merging one game of account [sid] does to the entry of its id. *)
Definition absorb (sid : string) (g : SteamFetch.game) (e : option Pipeline.info)
    : Pipeline.info :=
  let i := match e with
           | Some i => i
           | None => Pipeline.Info (SteamFetch.name g) ∅ Num.zero
           end in
  Pipeline.Info (Pipeline.name i) ({[sid]} ∪ Pipeline.owners i)
    (Num.add (Pipeline.hours i) (Pipeline.float_or_zero (SteamFetch.hours_on_record g))).

(** The games with a given id in the libraries of the accounts, in the order
    in which aggregation meets them, each with its account. *)
Definition occurrences (appid : string) (libs : list (string * list SteamFetch.game))
    : list (string * SteamFetch.game) :=
  flat_map (fun lib =>
    map (pair (fst lib))
        (List.filter (fun g => String.eqb (SteamFetch.appid g) appid) (snd lib))) libs.

(** The library that the fetch returns for an account. *)
Definition fetched (xml_fromstring : string -> option xml)
    (json_loads : string -> option json) (py_str : json -> string) (n : network)
    (sid : string) : list SteamFetch.game :=
  match value (SteamFetch.get_owned_games_for_steamid xml_fromstring json_loads py_str n sid) with
  | Ok games => games
  | Raise _ => []
  end.

(** ** Observations on the request log *)

(** A computation adds to the log held in its state only requests that
    satisfy [P]. *)
Definition emits {S A} (get : S -> list request) (P : request -> Prop) (m : prog S A) : Prop :=
  forall s, exists new, get (snd (m s)) = get s ++ new /\ Forall P new.

(** The bucket a request waits on is that of the host it goes to; a request
    to the community host waits on none. *)
Definition well_routed (r : request) : bool :=
  match throttled r with
  | Some Store => Text.startswith "https://store.steampowered.com/" (url r)
  | Some Api => Text.startswith "https://api.steampowered.com/" (url r)
  | Some Community => false
  | None => Text.startswith "https://steamcommunity.com/" (url r)
  end.

Definition routed (r : request) : Prop := well_routed r = true.
Definition unthrottled (r : request) : Prop := throttled r = None.

(** A request to the community host that waits on no bucket. *)
Definition community (r : request) : Prop := unthrottled r /\ routed r.

(** A request that waits on the bucket [h]. *)
Definition via (h : host) (r : request) : Prop := throttled r = Some h.

(** A computation that adds nothing to the log. *)
Definition quiet {S A} (get : S -> list request) (m : prog S A) : Prop :=
  emits get (fun _ => False) m.

(** A computation that leaves a component of the state as it is. *)
Definition fixes {S A X} (get : S -> X) (m : prog S A) : Prop :=
  forall s, get (snd (m s)) = get s.

(** ** Observations on the account list and the libraries *)

(** What the loop of [parse_ids_file] keeps true of [seen] and [out]. *)
Definition listed (seen : gset string) (out : list InputParser.entry) : Prop :=
  (forall sid, sid ∈ seen <-> sid ∈ map InputParser.steamid64 out)
  /\ NoDup (map InputParser.steamid64 out)
  /\ Forall (fun e => InputParser.label e <> "" /\ InputParser.steamid64 e <> "") out.

(** The path [/<kind>/<seg>] followed by nothing or by a slash and more. *)
Definition profile_path (kind : string) (seg tail : list ascii) : list ascii :=
  "/"%char :: Text.chars kind ++ "/"%char :: seg ++ tail.

(** A library entry whose name is a true value. *)
Definition named (g : SteamFetch.game) : Prop := Json.truthy (SteamFetch.name g) = true.

(** An account whose library comes back empty. *)
Definition no_games (xml_fromstring : string -> option xml)
    (json_loads : string -> option json) (py_str : json -> string) (n : network)
    (e : InputParser.entry) : bool :=
  match fetched xml_fromstring json_loads py_str n (InputParser.steamid64 e) with
  | [] => true
  | _ => false
  end.

(** ** Observations on metadata and news *)

(** A release year, when there is one, is a plausible one. *)
Definition plausible (y : option Z) : Prop :=
  forall v, y = Some v -> (1970 <= v <= 2100)%Z.

(** The store page of an item when it loads: the request succeeds with a
    status that [raise_for_status] lets through. *)
Definition page_loaded (n : network) (appid : string) : option string :=
  match n (Enrich.STORE_PAGE appid) with
  | Some r => if (400 <=? status r)%Z && (status r <? 600)%Z then None else Some (body r)
  | None => None
  end.

(** The leftmost run of four digits. *)
Fixpoint first_four_digits (l : list ascii) : option (list ascii) :=
  match l with
  | a :: t =>
      match t with
      | b :: c :: d :: _ =>
          if Text.is_digit a && Text.is_digit b && Text.is_digit c && Text.is_digit d
          then Some [a; b; c; d]
          else first_four_digits t
      | _ => None
      end
  | [] => None
  end.

(** What the loop of [fetch_last_update_year] reads off one news item: its
    date, and whether the item has a date and looks like an update. *)
Definition news_item (it : json) : result (Z * bool) :=
  match Json.get it "date", Json.get it "title", Json.get it "contents",
        Json.get it "tags" with
  | Ok dv, Ok tv, Ok cv, Ok gv =>
      match Json.to_int (Json.or_else dv (JInt 0)) with
      | Raise e => Raise e
      | Ok ts =>
          if (0 <? ts)%Z then
            match Enrich.keywords_in (Json.or_else tv (JStr "")) with
            | Raise e => Raise e
            | Ok true => Ok (ts, true)
            | Ok false =>
                match Enrich.keywords_in (Json.or_else cv (JStr "")) with
                | Raise e => Raise e
                | Ok true => Ok (ts, true)
                | Ok false =>
                    match Enrich.has_patchnotes_tag (Json.or_else gv (JList [])) with
                    | Raise e => Raise e
                    | Ok b => Ok (ts, b)
                    end
                end
            end
          else Ok (ts, false)
      end
  | _, _, _, _ => Raise AttributeError
  end.

(** [o] is the largest positive number of [l], or None when [l] has none. *)
Definition newest_of (o : option Z) (l : list Z) : Prop :=
  match o with
  | Some m => In m l /\ (0 < m)%Z /\ forall x, In x l -> (x <= m)%Z
  | None => forall x, In x l -> (x <= 0)%Z
  end.

(** A date, when there is one, after the epoch. *)
Definition after_epoch (o : option Z) : Prop := forall v, o = Some v -> (0 < v)%Z.

(** ** Observations on the dialogue *)

(** What [_ask_yn] makes of a line: None when it asks again. *)
Definition yn_answer (default : bool) (line : string) : option bool :=
  let ans := Text.lower (Text.strip line) in
  if String.eqb ans "" then Some default
  else if String.eqb ans "y" || String.eqb ans "yes" then Some true
  else if String.eqb ans "n" || String.eqb ans "no" then Some false
  else None.

(** ** Observations on the account file *)

(** The line that lists an account by its SteamID64, and the file with one
    such line per account. *)
Definition id_line (e : InputParser.entry) : string :=
  InputParser.label e ++ ": " ++ InputParser.steamid64 e.

Definition ids_file (entries : list InputParser.entry) : string :=
  fold_right (fun e rest => (id_line e ++ String Enrich.newline rest)%string) "" entries.

(** A label that the file format keeps: not empty, no blank at either end, no
    colon and no line break in it, no [#] in front; and an id of digits. *)
Definition tidy_label (lab : string) : bool :=
  negb (String.eqb lab "") && String.eqb (Text.strip lab) lab
  && negb (Text.startswith "#" lab)
  && forallb (fun a => negb (Ascii.eqb a ":") && negb (InputParser.is_linebreak a))
       (Text.chars lab).

Definition tidy (e : InputParser.entry) : bool :=
  tidy_label (InputParser.label e) && Text.isdigit (InputParser.steamid64 e).

(** ** Observations on matches and sizes *)

(** What it is for [r] to match from [c] to [c'], taking the groups from [g]
    to [g']: the relation the matcher searches. *)
Fixpoint spans (r : Regex.re) (c : Regex.cursor) (g : Regex.captures) (c' : Regex.cursor)
    (g' : Regex.captures) : Prop :=
  match r with
  | Regex.Eps => c' = c /\ g' = g
  | Regex.Chr p =>
      (exists a, hd_error (Regex.rest c) = Some a /\ p a = true)
      /\ Regex.step c = Some c' /\ g' = g
  | Regex.Cat r1 r2 => exists c1 g1, spans r1 c g c1 g1 /\ spans r2 c1 g1 c' g'
  | Regex.Alt r1 r2 => spans r1 c g c' g' \/ spans r2 c g c' g'
  | Regex.Rep _ lo p =>
      (exists i, (lo <= i <= Regex.run_length p (Regex.rest c))%nat /\ c' = Regex.skip i c)
      /\ g' = g
  | Regex.Opt r1 => spans r1 c g c' g' \/ (c' = c /\ g' = g)
  | Regex.Grp n r1 =>
      exists g1,
        spans r1 c g c' g1
        /\ g' = (n, Text.text (firstn (Regex.pos c' - Regex.pos c) (Regex.rest c))) :: g1
  | Regex.Bol => Regex.pos c = 0%nat /\ c' = c /\ g' = g
  | Regex.WordB => Regex.at_word_boundary c = true /\ c' = c /\ g' = g
  end.

(** The text from [c] to [c']. *)
Definition reaches (c c' : Regex.cursor) (l : list ascii) : Prop :=
  Regex.rest c = l ++ Regex.rest c'
  /\ Regex.pos c' = (Regex.pos c + List.length l)%nat.

(** A size, when there is one, that is not negative. *)
Definition sized (v : option Q) : Prop := forall q, v = Some q -> (0 <= q)%Q.

(** Characters of a number without sign: digits and the point. *)
Definition numeric (l : list ascii) : Prop :=
  forall a, In a l -> Text.is_digit a = true \/ a = "."%char.

(** ** Observations on tags *)

(** Whether a tag, [<], one character or more that are not [>], and [>],
    stands at the head of [l]; whether one stands anywhere in [l]. *)
Definition opens (l : list ascii) : bool :=
  match l with
  | a :: t =>
      Ascii.eqb a "<"
      && (1 <=? Regex.run_length (Regex.not_chr ">") t)%nat
      && match skipn (Regex.run_length (Regex.not_chr ">") t) t with
         | _ :: _ => true
         | [] => false
         end
  | [] => false
  end.

Fixpoint has_tag (l : list ascii) : bool :=
  opens l || match l with _ :: t => has_tag t | [] => false end.

(** No tag starts inside [pre] when [s] follows it. *)
Fixpoint no_tag_before (pre s : list ascii) : Prop :=
  match pre with
  | [] => True
  | a :: q => opens (a :: q ++ s) = false /\ no_tag_before q s
  end.

(** ** A small upstream for the examples

    Two accounts: Alice, given by id, owns item 1 (Foo, 3 h); Bob, given by a
    vanity URL, hides his feed and shows items 1 (Foo, 2 h) and 2 (Bar, 5 h) on
    the profile page.  Item 570 has store data. *)

Module Demo.

Import InputParser.

Definition q (s : string) : string := String Enrich.dquote s ++ String Enrich.dquote "".

(** A [urlparse] for plain [scheme://host/path] URLs. *)
Fixpoint split_at (stop : ascii -> bool) (l : list ascii) : list ascii * list ascii :=
  match l with
  | [] => ([], [])
  | a :: t => if stop a then ([], l) else let '(x, y) := split_at stop t in (a :: x, y)
  end.

Definition urlparse (s : string) : result parsed_url :=
  let '(sch, r) := split_at (fun a => negb (Text.is_alpha a)) (Text.chars s) in
  match r with
  | c :: s1 :: s2 :: r' =>
      if Ascii.eqb c ":" && Ascii.eqb s1 "/" && Ascii.eqb s2 "/" then
        let '(host, r2) := split_at (fun a => Ascii.eqb a "/" || Ascii.eqb a "?" || Ascii.eqb a "#") r' in
        let '(pth, _) := split_at (fun a => Ascii.eqb a "?" || Ascii.eqb a "#") r2 in
        Ok (ParsedUrl (Text.lower (Text.text sch)) (Text.text host) (Text.text pth))
      else Ok (ParsedUrl "" "" s)
  | _ => Ok (ParsedUrl "" "" s)
  end.

Definition alice : string := "76561198000000001".
Definition bob : string := "76561198000000002".

Definition leaf (tag text : string) : xml := Element tag (Some text) [].

Definition xml_fromstring (s : string) : option xml :=
  if String.eqb s "profile-bob" then
    Some (Element "profile" None [leaf "steamID64" bob; leaf "steamID" "Bob"])
  else if String.eqb s "games-alice" then
    Some (Element "gamesList" None
            [leaf "steamID64" alice;
             Element "games" None
               [Element "game" None [leaf "appID" "1"; leaf "name" "Foo"; leaf "hoursOnRecord" "3.0"]]])
  else if String.eqb s "games-private" then
    Some (Element "gamesList" None [leaf "steamID64" bob])
  else None.

(** A feed whose only game carries a negative usage value. *)
Definition negative_feed : xml :=
  Element "gamesList" None
    [Element "games" None
       [Element "game" None [leaf "appID" "1"; leaf "name" "Foo"; leaf "hoursOnRecord" "-3.5"]]].

Definition family : list InputParser.entry :=
  [InputParser.Entry "Alice" alice; InputParser.Entry "Bob" bob].

Definition bob_blob : string :=
  "[{" ++ q "appid" ++ ":1," ++ q "name" ++ ":" ++ q "Foo" ++ "," ++ q "hours_forever" ++ ":" ++ q "2"
  ++ "},{" ++ q "appid" ++ ":2," ++ q "name" ++ ":" ++ q "Bar" ++ "," ++ q "hours_forever" ++ ":" ++ q "5"
  ++ "}]".

Definition bob_page : string :=
  "<script>var rgGames = " ++ bob_blob ++ ";</script>".

Definition min_block : string := "<li><strong>Storage:</strong> 10 GB available space</li>".
Definition rec_block : string := "<li><strong>Storage:</strong> 20 GB available space</li>".

Definition requirements_570 : json :=
  JDict [("minimum", JStr min_block); ("recommended", JStr rec_block)].

Definition details_570 : json :=
  JDict [("type", JStr "Game");
         ("release_date", JDict [("coming_soon", JBool false); ("date", JStr "9 Jul, 2013")]);
         ("pc_requirements", requirements_570)].

Definition appdetails_json : json :=
  JDict [("570", JDict [("success", JBool true); ("data", details_570)])].

(** Item 10: an empty kind and a size that rounds to 0.0 GB. *)
Definition details_10 : json :=
  JDict [("type", JStr "");
         ("release_date", JDict [("coming_soon", JBool true); ("date", JStr "2031")]);
         ("pc_requirements", JDict [("recommended", JStr "Storage: 4 MB")])].

Definition appdetails_10 : json :=
  JDict [("10", JDict [("success", JBool true); ("data", details_10)])].

Definition reviews_json : json :=
  JDict [("success", JInt 1);
    ("query_summary", JDict [("review_score_desc", JStr "Very Positive");
       ("total_positive", JInt 2); ("total_reviews", JInt 3)])].

Definition json_loads (s : string) : option json :=
  if String.eqb s "appdetails-570" then Some appdetails_json
  else if String.eqb s "appdetails-10" then Some appdetails_10
  else if String.eqb s "reviews-570" then Some reviews_json
  else if String.eqb s bob_blob then
    Some (JList [JDict [("appid", JInt 1); ("name", JStr "Foo"); ("hours_forever", JStr "2")];
                 JDict [("appid", JInt 2); ("name", JStr "Bar"); ("hours_forever", JStr "5")]])
  else None.

Definition py_str (v : json) : string :=
  match v with
  | JInt z => Text.str_of_Z z
  | JStr s => s
  | _ => "?"
  end.

Definition store_html : string :=
  "<div class=" ++ q "release_date" ++ ">" ++ "<div class=" ++ q "date" ++ ">1 Jan, 2001</div></div>"
  ++ " Downloadable Content. Storage: 50 GB".

Definition upstream : network := fun u =>
  if String.eqb u (Enrich.APPDETAILS_META "570") then Some (Response 200 "appdetails-570")
  else if String.eqb u (Enrich.APPDETAILS_META "10") then Some (Response 200 "appdetails-10")
  else if String.eqb u (Enrich.STORE_PAGE "570") then Some (Response 200 store_html)
  else if String.eqb u (Enrich.REVIEWS_OVERALL "570") then Some (Response 200 "reviews-570")
  else if String.eqb u (Enrich.REVIEWS_RECENT "570" 30) then Some (Response 503 "")
  else if String.eqb u (vanity_url "bob") then Some (Response 200 "profile-bob")
  else if String.eqb u (fst (SteamFetch.build_profile_urls alice)) then Some (Response 200 "games-alice")
  else if String.eqb u (fst (SteamFetch.build_profile_urls bob)) then Some (Response 200 "games-private")
  else if String.eqb u (snd (SteamFetch.build_profile_urls bob)) then Some (Response 200 bob_page)
  else None.

Definition ids_txt : string :=
  "# family" ++ String Enrich.newline "Alice: " ++ alice
  ++ String Enrich.newline "Bob: https://steamcommunity.com/id/bob"
  ++ String Enrich.newline "Bob again: https://steamcommunity.com/profiles/" ++ bob ++ "/"
  ++ String Enrich.newline "no colon here".

Definition cfg : Pipeline.Config := Pipeline.MkConfig ids_txt 6 30 true true true.

End Demo.

(** ** Further examples *)

Module Sample.

(** Two news items: a plain one, and an older one that reads like a patch. *)
Definition news : list json :=
  [JDict [("date", JInt 200); ("title", JStr "Community event")];
   JDict [("date", JInt 100); ("title", JStr "Patch 1.2")]].

(** An [int] for plain decimal numerals. *)
Definition py_int (s : string) : option Z :=
  match Json.to_int (JStr s) with
  | Ok z => Some z
  | Raise _ => None
  end.

(** A working directory that holds ids.txt and nothing else. *)
Definition path_exists (p : string) : bool := String.eqb p "ids.txt".
Definition path_str (p : string) : string := p.

(** Eight times the Enter key. *)
Definition all_defaults : Cli.console := Cli.Console [""; ""; ""; ""; ""; ""; ""; ""] [].

Definition default_config : Cli.Config :=
  Cli.MkConfig "ids.txt" true false 6 30 true true true true (3 # 5) (1 # 4) (1 # 5) 120.

End Sample.

(** * Part II: properties *)

(** ** Sanity checks of the embedding on concrete inputs *)

Example strip_ex : Text.strip "  Alice: 42 " = "Alice: 42".
Proof. reflexivity. Qed.

Example str_of_Z_ex : Text.str_of_Z 30 = "30" /\ Text.str_of_Z (-7) = "-7" /\ Text.str_of_Z 0 = "0"
  /\ Text.str_of_Z 76561198000000001 = "76561198000000001".
Proof. repeat split; reflexivity. Qed.

Example float_of_string_ex :
  Num.float_of_string "1234.5" = Some (Num.Fin (2469 # 2))
  /\ Num.float_of_string " 12 " = Some (Num.Fin 12)
  /\ Num.float_of_string "-3.5" = Some (Num.Fin (-7 # 2))
  /\ Num.float_of_string "1_000" = Some (Num.Fin 1000)
  /\ Num.float_of_string "2.5e2" = Some (Num.Fin 250)
  /\ Num.float_of_string ".5" = Some (Num.Fin (1 # 2))
  /\ Num.float_of_string "5." = Some (Num.Fin 5)
  /\ Num.float_of_string "-Infinity" = Some (Num.Inf true)
  /\ Num.float_of_string "." = None
  /\ Num.float_of_string "1_" = None
  /\ Num.float_of_string "1e" = None
  /\ Num.float_of_string "1 2" = None
  /\ Num.float_of_string "n/a" = None.
Proof. repeat split; reflexivity. Qed.

Example round2_ex :
  Num.round2 (1001 # 100) = (1001 # 100) /\ Num.round2 (1 # 256) = 0%Q
  /\ Num.round2 (200 # 3) = (6667 # 100) /\ Num.round2 (1 # 8) = (3 # 25).
Proof. repeat split; reflexivity. Qed.

Example strip_html_ex :
  Utils.strip_html "<li><strong>Storage:</strong> 10 GB available space</li>"
  = "  Storage:  10 GB available space ".
Proof. reflexivity. Qed.

Example parse_hours_ex :
  Utils.parse_hours (JStr "1,234.5") = Num.Fin (2469 # 2)
  /\ Utils.parse_hours (JStr "") = Num.zero
  /\ Utils.parse_hours JNull = Num.zero
  /\ Utils.parse_hours (JStr "n/a") = Num.zero
  /\ Utils.parse_hours (JInt 3) = Num.Fin 3.
Proof. repeat split; reflexivity. Qed.

Example size_storage_ex :
  Enrich.parse_storage_requirement_gb_from_html "<strong>Storage:</strong> 10240 MB available space"
    = Some 10%Q
  /\ Enrich.parse_storage_requirement_gb_from_html "Hard Disk Space: 1.5 gb, Storage: 700 MB"
    = Some (3 # 2)%Q
  /\ Enrich.parse_storage_requirement_gb_from_html "10 GB" = None
  /\ Enrich.size_phrases "Hard Disk Space: 1.5 gb, Storage: 700 MB free space : 2 TB"
    = [(17 # 25)%Q; (3 # 2)%Q; 2048%Q].
Proof. repeat split; vm_compute; reflexivity. Qed.

Example extract_year_ex :
  Enrich._extract_year (Some "12 Nov, 2019") = Some 2019%Z
  /\ Enrich._extract_year (Some "Coming 20199") = Some 2019%Z
  /\ Enrich._extract_year (Some "1066") = None
  /\ Enrich._extract_year (Some "") = None.
Proof. repeat split; vm_compute; reflexivity. Qed.

Example type_from_html_ex :
  Enrich._type_from_html "<h1>This content requires the base game</h1>" = Some "dlc"
  /\ Enrich._type_from_html "A toolbox of DLCs" = Some "game"
  /\ Enrich._type_from_html "Video editing software" = Some "software"
  /\ Enrich._type_from_html "Watch the movie." = Some "video".
Proof. repeat split; vm_compute; reflexivity. Qed.

Example delisted_ex :
  Enrich.found_in Enrich._DELISTED_HINTS
    "Notice: At the request of the publisher, Foo is no longer available on Steam." = true
  /\ Enrich.found_in Enrich._DELISTED_HINTS "Available now" = false.
Proof. repeat split; vm_compute; reflexivity. Qed.

Example fetch_app_meta_ex :
  value (Enrich.fetch_app_meta Demo.json_loads Demo.upstream "570" true true)
  = Ok (Enrich.Meta.Make (Some "game") (Some 2013%Z) (Some 10%Q) (Some false)).
Proof. vm_compute. reflexivity. Qed.

Example fetch_app_meta_unknown_ex :
  run (Enrich.fetch_app_meta Demo.json_loads Demo.upstream "999" true true)
  = (Ok (Enrich.Meta.Make None None None None),
     [Request (Some Store) (Enrich.APPDETAILS_META "999");
      Request (Some Store) (Enrich.STORE_PAGE "999")]).
Proof. vm_compute. reflexivity. Qed.

Example fetch_review_summary_ex :
  value (Enrich.fetch_review_summary Demo.json_loads Demo.upstream "570" 30)
  = Ok (Enrich.Review (JStr "Very Positive") (Some (F64.of_decimal 6667 2))).
Proof. vm_compute. reflexivity. Qed.

(** 23 positive reviews of 160: the quotient 0.14375 is not a binary
    fraction, the product is the float below 14.375, and the percentage is
    14.37.  A count too large for a float makes the query fail. *)
Example percent_positive_ex :
  Enrich.percent_positive 23 160 = Ok (F64.of_decimal 1437 2)
  /\ Enrich.percent_positive 1 3 = Ok (F64.of_decimal 3333 2)
  /\ Enrich.percent_positive 7 8 = Ok (F64.of_decimal 875 1)
  /\ Enrich.percent_positive (-1) 100000 = Ok (S754_zero true)
  /\ Enrich.percent_positive (10 ^ 400) 1 = Raise OverflowError.
Proof. repeat split; vm_compute; reflexivity. Qed.

Example parse_ids_file_ex :
  run (InputParser.parse_ids_file Demo.urlparse Demo.xml_fromstring Demo.upstream Demo.ids_txt)
  = (Ok [InputParser.Entry "Alice" Demo.alice; InputParser.Entry "Bob" Demo.bob],
     [Request None (InputParser.vanity_url "bob")]).
Proof. vm_compute. reflexivity. Qed.

Example get_owned_games_ex :
  value (SteamFetch.get_owned_games_for_steamid Demo.xml_fromstring Demo.json_loads Demo.py_str
           Demo.upstream Demo.bob)
  = Ok [SteamFetch.Game "1" (JStr "Foo") (Num.Fin 2); SteamFetch.Game "2" (JStr "Bar") (Num.Fin 5)].
Proof. vm_compute. reflexivity. Qed.

Example run_pipeline_ex :
  value (Pipeline.run_pipeline Demo.urlparse Demo.xml_fromstring Demo.json_loads Demo.py_str
           Demo.upstream "out.csv" Demo.cfg)
  = Raise (UnboundLocalError "excluded_delisted").
Proof. vm_compute. reflexivity. Qed.

Example fallback_activation_ex :
  requests (SteamFetch.get_owned_games_for_steamid Demo.xml_fromstring Demo.json_loads
              Demo.py_str Demo.upstream Demo.alice)
  = [Request None (fst (SteamFetch.build_profile_urls Demo.alice))]
  /\ requests (SteamFetch.get_owned_games_for_steamid Demo.xml_fromstring Demo.json_loads
                 Demo.py_str Demo.upstream Demo.bob)
     = [Request None (fst (SteamFetch.build_profile_urls Demo.bob));
        Request None (snd (SteamFetch.build_profile_urls Demo.bob))].
Proof. split; vm_compute; reflexivity. Qed.

Example year_of_timestamp_ex :
  Enrich.year_of_timestamp 0 = Ok 1970%Z
  /\ Enrich.year_of_timestamp 946684799 = Ok 1999%Z
  /\ Enrich.year_of_timestamp 946684800 = Ok 2000%Z
  /\ Enrich.year_of_timestamp 1709251199 = Ok 2024%Z
  /\ Enrich.year_of_timestamp 1735689600 = Ok 2025%Z
  /\ Enrich.year_of_timestamp 253402300800 = Raise ValueError.
Proof. repeat split; vm_compute; reflexivity. Qed.

(** ** The request log *)

Section LogLemmas.

Context {A B : Type}.

Lemma appends_ret (a : A) : appends (ret a).
Proof. intros log. unfold ret, value, requests, run. simpl. now rewrite app_nil_r. Qed.

Lemma appends_raise (e : exn) : appends (@raise _ A e).
Proof. intros log. unfold raise, value, requests, run. simpl. now rewrite app_nil_r. Qed.

Lemma appends_lift (r : result A) : appends (lift r).
Proof. intros log. unfold lift, value, requests, run. simpl. now rewrite app_nil_r. Qed.

Lemma appends_bind (m : io A) (f : A -> io B) :
  appends m -> (forall a, appends (f a)) -> appends (bind m f).
Proof.
  intros Hm Hf log. unfold value, requests, run, bind.
  rewrite (Hm log), (Hm []). simpl.
  destruct (value m) as [a|e]; simpl.
  - rewrite (Hf a (log ++ requests m)), (Hf a (requests m)). simpl.
    now rewrite app_assoc.
  - reflexivity.
Qed.

Lemma value_bind (m : io A) (f : A -> io B) :
  appends m -> (forall a, appends (f a)) ->
  value (bind m f) = match value m with Ok a => value (f a) | Raise e => Raise e end.
Proof.
  intros Hm Hf. unfold value at 1, run, bind. rewrite (Hm []). simpl.
  destruct (value m) as [a|e]; simpl; [|reflexivity].
  now rewrite (Hf a (requests m)).
Qed.

Lemma requests_bind (m : io A) (f : A -> io B) :
  appends m -> (forall a, appends (f a)) ->
  requests (bind m f)
  = requests m ++ match value m with Ok a => requests (f a) | Raise _ => [] end.
Proof.
  intros Hm Hf. unfold requests at 1, run, bind. rewrite (Hm []). simpl.
  destruct (value m) as [a|e]; simpl.
  - now rewrite (Hf a (requests m)).
  - now rewrite app_nil_r.
Qed.

End LogLemmas.

Section TryLemmas.

Context {A : Type}.

Lemma appends_try_except (m : io A) (h : exn -> io A) :
  appends m -> (forall e, appends (h e)) -> appends (try_except m h).
Proof.
  intros Hm Hh log. unfold value, requests, run, try_except.
  rewrite (Hm log), (Hm []). simpl.
  destruct (value m) as [a|e]; simpl; [reflexivity|].
  destruct (is_Exception e); simpl; [|reflexivity].
  rewrite (Hh e (log ++ requests m)), (Hh e (requests m)). simpl.
  now rewrite app_assoc.
Qed.

Lemma value_try_except (m : io A) (h : exn -> io A) :
  appends m -> (forall e, appends (h e)) ->
  value (try_except m h)
  = match value m with
    | Ok a => Ok a
    | Raise e => if is_Exception e then value (h e) else Raise e
    end.
Proof.
  intros Hm Hh. unfold value at 1, run, try_except. rewrite (Hm []). simpl.
  destruct (value m) as [a|e]; simpl; [reflexivity|].
  destruct (is_Exception e); simpl; [|reflexivity].
  now rewrite (Hh e (requests m)).
Qed.

Lemma requests_try_except (m : io A) (h : exn -> io A) :
  appends m -> (forall e, appends (h e)) ->
  requests (try_except m h)
  = requests m ++ match value m with
                  | Ok _ => []
                  | Raise e => if is_Exception e then requests (h e) else []
                  end.
Proof.
  intros Hm Hh. unfold requests at 1, run, try_except. rewrite (Hm []). simpl.
  destruct (value m) as [a|e]; simpl; [now rewrite app_nil_r|].
  destruct (is_Exception e); simpl; [|now rewrite app_nil_r].
  now rewrite (Hh e (requests m)).
Qed.

End TryLemmas.

Lemma appends_session_get (n : network) (via : option host) (u : string) :
  appends (Utils.session_get n via u).
Proof. intros log. reflexivity. Qed.

Lemma appends_raise_for_status (r : response) : appends (Utils.raise_for_status r).
Proof.
  unfold Utils.raise_for_status.
  destruct (_ && _); [apply appends_raise | apply appends_ret].
Qed.

Lemma appends_http_get_store (n : network) (u : string) : appends (Utils.http_get_store n u).
Proof. apply appends_session_get. Qed.

Lemma appends_http_get_api (n : network) (u : string) : appends (Utils.http_get_api n u).
Proof. apply appends_session_get. Qed.

Create HintDb appends.
#[export] Hint Resolve appends_http_get_store appends_http_get_api : appends.
#[export] Hint Resolve appends_ret appends_raise appends_lift appends_bind
  appends_try_except appends_session_get appends_raise_for_status : appends.

(** Goals [appends m] for a program text [m]: follow its structure, splitting
    on the scrutinee of each [match] and [if]. *)
Ltac appends_step :=
  match goal with
  | |- forall _, _ => intro
  | |- appends (bind _ _) => apply appends_bind
  | |- appends (try_except _ _) => apply appends_try_except
  | |- appends (match ?x with _ => _ end) => destruct x
  | |- appends (if ?b then _ else _) => destruct b
  | |- appends (let '(_, _) := ?x in _) => destruct x
  | |- appends _ => solve [auto with appends]
  end.

Ltac appends_tac := repeat appends_step.

(** ** Exceptions *)

Section SafeLemmas.

Context {S A B : Type}.

Lemma safe_ret (a : A) : safe (@ret S A a).
Proof. intros s. exact I. Qed.

Lemma safe_lift (r : result A) : catchable r -> safe (@lift S A r).
Proof. intros H s. exact H. Qed.

Lemma safe_raise (e : exn) : is_Exception e = true -> safe (@raise S A e).
Proof. intros H s. exact H. Qed.

Lemma safe_bind (m : prog S A) (f : A -> prog S B) :
  safe m -> (forall a, safe (f a)) -> safe (bind m f).
Proof.
  intros Hm Hf s. unfold bind. specialize (Hm s).
  destruct (m s) as [[a|e] s']; simpl in *; [apply Hf | exact Hm].
Qed.

Lemma safe_try_except (m : prog S A) (h : exn -> prog S A) :
  safe m -> (forall e, safe (h e)) -> safe (try_except m h).
Proof.
  intros Hm Hh s. unfold try_except. specialize (Hm s).
  destruct (m s) as [[a|e] s']; simpl in *; [exact I|].
  rewrite Hm. apply Hh.
Qed.

Lemma safe_zoom (get : S -> list request) (set : list request -> S -> S) (m : io A) :
  safe m -> safe (zoom get set m).
Proof.
  intros Hm s. unfold zoom. specialize (Hm (get s)).
  destruct (m (get s)) as [r l]. exact Hm.
Qed.

End SafeLemmas.

Lemma safe_modify {S} (f : S -> S) : safe (modify f).
Proof. intros s. exact I. Qed.

Lemma safe_get_state {S} : safe (@get_state S).
Proof. intros s. exact I. Qed.

Lemma safe_session_get (n : network) (via : option host) (u : string) :
  safe (Utils.session_get n via u).
Proof. intros s. unfold Utils.session_get. simpl. destruct (n u); reflexivity. Qed.

Lemma safe_raise_for_status (r : response) : safe (Utils.raise_for_status r).
Proof. intros s. unfold Utils.raise_for_status. destruct (_ && _); reflexivity. Qed.

(** The exceptions of [result] operations on decoded values are ordinary. *)
Lemma catchable_get_default (v : json) (k : string) (d : json) :
  catchable (Json.get_default v k d).
Proof. destruct v; simpl; auto. Qed.

Lemma catchable_get (v : json) (k : string) : catchable (Json.get v k).
Proof. apply catchable_get_default. Qed.

Lemma catchable_to_int (v : json) : catchable (Json.to_int v).
Proof.
  destruct v as [|b|z|f|s|l|kv]; simpl; auto.
  - destruct f as [q| |]; simpl; auto.
  - destruct (Num.take_sign _) as [neg ds].
    destruct (Num.take_digitpart ds) as [[|c cs] [|x xs]]; simpl; auto.
Qed.

Lemma catchable_and_then {X Y} (r : result X) (f : X -> result Y) :
  catchable r -> (forall x, catchable (f x)) -> catchable (and_then r f).
Proof. destruct r; simpl; auto. Qed.

Lemma catchable_str_lower (v : json) : catchable (Enrich.str_lower v).
Proof. destruct v; simpl; auto. Qed.

Lemma catchable_extract_year_of (v : json) : catchable (Enrich.extract_year_of v).
Proof. unfold Enrich.extract_year_of. destruct (Json.truthy v); [destruct v|]; simpl; auto. Qed.

Lemma catchable_parse_size_of (v : json) : catchable (Enrich.parse_size_of v).
Proof. destruct v; simpl; auto. Qed.

Lemma catchable_Ok {X} (x : X) : catchable (Ok x).
Proof. exact I. Qed.

Create HintDb safe.
#[export] Hint Resolve safe_ret safe_lift safe_bind safe_try_except safe_zoom safe_modify
  safe_get_state safe_session_get safe_raise_for_status catchable_get_default catchable_get
  catchable_to_int catchable_and_then catchable_str_lower catchable_extract_year_of
  catchable_parse_size_of catchable_Ok : safe.

(** Goals [safe m] and [catchable r] for a program text: follow its structure. *)
Ltac safe_step :=
  match goal with
  | |- forall _, _ => intro
  | |- safe (bind _ _) => apply safe_bind
  | |- safe (try_except _ _) => apply safe_try_except
  | |- safe (zoom _ _ _) => apply safe_zoom
  | |- safe (lift _) => apply safe_lift
  | |- safe (raise _) => apply safe_raise; reflexivity
  | |- catchable (and_then _ _) => apply catchable_and_then
  | |- safe (match ?x with _ => _ end) => destruct x
  | |- safe (if ?b then _ else _) => destruct b
  | |- catchable (match ?x with _ => _ end) => destruct x
  | |- catchable (if ?b then _ else _) => destruct b
  | |- catchable (Raise _) => reflexivity
  | |- safe _ => solve [auto with safe]
  | |- catchable _ => solve [auto with safe]
  end.

Ltac safe_tac := repeat safe_step.

(** ** The size parser *)

Lemma fold_max_spec (t : list Q) (x : Q) :
  let r := fold_left (fun m v => if Num.Qltb m v then v else m) t x in
  (r = x \/ In r t) /\ (x <= r)%Q /\ (forall w, In w t -> (w <= r)%Q).
Proof.
  revert x. induction t as [|y t IH]; intros x; simpl.
  - split; [now left|]. split; [apply Qle_refl|]. intros w [].
  - destruct (Num.Qltb x y) eqn:Hlt.
    + destruct (IH y) as (Hin & Hle & Hall).
      assert (Hxy : (x <= y)%Q).
      { unfold Num.Qltb in Hlt. apply negb_true_iff in Hlt.
        apply Qlt_le_weak. apply Qnot_le_lt. intros Hc.
        apply Qle_bool_iff in Hc. congruence. }
      split; [|split].
      * right. destruct Hin as [->|Hin]; [now left | now right].
      * eapply Qle_trans; eauto.
      * intros w [<-|Hw]; auto.
    + destruct (IH x) as (Hin & Hle & Hall).
      assert (Hyx : (y <= x)%Q).
      { unfold Num.Qltb in Hlt. apply negb_false_iff in Hlt. now apply Qle_bool_iff. }
      split; [|split].
      * destruct Hin as [->|Hin]; [now left | right; now right].
      * exact Hle.
      * intros w [<-|Hw]; auto. eapply Qle_trans; eauto.
Qed.

(** [max(vals)] is an element of [vals] that no element exceeds. *)
Lemma py_max_spec (vals : list Q) (v : Q) :
  Enrich.py_max vals = Some v ->
  In v vals /\ (forall w, In w vals -> (w <= v)%Q).
Proof.
  destruct vals as [|x t]; [discriminate|]. simpl. intros [= <-].
  destruct (fold_max_spec t x) as (Hin & Hle & Hall).
  split.
  - destruct Hin as [->|Hin]; [now left | now right].
  - intros w [<-|Hw]; auto.
Qed.

Lemma py_max_none (vals : list Q) : Enrich.py_max vals = None <-> vals = [].
Proof. destruct vals; simpl; split; congruence. Qed.

(** ** Size lines, for every numeral

    The matcher is followed symbolically along a line [Storage: N U], where
    [N] is any run of digits: the first pattern matches once, from the start
    of the line to its end, and the other two patterns cannot start
    anywhere. *)

Section SizeLines.

Import Regex.




Lemma chars_append (s1 s2 : string) : Text.chars (s1 ++ s2) = Text.chars s1 ++ Text.chars s2.
Proof. induction s1 as [|a s1 IH]; simpl; [reflexivity|]. unfold Text.chars in *. simpl. now rewrite IH. Qed.

Lemma text_chars (s : string) : Text.text (Text.chars s) = s.
Proof. apply string_of_list_ascii_of_string. Qed.


Lemma run_length_all (p : cclass) (l1 l2 : list ascii) :
  forallb p l1 = true -> run_length p (l1 ++ l2) = (List.length l1 + run_length p l2)%nat.
Proof.
  induction l1 as [|a l1 IH]; simpl; [reflexivity|].
  intros H. apply andb_true_iff in H. destruct H as [-> H]. now rewrite IH.
Qed.

Lemma skip_app (l1 l2 : list ascii) (p : nat) (pv : option ascii) :
  skip (List.length l1) (Cursor p pv (l1 ++ l2))
  = Cursor (p + List.length l1) (last_or pv l1) l2.
Proof.
  revert p pv. induction l1 as [|a l1 IH]; intros p pv; simpl.
  - now rewrite Nat.add_0_r.
  - unfold step. simpl. rewrite IH. f_equal. lia.
Qed.

Lemma try_down_first {A} (n lo : nat) (f : nat -> option A) (x : A) :
  (lo <= n)%nat -> f n = Some x -> try_down n lo f = Some x.
Proof.
  intros Hle Hf. destruct n; simpl.
  - destruct lo; [|lia]. simpl. now rewrite Hf.
  - destruct (Nat.ltb_spec (S n) lo); [lia|]. now rewrite Hf.
Qed.

Lemma is_digit_inv (a : ascii) :
  Text.is_digit a = true -> In a (Text.chars "0123456789").
Proof.
  destruct a as [[] [] [] [] [] [] [] []]; intros H; vm_compute in H;
    try discriminate H; vm_compute; tauto.
Qed.

(** What holds of the ten digits holds of every digit. *)
Lemma digit_prop (P : ascii -> bool) :
  forallb P (Text.chars "0123456789") = true ->
  forall a, Text.is_digit a = true -> P a = true.
Proof.
  intros H a Ha. apply (proj1 (forallb_forall P _) H). now apply is_digit_inv.
Qed.

Lemma firstn_length_app {X} (l1 l2 : list X) (n m : nat) :
  m = (n + List.length l1)%nat -> firstn (m - n) (l1 ++ l2) = l1.
Proof.
  intros ->. replace (n + List.length l1 - n)%nat with (List.length l1 + 0)%nat by lia.
  rewrite firstn_app_2. simpl. apply app_nil_r.
Qed.

Lemma digits_all (P : ascii -> bool) (digits : list ascii) :
  forallb Text.is_digit digits = true ->
  forallb P (Text.chars "0123456789") = true -> forallb P digits = true.
Proof.
  intros Hok H. apply forallb_forall. intros a Ha. apply (digit_prop P H).
  apply (proj1 (forallb_forall _ _) Hok a Ha).
Qed.


Section Steps.

Context {A : Type}.
Variables (g : captures) (k : cursor -> captures -> option A) (x : A).

Lemma step_Cat (r1 r2 : re) (c : cursor) :
  mtch r1 c g (fun c' g' => mtch r2 c' g' k) = Some x -> mtch (Cat r1 r2) c g k = Some x.
Proof. exact (fun H => H). Qed.

Lemma step_Eps (c : cursor) : k c g = Some x -> mtch Eps c g k = Some x.
Proof. exact (fun H => H). Qed.

Lemma step_Chr (p : cclass) (a : ascii) (t : list ascii) (n : nat) (pv : option ascii) :
  p a = true -> k (Cursor (S n) (Some a) t) g = Some x ->
  mtch (Chr p) (Cursor n pv (a :: t)) g k = Some x.
Proof. intros H. simpl. now rewrite H. Qed.

Lemma step_Rep (p : cclass) (lo : nat) (l1 l2 : list ascii) (n : nat) (pv : option ascii) :
  forallb p l1 = true -> run_length p l2 = 0 -> (lo <= List.length l1)%nat ->
  k (Cursor (n + List.length l1) (last_or pv l1) l2) g = Some x ->
  mtch (Rep true lo p) (Cursor n pv (l1 ++ l2)) g k = Some x.
Proof.
  intros Hall H0 Hlo Hk. simpl. rewrite run_length_all, H0, Nat.add_0_r by exact Hall.
  destruct (Nat.ltb_spec (List.length l1) lo); [lia|].
  apply try_down_first; [exact Hlo|]. now rewrite skip_app.
Qed.

Lemma step_Opt_absent (r : re) (c : cursor) :
  mtch r c g k = None -> k c g = Some x -> mtch (Opt r) c g k = Some x.
Proof. intros H Hk. simpl. now rewrite H. Qed.

Lemma step_Grp (m : nat) (r : re) (c : cursor) :
  mtch r c g (fun c' g' => k c' ((m, Text.text (firstn (pos c' - pos c) (rest c))) :: g'))
  = Some x ->
  mtch (Grp m r) c g k = Some x.
Proof. exact (fun H => H). Qed.

End Steps.



Lemma chars_text (l : list ascii) : Text.chars (Text.text l) = l.
Proof. apply list_ascii_of_string_of_list_ascii. Qed.





Lemma lstrip_no_space (l : list ascii) :
  forallb (fun a => negb (Text.is_space a)) l = true -> Text.lstrip l = l.
Proof.
  destruct l as [|a l]; simpl; [reflexivity|].
  intros H. apply andb_true_iff in H. destruct H as [H _].
  apply negb_true_iff in H. now rewrite H.
Qed.

Lemma strip_digits (digits : list ascii) :
  forallb Text.is_digit digits = true -> Text.strip (Text.text digits) = Text.text digits.
Proof.
  intros Hok. unfold Text.strip. rewrite chars_text.
  assert (H : forallb (fun a => negb (Text.is_space a)) digits = true).
  { apply digits_all; [exact Hok | reflexivity]. }
  rewrite (lstrip_no_space digits H), lstrip_no_space, rev_involutive; [reflexivity|].
  apply forallb_forall. intros a Ha. apply (proj1 (forallb_forall _ _) H).
  now apply in_rev.
Qed.

Lemma take_digitpart_digits (digits : list ascii) :
  forallb Text.is_digit digits = true -> Num.take_digitpart digits = (digits, []).
Proof.
  induction digits as [|a t IH]; [reflexivity|].
  intros H. apply andb_true_iff in H. destruct H as [Ha Ht].
  specialize (IH Ht). cbn [Num.take_digitpart]. rewrite Ha.
  destruct t as [|u [|b t']]; [reflexivity | now rewrite IH |].
  assert (Hu : Ascii.eqb u "_" = false).
  { simpl in Ht. apply andb_true_iff in Ht. destruct Ht as [Hu _].
    apply negb_true_iff.
    apply (digit_prop (fun a => negb (Ascii.eqb a "_")) eq_refl u Hu). }
  rewrite Hu. cbn [andb]. now rewrite IH.
Qed.

Lemma Qred_inject_Z (z : Z) : Qred (inject_Z z) = inject_Z z.
Proof.
  unfold Qred, inject_Z.
  pose proof (Z.ggcd_gcd z 1) as Hg. pose proof (Z.ggcd_correct_divisors z 1) as Hd.
  destruct (Z.ggcd z 1) as [g [a b]]. simpl in *.
  rewrite Z.gcd_1_r in Hg. subst g. destruct Hd as [Ha Hb].
  rewrite Z.mul_1_l in Ha, Hb. now subst.
Qed.




End SizeLines.




(** ** Metadata resolution *)

Section Metadata.

Variable json_loads : string -> option json.
Variable n : network.

Lemma safe_response_json (r : response) : safe (Enrich.response_json json_loads r).
Proof. unfold Enrich.response_json. safe_tac. Qed.

Lemma safe_request_details (appid : string) : safe (Enrich.request_details json_loads n appid).
Proof.
  unfold Enrich.request_details, Utils.http_get_store.
  pose proof safe_response_json. safe_tac.
Qed.

Lemma catchable_size_from_requirements (pc : json) :
  catchable (Enrich.size_from_requirements pc).
Proof. unfold Enrich.size_from_requirements. safe_tac. Qed.

Lemma safe_read_details (d : json) : safe (Enrich.read_details d).
Proof.
  unfold Enrich.read_details. pose proof catchable_size_from_requirements. safe_tac.
Qed.

Lemma safe_appdetails_step (appid : string) : safe (Enrich.appdetails_step json_loads n appid).
Proof.
  unfold Enrich.appdetails_step, Enrich.net.
  pose proof safe_request_details. pose proof safe_read_details. safe_tac.
Qed.

Lemma safe_store_page_step (appid : string) (nsf : bool) :
  safe (Enrich.store_page_step n appid nsf).
Proof. unfold Enrich.store_page_step, Enrich.net, Utils.http_get_store. safe_tac. Qed.

Lemma swallow_ok (m : prog Enrich.meta_locals unit) (l : Enrich.meta_locals) :
  safe m -> Enrich.swallow m l = (Ok tt, snd (m l)).
Proof.
  intros Hm. unfold Enrich.swallow, try_except. specialize (Hm l).
  destruct (m l) as [[[]|e] l']; simpl in *; [reflexivity|].
  now rewrite Hm.
Qed.

(** [fetch_app_meta] always returns, with the dict built from the locals at
    its [return]. *)
Lemma value_fetch_app_meta (appid : string) (nsf ca : bool) :
  value (Enrich.fetch_app_meta json_loads n appid nsf ca)
  = Ok (Enrich.meta_of (at_return json_loads n appid nsf ca)).
Proof.
  unfold value, run, Enrich.fetch_app_meta, Enrich.fetch_app_meta_body, at_return,
    after_appdetails, after_store_page, fresh_locals.
  unfold bind at 1. rewrite (swallow_ok _ _ (safe_appdetails_step appid)). simpl.
  set (l1 := snd (Enrich.appdetails_step json_loads n appid _)).
  unfold bind, get_state. simpl.
  destruct (Enrich.needs_store_page l1 nsf ca).
  - rewrite (swallow_ok _ _ (safe_store_page_step appid nsf)). reflexivity.
  - reflexivity.
Qed.

(** The second [try] block assigns a variable only while it is None: from
    any locals, what was assigned before it is still there after it. *)
Lemma store_page_assigns_absent_only (appid : string) (nsf : bool) (l : Enrich.meta_locals) :
  let l' := after_store_page n appid nsf l in
  (forall k, Enrich.app_type l = Some k -> Enrich.app_type l' = Some k)
  /\ (forall y, Enrich.release_year l = Some y -> Enrich.release_year l' = Some y)
  /\ (forall v, Enrich.size_gb l = Some v -> Enrich.size_gb l' = Some v)
  /\ (forall d, Enrich.delisted l = Some d -> Enrich.delisted l' = Some d).
Proof.
  unfold after_store_page. rewrite (swallow_ok _ _ (safe_store_page_step appid nsf)).
  unfold Enrich.store_page_step, Enrich.net, zoom, bind, Utils.http_get_store,
    Utils.session_get, Utils.raise_for_status, get_state, modify, ret, raise.
  destruct l as [t y v d lg].
  cbn [Enrich.log Enrich.app_type Enrich.release_year Enrich.size_gb Enrich.delisted
       Enrich.set_log fst snd].
  destruct (n (Enrich.STORE_PAGE appid)) as [r2|];
    [|cbn; repeat split; intros; assumption].
  destruct ((400 <=? status r2)%Z && (status r2 <? 600)%Z);
    [cbn; repeat split; intros; assumption|].
  destruct t, y, v, d, nsf;
    cbn [Enrich.is_none Enrich.log Enrich.app_type Enrich.release_year Enrich.size_gb
         Enrich.delisted Enrich.set_log Enrich.set_app_type Enrich.set_release_year
         Enrich.set_size_gb Enrich.set_delisted fst snd andb];
    try destruct (Regex.search Enrich._RELEASE_BLOCK (body r2));
    cbn [Enrich.is_none Enrich.log Enrich.app_type Enrich.release_year Enrich.size_gb
         Enrich.delisted Enrich.set_log Enrich.set_app_type Enrich.set_release_year
         Enrich.set_size_gb Enrich.set_delisted fst snd andb];
    repeat split; intros; first [assumption | discriminate].
Qed.

Ltac run_prog :=
  unfold bind, lift, modify, ret, raise, get_state;
  cbn [Enrich.log Enrich.app_type Enrich.release_year Enrich.size_gb Enrich.delisted
       Enrich.set_log Enrich.set_app_type Enrich.set_release_year Enrich.set_size_gb
       Enrich.set_delisted fst snd].

Ltac case_result x :=
  let H := fresh "E" in destruct x eqn:H; run_prog.

Lemma read_details_app_type (d : json) (l : Enrich.meta_locals) :
  Enrich.app_type l = None ->
  Enrich.app_type (snd (Enrich.read_details d l)) = kind_of_details d.
Proof.
  intros Hl. unfold Enrich.read_details, kind_of_details. run_prog.
  case_result (Json.get d "type"); [|exact Hl].
  case_result (Enrich.str_lower (Json.or_else a (JStr ""))); [|exact Hl].
  case_result (Json.get d "release_date"); [|reflexivity].
  case_result (Json.get (Json.or_else a1 (JDict [])) "coming_soon"); [|reflexivity].
  destruct (Json.truthy a2); run_prog.
  - case_result (Json.get d "pc_requirements"); [|reflexivity].
    case_result (Enrich.size_from_requirements (Json.or_else a3 (JDict []))); reflexivity.
  - case_result (Json.get (Json.or_else a1 (JDict [])) "date"); [|reflexivity].
    case_result (Enrich.extract_year_of a3); [|reflexivity].
    case_result (Json.get d "pc_requirements"); [|reflexivity].
    case_result (Enrich.size_from_requirements (Json.or_else a5 (JDict []))); reflexivity.
Qed.

Lemma read_details_size (d : json) (l : Enrich.meta_locals) :
  fst (Enrich.read_details d l) = Ok tt ->
  exists pcv size,
    Json.get d "pc_requirements" = Ok pcv
    /\ Enrich.size_from_requirements (Json.or_else pcv (JDict [])) = Ok size
    /\ Enrich.size_gb (snd (Enrich.read_details d l)) = size.
Proof.
  unfold Enrich.read_details. run_prog.
  case_result (Json.get d "type"); [|discriminate].
  case_result (Enrich.str_lower (Json.or_else a (JStr ""))); [|discriminate].
  case_result (Json.get d "release_date"); [|discriminate].
  case_result (Json.get (Json.or_else a1 (JDict [])) "coming_soon"); [|discriminate].
  destruct (Json.truthy a2); run_prog.
  - case_result (Json.get d "pc_requirements"); [|discriminate].
    case_result (Enrich.size_from_requirements (Json.or_else a3 (JDict []))); [|discriminate].
    intros _. exists a3, a4. auto.
  - case_result (Json.get (Json.or_else a1 (JDict [])) "date"); [|discriminate].
    case_result (Enrich.extract_year_of a3); [|discriminate].
    case_result (Json.get d "pc_requirements"); [|discriminate].
    case_result (Enrich.size_from_requirements (Json.or_else a5 (JDict []))); [|discriminate].
    intros _. exists a5, a6. auto.
Qed.

(** The first [try] block in terms of its two halves. *)
Lemma appdetails_step_details (appid : string) (d : json) :
  value (Enrich.request_details json_loads n appid) = Ok (Some d) ->
  exists l0, Enrich.app_type l0 = None
    /\ Enrich.appdetails_step json_loads n appid fresh_locals = Enrich.read_details d l0.
Proof.
  unfold value, run, Enrich.appdetails_step, Enrich.net, zoom, bind, fresh_locals.
  cbn [Enrich.log].
  destruct (Enrich.request_details json_loads n appid []) as [r lg]. simpl.
  intros ->. eexists. split; [|reflexivity]. reflexivity.
Qed.

Lemma after_appdetails_details (appid : string) (d : json) :
  value (Enrich.request_details json_loads n appid) = Ok (Some d) ->
  exists l0, Enrich.app_type l0 = None
    /\ after_appdetails json_loads n appid = snd (Enrich.read_details d l0).
Proof.
  intros H. destruct (appdetails_step_details appid d H) as (l0 & H0 & Hs).
  exists l0. split; [exact H0|].
  unfold after_appdetails. rewrite (swallow_ok _ _ (safe_appdetails_step appid)).
  now rewrite Hs.
Qed.

Lemma after_appdetails_no_details (appid : string) :
  (forall d, value (Enrich.request_details json_loads n appid) <> Ok (Some d)) ->
  Enrich.app_type (after_appdetails json_loads n appid) = None.
Proof.
  intros H. unfold after_appdetails. rewrite (swallow_ok _ _ (safe_appdetails_step appid)).
  revert H.
  unfold value, run, Enrich.appdetails_step, Enrich.net, zoom, bind, fresh_locals.
  cbn [Enrich.log].
  destruct (Enrich.request_details json_loads n appid []) as [[[d|]|e] lg]; simpl; intros H.
  - exfalso. now apply (H d).
  - reflexivity.
  - reflexivity.
Qed.

Lemma size_from_blocks (pc : json) (mn rc : string) :
  Json.get pc "minimum" = Ok (JStr mn) ->
  Json.get pc "recommended" = Ok (JStr rc) ->
  Enrich.size_from_requirements pc
  = Ok (if Enrich.size_truthy (Enrich.parse_storage_requirement_gb_from_html mn)
        then Enrich.parse_storage_requirement_gb_from_html mn
        else Enrich.parse_storage_requirement_gb_from_html rc).
Proof.
  intros Hmn Hrc. unfold Enrich.size_from_requirements. rewrite Hmn, Hrc.
  cbn [and_then]. unfold Json.or_else. cbn [Json.truthy].
  assert (Hm : (if negb (String.eqb mn "") then JStr mn else JStr "") = JStr mn).
  { destruct (String.eqb_spec mn ""); subst; reflexivity. }
  assert (Hr : (if negb (String.eqb rc "") then JStr rc else JStr "") = JStr rc).
  { destruct (String.eqb_spec rc ""); subst; reflexivity. }
  rewrite Hm, Hr. cbn [Enrich.parse_size_of and_then].
  destruct (Enrich.size_truthy _); reflexivity.
Qed.

(** C8. A field that the structured-details step resolved keeps its value
    through the store-page step: that step assigns kind, release year,
    install size and availability only while they are still absent, whatever
    the page holds, and the dict that is returned carries the values of the
    first step (the size rounded to two decimals, and absent when it is 0.0). *)
Theorem first_writer_wins (appid : string) (nsf ca : bool) :
  let primary := after_appdetails json_loads n appid in
  (forall l,
     let l' := after_store_page n appid nsf l in
     (forall k, Enrich.app_type l = Some k -> Enrich.app_type l' = Some k)
     /\ (forall y, Enrich.release_year l = Some y -> Enrich.release_year l' = Some y)
     /\ (forall v, Enrich.size_gb l = Some v -> Enrich.size_gb l' = Some v)
     /\ (forall d, Enrich.delisted l = Some d -> Enrich.delisted l' = Some d))
  /\ exists m,
      value (Enrich.fetch_app_meta json_loads n appid nsf ca) = Ok m
      /\ (forall k, Enrich.app_type primary = Some k -> Enrich.Meta.app_type m = Some k)
      /\ (forall y, Enrich.release_year primary = Some y ->
                    Enrich.Meta.release_year m = Some y)
      /\ (forall v, Enrich.size_gb primary = Some v ->
                    Enrich.size_gb (at_return json_loads n appid nsf ca) = Some v
                    /\ Enrich.Meta.approx_install_size_gb m
                       = if Qeq_bool v 0 then None else Some (Num.round2 v))
      /\ (forall d, Enrich.delisted primary = Some d -> Enrich.Meta.delisted m = Some d).
Proof.
  intros primary. split; [intros l; apply store_page_assigns_absent_only|].
  exists (Enrich.meta_of (at_return json_loads n appid nsf ca)).
  split; [apply value_fetch_app_meta|].
  assert (Keep :
    (forall k, Enrich.app_type primary = Some k ->
               Enrich.app_type (at_return json_loads n appid nsf ca) = Some k)
    /\ (forall y, Enrich.release_year primary = Some y ->
                  Enrich.release_year (at_return json_loads n appid nsf ca) = Some y)
    /\ (forall v, Enrich.size_gb primary = Some v ->
                  Enrich.size_gb (at_return json_loads n appid nsf ca) = Some v)
    /\ (forall d, Enrich.delisted primary = Some d ->
                  Enrich.delisted (at_return json_loads n appid nsf ca) = Some d)).
  { unfold at_return. fold primary.
    destruct (Enrich.needs_store_page primary nsf ca).
    - apply store_page_assigns_absent_only.
    - repeat split; intros; assumption. }
  destruct Keep as (Kt & Ky & Kv & Kd).
  unfold Enrich.meta_of; cbn [Enrich.Meta.app_type Enrich.Meta.release_year
    Enrich.Meta.approx_install_size_gb Enrich.Meta.delisted].
  split; [exact Kt|]. split; [exact Ky|]. split; [|exact Kd].
  intros v Hv. rewrite (Kv v Hv). cbn [Enrich.size_truthy].
  split; [reflexivity|]. destruct (Qeq_bool v 0); reflexivity.
Qed.

(** C10. Metadata resolution always returns.  When the size it ends up with
    is exactly 0.0 the install size it reports is absent, and a size that is
    reported comes from a size that is not zero.  A kind that the structured
    endpoint gives as the empty string leaves the kind absent after that
    step, and no kind that the step assigns is the empty string. *)
Theorem zero_size_and_empty_kind_are_absent (appid : string) (nsf ca : bool) :
  exists m,
    value (Enrich.fetch_app_meta json_loads n appid nsf ca) = Ok m
    /\ (forall v, Enrich.size_gb (at_return json_loads n appid nsf ca) = Some v ->
                  (v == 0)%Q -> Enrich.Meta.approx_install_size_gb m = None)
    /\ (forall q, Enrich.Meta.approx_install_size_gb m = Some q ->
                  exists v, Enrich.size_gb (at_return json_loads n appid nsf ca) = Some v
                            /\ ~ (v == 0)%Q /\ q = Num.round2 v)
    /\ (forall d, value (Enrich.request_details json_loads n appid) = Ok (Some d) ->
                  Json.get d "type" = Ok (JStr "") ->
                  Enrich.app_type (after_appdetails json_loads n appid) = None)
    /\ (forall k, Enrich.app_type (after_appdetails json_loads n appid) = Some k ->
                  k <> "").
Proof.
  exists (Enrich.meta_of (at_return json_loads n appid nsf ca)).
  split; [apply value_fetch_app_meta|].
  unfold Enrich.meta_of; cbn [Enrich.Meta.approx_install_size_gb].
  split; [|split; [|split]].
  - intros v Hv Hz. rewrite Hv. cbn [Enrich.size_truthy].
    apply Qeq_bool_iff in Hz. now rewrite Hz.
  - intros q. destruct (Enrich.size_gb _) as [v|]; cbn [Enrich.size_truthy]; [|discriminate].
    destruct (Qeq_bool v 0) eqn:Hz; cbn [negb]; [discriminate|].
    intros [= <-]. exists v. split; [reflexivity|]. split; [|reflexivity].
    intros Hc. apply Qeq_bool_iff in Hc. congruence.
  - intros d Hd Hty.
    destruct (after_appdetails_details appid d Hd) as (l0 & H0 & ->).
    rewrite (read_details_app_type d l0 H0). unfold kind_of_details. now rewrite Hty.
  - intros k Hk ->.
    destruct (value (Enrich.request_details json_loads n appid)) as [[d|]|e] eqn:Hd.
    + destruct (after_appdetails_details appid d Hd) as (l0 & H0 & Hl).
      rewrite Hl, (read_details_app_type d l0 H0) in Hk. unfold kind_of_details in Hk.
      destruct (Json.get d "type") as [ty|]; [|discriminate].
      destruct (Enrich.str_lower _) as [lowered|]; [|discriminate].
      destruct (String.eqb_spec lowered ""); [discriminate|]. congruence.
    + rewrite after_appdetails_no_details in Hk; [discriminate|]. congruence.
    + rewrite after_appdetails_no_details in Hk; [discriminate|]. congruence.
Qed.

(** C3, as the code has it.  For a successful structured-details response
    whose requirements hold a "minimum" and a "recommended" block, the size
    the first step assigns is the size parsed from the minimum block when that
    is present and not zero, and the size parsed from the recommended block
    otherwise; it is not the larger of the two.  Within one block the parsed
    size is the largest of the size phrases found. *)
Theorem install_size_prefers_minimum_block
    (appid : string) (d pc : json) (mn rc : string) :
  value (Enrich.request_details json_loads n appid) = Ok (Some d) ->
  Json.get d "pc_requirements" = Ok pc ->
  Json.get pc "minimum" = Ok (JStr mn) ->
  Json.get pc "recommended" = Ok (JStr rc) ->
  fst (Enrich.appdetails_step json_loads n appid fresh_locals) = Ok tt ->
  let from_min := Enrich.parse_storage_requirement_gb_from_html mn in
  let from_rec := Enrich.parse_storage_requirement_gb_from_html rc in
  Enrich.size_gb (after_appdetails json_loads n appid)
  = (if Enrich.size_truthy from_min then from_min else from_rec)
  /\ (forall html v,
        Enrich.parse_storage_requirement_gb_from_html html = Some v ->
        In v (Enrich.size_phrases html)
        /\ forall w, In w (Enrich.size_phrases html) -> (w <= v)%Q).
Proof.
  intros Hd Hpc Hmn Hrc Hok from_min from_rec. split.
  - destruct (appdetails_step_details appid d Hd) as (l0 & H0 & Hs).
    unfold after_appdetails. rewrite (swallow_ok _ _ (safe_appdetails_step appid)).
    cbn [snd]. rewrite Hs in *.
    destruct (read_details_size d l0 Hok) as (pcv & size & Hp & Hsz & Hsize).
    rewrite Hsize. rewrite Hpc in Hp. injection Hp as <-.
    assert (Hpc' : Json.or_else pc (JDict []) = pc).
    { destruct pc as [| | | | | |kv]; try discriminate.
      destruct kv; [discriminate|reflexivity]. }
    rewrite Hpc', (size_from_blocks pc mn rc Hmn Hrc) in Hsz. now injection Hsz as <-.
  - intros html v. apply py_max_spec.
Qed.

End Metadata.

(** ** Review resolution *)

Section Reviews.

Variable json_loads : string -> option json.
Variable n : network.

Local Abbreviation review_outcome := (review_outcome json_loads n).

Lemma appends_review_query (u d : string) : appends (Enrich.review_query json_loads n u d).
Proof. unfold Enrich.review_query, Enrich.response_json. appends_tac. Qed.

Lemma value_review_query (u d : string) :
  value (Enrich.review_query json_loads n u d) = review_outcome u d.
Proof.
  unfold review_outcome, value, run, Enrich.review_query, bind, Utils.http_get_store,
    Utils.session_get, Utils.raise_for_status, Enrich.response_json.
  destruct (n u) as [r|]; simpl; [|reflexivity].
  destruct (_ && _); simpl; [reflexivity|].
  destruct (json_loads (body r)); reflexivity.
Qed.

Lemma requests_review_query (u d : string) :
  requests (Enrich.review_query json_loads n u d) = [Request (Some Store) u].
Proof.
  unfold requests, run, Enrich.review_query, bind, Utils.http_get_store,
    Utils.session_get, Utils.raise_for_status, Enrich.response_json.
  destruct (n u) as [r|]; simpl; [|reflexivity].
  destruct (_ && _); simpl; [reflexivity|].
  destruct (json_loads (body r)); reflexivity.
Qed.

Lemma summary_of_some (j : json) (d : string) (r : Enrich.review) :
  Enrich.summary_of j d = Ok (Some r) ->
  exists q pos total,
    Enrich.query_summary j = Ok q
    /\ Enrich.int_field q "total_reviews" = Ok total
    /\ Enrich.int_field q "total_positive" = Ok pos
    /\ (0 < total)%Z
    /\ exists p, Enrich.percent_positive pos total = Ok p
                 /\ Enrich.recent_percent_positive r = Some p.
Proof.
  unfold Enrich.summary_of, and_then.
  destruct (Enrich.query_summary j) as [q|]; [|discriminate].
  destruct (Enrich.int_field q "total_reviews") as [total|] eqn:Htot; [|discriminate].
  destruct (0 <? total)%Z eqn:Ht; [|discriminate].
  destruct (Enrich.int_field q "total_positive") as [pos|] eqn:Hpos; [|discriminate].
  destruct (Enrich.percent_positive pos total) as [p|] eqn:Hp; [|discriminate].
  destruct (Json.get q "review_score_desc") as [dv|]; [|discriminate].
  intros [= <-]. exists q, pos, total.
  split; [reflexivity|]. split; [exact Htot|]. split; [exact Hpos|].
  split; [now apply Z.ltb_lt|]. now exists p.
Qed.

Lemma summary_of_none (j : json) (d : string) :
  Enrich.summary_of j d = Ok None <->
  exists q total,
    Enrich.query_summary j = Ok q
    /\ Enrich.int_field q "total_reviews" = Ok total /\ (total <= 0)%Z.
Proof.
  unfold Enrich.summary_of, and_then. split.
  - destruct (Enrich.query_summary j) as [q|]; [|discriminate].
    destruct (Enrich.int_field q "total_reviews") as [total|] eqn:Htot; [|discriminate].
    destruct (0 <? total)%Z eqn:Ht.
    + destruct (Enrich.int_field q "total_positive"); [|discriminate].
      destruct (Enrich.percent_positive _ total); [|discriminate].
      destruct (Json.get q "review_score_desc"); discriminate.
    + intros _. exists q, total.
      split; [reflexivity|]. split; [exact Htot|]. apply Z.ltb_ge. exact Ht.
  - intros (q & total & -> & -> & Hle).
    apply Z.ltb_ge in Hle. now rewrite Hle.
Qed.

Lemma review_outcome_some (u d : string) (r : Enrich.review) :
  review_outcome u d = Ok (Some r) ->
  exists resp j, n u = Some resp /\ json_loads (body resp) = Some j
                 /\ Enrich.summary_of j d = Ok (Some r).
Proof.
  unfold review_outcome. destruct (n u) as [resp|]; [|discriminate].
  destruct (_ && _); [discriminate|].
  destruct (json_loads (body resp)) as [j|] eqn:Hj; [|discriminate].
  intros H. exists resp, j. auto.
Qed.

Lemma value_attempt (u d : string) :
  value (Enrich.attempt json_loads n u d)
  = match review_outcome u d with
    | Ok o => Ok o
    | Raise e => if is_Exception e then Ok None else Raise e
    end.
Proof.
  unfold Enrich.attempt.
  rewrite value_try_except by (auto using appends_review_query with appends).
  rewrite value_review_query. destruct (review_outcome u d) as [o|e]; [reflexivity|].
  destruct (is_Exception e); reflexivity.
Qed.

Lemma requests_attempt (u d : string) :
  requests (Enrich.attempt json_loads n u d) = [Request (Some Store) u].
Proof.
  unfold Enrich.attempt.
  rewrite requests_try_except by (auto using appends_review_query with appends).
  rewrite requests_review_query, value_review_query.
  destruct (review_outcome u d) as [o|e]; [reflexivity|].
  destruct (is_Exception e); reflexivity.
Qed.

Lemma appends_attempt (u d : string) : appends (Enrich.attempt json_loads n u d).
Proof. unfold Enrich.attempt. auto using appends_review_query with appends. Qed.

Lemma catchable_int_field (q : json) (k : string) : catchable (Enrich.int_field q k).
Proof.
  unfold Enrich.int_field. apply catchable_and_then.
  - apply catchable_get_default.
  - intros; apply catchable_to_int.
Qed.

Lemma catchable_percent_positive (pos total : Z) :
  catchable (Enrich.percent_positive pos total).
Proof.
  unfold Enrich.percent_positive, F64.truediv, and_then.
  destruct (total =? 0)%Z; [reflexivity|].
  destruct (F64.nearest _ _ _); exact I || reflexivity.
Qed.

Lemma catchable_summary_of (j : json) (d : string) : catchable (Enrich.summary_of j d).
Proof.
  unfold Enrich.summary_of, Enrich.query_summary.
  repeat (apply catchable_and_then;
          [first [apply catchable_get_default | apply catchable_int_field
                 | apply catchable_and_then; [apply catchable_get_default|intros; exact I]]
          | intros]).
  destruct (0 <? _)%Z; [|exact I].
  repeat (apply catchable_and_then;
          [first [apply catchable_get_default | apply catchable_int_field
                 | apply catchable_percent_positive] | intros]).
  exact I.
Qed.

Lemma catchable_review_outcome (u d : string) : catchable (review_outcome u d).
Proof.
  unfold review_outcome. destruct (n u) as [r|]; [|reflexivity].
  destruct (_ && _); [reflexivity|].
  destruct (json_loads (body r)); [apply catchable_summary_of | reflexivity].
Qed.

Lemma review_query_none (u d : string) :
  value (Enrich.review_query json_loads n u d) = Ok None <->
  exists resp j q total,
    n u = Some resp
    /\ (400 <=? status resp)%Z && (status resp <? 600)%Z = false
    /\ json_loads (body resp) = Some j
    /\ Enrich.query_summary j = Ok q
    /\ Enrich.int_field q "total_reviews" = Ok total /\ (total <= 0)%Z.
Proof.
  rewrite value_review_query. unfold review_outcome. split.
  - destruct (n u) as [resp|]; [|discriminate].
    destruct (_ && _) eqn:Hs; [discriminate|].
    destruct (json_loads (body resp)) as [j|] eqn:Hj; [|discriminate].
    intros H. apply summary_of_none in H. destruct H as (q & total & Hq & Ht & Hle).
    exists resp, j, q, total. auto 10.
  - intros (resp & j & q & total & -> & -> & -> & Hq & Ht & Hle).
    apply summary_of_none. eauto.
Qed.

(** C9. Review resolution asks for the recent window first.  When that query
    fails or reports no reviews it asks for the all-time summary, and when
    that one fails or reports no reviews either the result is "No reviews"
    with no percentage.  A query counts as reporting no reviews exactly when
    its response gives a total that is not positive.  A percentage in the
    result is [positive / total * 100] rounded to two decimals, as binary64
    computes it (the quotient of the two integers, its product with 100.0,
    the rounding), from the figures of one of the two queries, whose total
    was positive. *)
Theorem review_resolution_chain (appid : string) (day_range : Z) :
  let recent_url := Enrich.REVIEWS_RECENT appid day_range in
  let overall_url := Enrich.REVIEWS_OVERALL appid in
  let recent := value (Enrich.review_query json_loads n recent_url "Recent reviews") in
  let overall := value (Enrich.review_query json_loads n overall_url "Overall reviews") in
  let m := Enrich.fetch_review_summary json_loads n appid day_range in
  match recent with
  | Ok (Some r) => value m = Ok r /\ requests m = [Request (Some Store) recent_url]
  | _ =>
      requests m = [Request (Some Store) recent_url; Request (Some Store) overall_url]
      /\ match overall with
         | Ok (Some r) => value m = Ok r
         | _ => value m = Ok (Enrich.Review (JStr "No reviews") None)
         end
  end
  /\ (forall u d,
        value (Enrich.review_query json_loads n u d) = Ok None <->
        exists resp j q total,
          n u = Some resp
          /\ (400 <=? status resp)%Z && (status resp <? 600)%Z = false
          /\ json_loads (body resp) = Some j
          /\ Enrich.query_summary j = Ok q
          /\ Enrich.int_field q "total_reviews" = Ok total /\ (total <= 0)%Z)
  /\ (forall r p,
        value m = Ok r -> Enrich.recent_percent_positive r = Some p ->
        exists u resp j q pos total,
          (u = recent_url \/ u = overall_url)
          /\ n u = Some resp /\ json_loads (body resp) = Some j
          /\ Enrich.query_summary j = Ok q
          /\ Enrich.int_field q "total_reviews" = Ok total
          /\ Enrich.int_field q "total_positive" = Ok pos
          /\ (0 < total)%Z
          /\ exists ratio,
               F64.truediv pos total = Ok ratio
               /\ p = F64.round2 (F64.mul ratio (F64.of_Z 100))).
Proof.
  intros recent_url overall_url recent overall m.
  subst recent overall m recent_url overall_url. unfold Enrich.fetch_review_summary.
  generalize (Enrich.REVIEWS_RECENT appid day_range) (Enrich.REVIEWS_OVERALL appid).
  intros u1 u2.
  set (tail := (overall0 <- Enrich.attempt json_loads n u2 "Overall reviews" ;;
                match overall0 with
                | Some r => ret r
                | None => ret (Enrich.Review (JStr "No reviews") None)
                end)%prog).
  set (m := (recent0 <- Enrich.attempt json_loads n u1 "Recent reviews" ;;
             match recent0 with Some r => ret r | None => tail end)%prog).
  rewrite !value_review_query.
  pose proof (catchable_review_outcome u1 "Recent reviews") as C1.
  pose proof (catchable_review_outcome u2 "Overall reviews") as C2.
  assert (At : appends tail).
  { subst tail. apply appends_bind; [apply appends_attempt|intros [r|]; appends_tac]. }
  assert (Vt : value tail =
    match review_outcome u2 "Overall reviews" with
    | Ok (Some r) => Ok r
    | _ => Ok (Enrich.Review (JStr "No reviews") None)
    end).
  { subst tail. rewrite value_bind; [|apply appends_attempt|intros [r|]; appends_tac].
    rewrite value_attempt.
    destruct (review_outcome u2 "Overall reviews") as [[r|]|e]; simpl in *;
      try reflexivity. rewrite C2. reflexivity. }
  assert (Rt : requests tail = [Request (Some Store) u2]).
  { subst tail. rewrite requests_bind; [|apply appends_attempt|intros [r|]; appends_tac].
    rewrite requests_attempt, value_attempt.
    destruct (review_outcome u2 "Overall reviews") as [[r|]|e]; try reflexivity.
    destruct (is_Exception e); reflexivity. }
  assert (Hv : value m =
    match review_outcome u1 "Recent reviews" with
    | Ok (Some r) => Ok r
    | _ => value tail
    end).
  { subst m. rewrite value_bind; [|apply appends_attempt|intros [r|]; appends_tac].
    rewrite value_attempt.
    destruct (review_outcome u1 "Recent reviews") as [[r|]|e]; simpl in *;
      try reflexivity. rewrite C1. reflexivity. }
  assert (Hr : requests m =
    match review_outcome u1 "Recent reviews" with
    | Ok (Some r) => [Request (Some Store) u1]
    | _ => [Request (Some Store) u1; Request (Some Store) u2]
    end).
  { subst m. rewrite requests_bind; [|apply appends_attempt|intros [r|]; appends_tac].
    rewrite requests_attempt, value_attempt.
    destruct (review_outcome u1 "Recent reviews") as [[r|]|e]; simpl in *.
    - reflexivity.
    - now rewrite Rt.
    - rewrite C1. now rewrite Rt. }
  clearbody m tail.
  split; [|split].
  - rewrite Hv, Hr, Vt.
    destruct (review_outcome u1 "Recent reviews") as [[r|]|e]; auto; split; auto;
      destruct (review_outcome u2 "Overall reviews") as [[r|]|e']; auto.
  - intros u d. apply review_query_none.
  - intros r p Hm Hp. rewrite Hv, Vt in Hm.
    assert (Hsrc : (review_outcome u1 "Recent reviews" = Ok (Some r))
                   \/ (review_outcome u2 "Overall reviews" = Ok (Some r))).
    { destruct (review_outcome u1 "Recent reviews") as [[r1|]|e1].
      - left. congruence.
      - destruct (review_outcome u2 "Overall reviews") as [[r2|]|e2];
          [right; congruence| |]; injection Hm as <-; discriminate.
      - destruct (review_outcome u2 "Overall reviews") as [[r2|]|e2];
          [right; congruence| |]; injection Hm as <-; discriminate. }
    destruct Hsrc as [H|H];
      apply review_outcome_some in H; destruct H as (resp & j & Hn & Hj & Hs);
      apply summary_of_some in Hs;
      destruct Hs as (q & pos & total & Hq & Ht & Hpos & Hlt & p' & Hpct & Hp');
      rewrite Hp in Hp'; injection Hp' as <-;
      unfold Enrich.percent_positive, and_then in Hpct;
      (destruct (F64.truediv pos total) as [ratio|] eqn:Hratio; [|discriminate]);
      injection Hpct as <-.
    + exists u1, resp, j, q, pos, total. repeat (split; [now auto|]). now exists ratio.
    + exists u2, resp, j, q, pos, total. repeat (split; [now auto|]). now exists ratio.
Qed.

End Reviews.

(** ** Computations that make no request *)

Section SilentLemmas.

Context {S A B : Type}.

Lemma silent_ret (a : A) : silent (@ret S A a).
Proof. intros s. reflexivity. Qed.

Lemma silent_raise (e : exn) : silent (@raise S A e).
Proof. intros s. reflexivity. Qed.

Lemma silent_lift (r : result A) : silent (@lift S A r).
Proof. intros s. reflexivity. Qed.

Lemma silent_bind (m : prog S A) (f : A -> prog S B) :
  silent m -> (forall a, silent (f a)) -> silent (bind m f).
Proof.
  intros Hm Hf s. unfold bind. specialize (Hm s).
  destruct (m s) as [[a|e] s']; simpl in *; subst; [apply Hf | reflexivity].
Qed.

Lemma silent_try_except (m : prog S A) (h : exn -> prog S A) :
  silent m -> (forall e, silent (h e)) -> silent (try_except m h).
Proof.
  intros Hm Hh s. unfold try_except. specialize (Hm s).
  destruct (m s) as [[a|e] s']; simpl in *; subst; [reflexivity|].
  destruct (is_Exception e); [apply Hh | reflexivity].
Qed.

End SilentLemmas.

Lemma silent_raise_for_status (r : response) : silent (Utils.raise_for_status r).
Proof.
  unfold Utils.raise_for_status. destruct (_ && _); [apply silent_raise | apply silent_ret].
Qed.

Create HintDb silent.
#[export] Hint Resolve silent_ret silent_raise silent_lift silent_bind silent_try_except
  silent_raise_for_status : silent.

Ltac silent_step :=
  match goal with
  | |- forall _, _ => intro
  | |- silent (bind _ _) => apply silent_bind
  | |- silent (try_except _ _) => apply silent_try_except
  | |- silent (match ?x with _ => _ end) => destruct x
  | |- silent (if ?b then _ else _) => destruct b
  | |- silent _ => solve [auto with silent]
  end.

Ltac silent_tac := repeat silent_step.

(** One request, then no other: the log grows by that request. *)
Lemma one_request {A} (n : network) (via : option host) (u : string)
    (f : response -> io A) (h : exn -> io A) (log : list request) :
  (forall r, silent (f r)) -> (forall e, silent (h e)) ->
  snd (try_except (bind (Utils.session_get n via u) f) h log) = log ++ [Request via u].
Proof.
  intros Hf Hh. unfold try_except, bind, Utils.session_get.
  destruct (n u) as [r|]; cbn.
  - specialize (Hf r (log ++ [Request via u])).
    destruct (f r (log ++ [Request via u])) as [[a|e] l']; cbn in *; subst; [reflexivity|].
    destruct (is_Exception e); [apply Hh | reflexivity].
  - apply Hh.
Qed.

(** ** Library fetch *)

Section Library.

Variable xml_fromstring : string -> option xml.
Variable json_loads : string -> option json.
Variable py_str : json -> string.
Variable n : network.

Lemma run_fetch_games_xml (u : string) (log : list request) :
  SteamFetch.fetch_games_xml xml_fromstring n u log
  = (value (SteamFetch.fetch_games_xml xml_fromstring n u), log ++ [Request None u]).
Proof.
  unfold value, run, SteamFetch.fetch_games_xml, bind, Utils.session_get,
    Utils.raise_for_status, InputParser.parse_xml, ret, raise.
  destruct (n u) as [r|]; cbn; [|reflexivity].
  destruct (_ && _); cbn; [reflexivity|].
  destruct (xml_fromstring (body r)); reflexivity.
Qed.

Lemma safe_fetch_games_xml (u : string) : safe (SteamFetch.fetch_games_xml xml_fromstring n u).
Proof.
  unfold SteamFetch.fetch_games_xml, InputParser.parse_xml. safe_tac.
Qed.

Lemma log_fetch_games_html_rg (u : string) (log : list request) :
  snd (try_except (SteamFetch.fetch_games_html_rg json_loads py_str n u) (fun _ => ret []) log)
  = log ++ [Request None u].
Proof.
  unfold SteamFetch.fetch_games_html_rg. apply one_request.
  - unfold SteamFetch.loads_or_raise. silent_tac.
  - intros e. apply silent_ret.
Qed.

(** C7. An account fetch asks for the structured feed first.  When the feed
    yields no item, because the request or the parse fails or because the
    list is empty, exactly one further request is made, for the profile
    page; when the feed yields items they are returned and nothing else is
    requested. *)
Theorem fallback_activation (steamid64 : string) :
  let xml_url := fst (SteamFetch.build_profile_urls steamid64) in
  let html_url := snd (SteamFetch.build_profile_urls steamid64) in
  let feed := value (SteamFetch.fetch_games_xml xml_fromstring n xml_url) in
  let m := SteamFetch.get_owned_games_for_steamid xml_fromstring json_loads py_str n steamid64 in
  match feed with
  | Ok (g :: gs) => requests m = [Request None xml_url] /\ value m = Ok (g :: gs)
  | Ok [] | Raise _ => requests m = [Request None xml_url; Request None html_url]
  end.
Proof.
  intros xml_url html_url feed m. subst m feed.
  unfold SteamFetch.get_owned_games_for_steamid.
  destruct (SteamFetch.build_profile_urls steamid64) as [xu hu]. cbn [fst snd] in *.
  subst xml_url html_url.
  pose proof (safe_fetch_games_xml xu []) as Hsafe.
  unfold requests, value at 2, run, bind, try_except.
  rewrite run_fetch_games_xml. cbn [fst] in Hsafe. rewrite run_fetch_games_xml in Hsafe.
  cbn [fst] in Hsafe.
  destruct (value (SteamFetch.fetch_games_xml xml_fromstring n xu)) as [[|g gs]|e].
  - pose proof (log_fetch_games_html_rg hu ([] ++ [Request None xu])) as H.
    unfold try_except in H. exact H.
  - split; reflexivity.
  - cbn in Hsafe. rewrite Hsafe.
    pose proof (log_fetch_games_html_rg hu ([] ++ [Request None xu])) as H.
    unfold try_except in H. exact H.
Qed.

Lemma catchable_games_of_array (arr : list json) :
  catchable (SteamFetch.games_of_array py_str arr).
Proof.
  induction arr as [|g t IH]; simpl; [exact I|].
  unfold SteamFetch.game_of_json.
  destruct (Json.get g "appid"); [|reflexivity].
  destruct (Json.get g "appID"); [|reflexivity].
  destruct (Json.get g "name"); [|reflexivity].
  destruct (Json.get g "friendly_name"); [|reflexivity].
  destruct (Json.get g "hours_forever"); [|reflexivity].
  destruct (SteamFetch.games_of_array py_str t); [exact I | exact IH].
Qed.

Lemma safe_fetch_games_html_rg (u : string) :
  safe (SteamFetch.fetch_games_html_rg json_loads py_str n u).
Proof.
  unfold SteamFetch.fetch_games_html_rg, SteamFetch.loads_or_raise.
  pose proof catchable_games_of_array. safe_tac.
Qed.

Lemma appends_get_owned (sid : string) :
  appends (SteamFetch.get_owned_games_for_steamid xml_fromstring json_loads py_str n sid).
Proof.
  unfold SteamFetch.get_owned_games_for_steamid, SteamFetch.fetch_games_xml,
    SteamFetch.fetch_games_html_rg, SteamFetch.loads_or_raise, InputParser.parse_xml.
  appends_tac.
Qed.

Lemma try_except_returns {A} (m : io A) (d : A) (log : list request) :
  safe m -> exists a l', try_except m (fun _ => ret d) log = (Ok a, l').
Proof.
  intros Hm. unfold try_except. specialize (Hm log).
  destruct (m log) as [[a|e] l']; simpl in Hm.
  - exists a, l'. reflexivity.
  - rewrite Hm. exists d, l'. reflexivity.
Qed.

(** The account fetch never raises. *)
Lemma get_owned_returns (sid : string) :
  value (SteamFetch.get_owned_games_for_steamid xml_fromstring json_loads py_str n sid)
  = Ok (fetched xml_fromstring json_loads py_str n sid).
Proof.
  unfold fetched.
  assert (H : exists games,
    value (SteamFetch.get_owned_games_for_steamid xml_fromstring json_loads py_str n sid)
    = Ok games); [|destruct H as [games ->]; reflexivity].
  unfold value, run, SteamFetch.get_owned_games_for_steamid.
  destruct (SteamFetch.build_profile_urls sid) as [xu hu].
  unfold bind.
  destruct (try_except_returns _ [] [] (safe_fetch_games_xml xu)) as (games & l1 & ->).
  destruct games as [|g gs]; [|eexists; reflexivity].
  destruct (try_except_returns _ [] l1 (safe_fetch_games_html_rg hu)) as (games & l2 & ->).
  eexists; reflexivity.
Qed.

(** Stage 1 always completes, and [combined] is the fold of the merge over
    the libraries fetched, account by account. *)
Lemma run_fetch_libraries (entries : list InputParser.entry) (st : Pipeline.libraries)
    (log : list request) :
  exists st' log',
    Pipeline.fetch_libraries xml_fromstring json_loads py_str n entries st log = (Ok st', log')
    /\ Pipeline.combined st'
       = fold_left (fun c lib => Pipeline.merge_account (fst lib) c (snd lib))
           (map (fun e => (InputParser.steamid64 e,
                           fetched xml_fromstring json_loads py_str n (InputParser.steamid64 e)))
                entries)
           (Pipeline.combined st).
Proof.
  revert st log. induction entries as [|e entries IH]; intros st log; simpl.
  - exists st, log. split; reflexivity.
  - unfold bind. rewrite (appends_get_owned (InputParser.steamid64 e) log), get_owned_returns.
    destruct (fetched xml_fromstring json_loads py_str n (InputParser.steamid64 e))
      as [|g gs] eqn:Hf.
    + destruct (IH (Pipeline.Libraries (Pipeline.combined st) (Pipeline.ok_count st)
                      (Pipeline.failed st ++ [Pipeline.failed_line e]))
                   (log ++ requests (SteamFetch.get_owned_games_for_steamid xml_fromstring
                                       json_loads py_str n (InputParser.steamid64 e))))
        as (st' & log' & Hr & Hc).
      exists st', log'. split; [exact Hr|]. rewrite Hc. reflexivity.
    + destruct (IH (Pipeline.Libraries
                      (Pipeline.merge_account (InputParser.steamid64 e) (Pipeline.combined st)
                         (g :: gs))
                      (Pipeline.ok_count st + 1)%Z (Pipeline.failed st))
                   (log ++ requests (SteamFetch.get_owned_games_for_steamid xml_fromstring
                                       json_loads py_str n (InputParser.steamid64 e))))
        as (st' & log' & Hr & Hc).
      exists st', log'. split; [exact Hr|]. rewrite Hc. reflexivity.
Qed.

End Library.

(** ** Aggregation *)

Section Dict.

Context {V : Type}.

Lemma lookup_key_alter (f : V -> V) (k k' : string) (d : list (string * V)) :
  Pipeline.lookup_key k (Pipeline.alter_key f k' d)
  = if String.eqb k k' then option_map f (Pipeline.lookup_key k d)
    else Pipeline.lookup_key k d.
Proof.
  induction d as [|[k0 v] d IH]; simpl.
  - now destruct (String.eqb k k').
  - destruct (String.eqb_spec k' k0) as [->|Hne]; simpl.
    + destruct (String.eqb k k0); reflexivity.
    + destruct (String.eqb_spec k k0) as [->|Hne'].
      * destruct (String.eqb_spec k0 k'); [congruence|reflexivity].
      * exact IH.
Qed.

Lemma lookup_key_app (k k' : string) (v : V) (d : list (string * V)) :
  Pipeline.lookup_key k (d ++ [(k', v)])
  = match Pipeline.lookup_key k d with
    | Some x => Some x
    | None => if String.eqb k k' then Some v else None
    end.
Proof.
  induction d as [|[k0 v0] d IH]; simpl; [reflexivity|].
  destruct (String.eqb k k0); [reflexivity | exact IH].
Qed.

End Dict.

Lemma lookup_merge_game (sid k : string) (c : Pipeline.combined_t) (g : SteamFetch.game) :
  Pipeline.lookup_key k (Pipeline.merge_game sid c g)
  = if String.eqb k (SteamFetch.appid g)
    then Some (absorb sid g (Pipeline.lookup_key (SteamFetch.appid g) c))
    else Pipeline.lookup_key k c.
Proof.
  unfold Pipeline.merge_game, absorb, Pipeline.has_key.
  rewrite !lookup_key_alter.
  destruct (String.eqb_spec k (SteamFetch.appid g)) as [->|Hne].
  - destruct (Pipeline.lookup_key (SteamFetch.appid g) c) as [i|] eqn:Hl.
    + rewrite Hl. reflexivity.
    + rewrite lookup_key_app, Hl, String.eqb_refl. reflexivity.
  - destruct (Pipeline.lookup_key (SteamFetch.appid g) c) as [i|] eqn:Hl; [reflexivity|].
    rewrite lookup_key_app.
    destruct (Pipeline.lookup_key k c); [reflexivity|].
    destruct (String.eqb_spec k (SteamFetch.appid g)); [contradiction|reflexivity].
Qed.

(** The entry of an id after an account's games are merged: the games with
    that id absorbed one by one. *)
Lemma lookup_merge_account (sid k : string) (games : list SteamFetch.game)
    (c : Pipeline.combined_t) :
  Pipeline.lookup_key k (Pipeline.merge_account sid c games)
  = fold_left (fun e g => Some (absorb sid g e))
      (List.filter (fun g => String.eqb (SteamFetch.appid g) k) games)
      (Pipeline.lookup_key k c).
Proof.
  unfold Pipeline.merge_account. revert c.
  induction games as [|g games IH]; intros c; simpl; [reflexivity|].
  rewrite IH, lookup_merge_game.
  destruct (String.eqb_spec (SteamFetch.appid g) k) as [<-|Hne]; simpl.
  - now rewrite String.eqb_refl.
  - destruct (String.eqb_spec k (SteamFetch.appid g)); [congruence|reflexivity].
Qed.

Lemma lookup_aggregate (k : string) (libs : list (string * list SteamFetch.game))
    (c : Pipeline.combined_t) :
  Pipeline.lookup_key k (fold_left (fun c lib => Pipeline.merge_account (fst lib) c (snd lib)) libs c)
  = fold_left (fun e p => Some (absorb (fst p) (snd p) e)) (occurrences k libs)
      (Pipeline.lookup_key k c).
Proof.
  revert c. induction libs as [|[sid games] libs IH]; intros c; simpl; [reflexivity|].
  rewrite IH, lookup_merge_account, fold_left_app. cbn [fst snd].
  f_equal. generalize (Pipeline.lookup_key k c).
  induction (List.filter _ games) as [|g gs IHg]; intros e; simpl; [reflexivity|].
  apply IHg.
Qed.

(** ** Usage hours *)

Lemma nonneg_zero : nonneg Num.zero.
Proof. reflexivity. Qed.

Lemma nonneg_cases (x : Num.float) :
  nonneg x <-> (exists q, x = Num.Fin q /\ (0 <= q)%Q) \/ x = Num.Inf false.
Proof.
  unfold nonneg, Num.zero. destruct x as [q|[|]|]; simpl; split.
  - intros H. left. exists q. split; [reflexivity|]. now apply Qle_bool_iff.
  - intros [(q' & [= <-] & H)|H]; [now apply Qle_bool_iff | discriminate].
  - discriminate.
  - intros [(q' & H & _)|H]; discriminate.
  - intros _. now right.
  - reflexivity.
  - discriminate.
  - intros [(q' & H & _)|H]; discriminate.
Qed.

Lemma nonneg_float_or_zero (x : Num.float) : nonneg x -> nonneg (Pipeline.float_or_zero x).
Proof. unfold Pipeline.float_or_zero. destruct (Num.truthy x); [auto | intros _; reflexivity]. Qed.

(** Adding a contribution that is not negative to a total that is not
    negative gives a total that is not negative and not smaller. *)
Lemma nonneg_add (x y : Num.float) :
  nonneg x -> nonneg y -> nonneg (Num.add x y) /\ Num.leb x (Num.add x y) = true.
Proof.
  intros Hx Hy. apply nonneg_cases in Hx, Hy.
  destruct Hx as [(a & -> & Ha)| ->], Hy as [(b & -> & Hb)| ->]; simpl.
  - split.
    + apply Qle_bool_iff. rewrite Qred_correct.
      destruct a as [an ad], b as [bn bd]. unfold Qle in *. simpl in *. nia.
    + apply Qle_bool_iff. rewrite Qred_correct.
      destruct a as [an ad], b as [bn bd]. unfold Qle in *. simpl in *. nia.
  - split; reflexivity.
  - split; reflexivity.
  - split; reflexivity.
Qed.

Lemma digits_val_nonneg (l : list ascii) : (0 <= Text.digits_val l)%Z.
Proof.
  unfold Text.digits_val.
  assert (H : forall acc, (0 <= acc)%Z ->
    (0 <= fold_left (fun acc a => 10 * acc + Text.digit_val a) l acc)%Z).
  { induction l as [|a l IH]; intros acc Hacc; simpl; [exact Hacc|].
    apply IH. unfold Text.digit_val. lia. }
  apply H. lia.
Qed.

Lemma scale10_nonneg (m e : Z) : (0 <= m)%Z -> (0 <= Num.scale10 m e)%Q.
Proof.
  intros Hm. unfold Num.scale10. destruct (0 <=? e)%Z eqn:He.
  - rewrite Qred_correct. unfold Qle. simpl.
    apply Z.leb_le in He. assert (0 <= 10 ^ e)%Z by (apply Z.pow_nonneg; lia). nia.
  - rewrite Qred_correct. unfold Qle. simpl. lia.
Qed.

Lemma float_of_string_unsigned (s : string) (f : Num.float) :
  Num.float_of_string s = Some f ->
  fst (Num.take_sign (Text.chars (Text.strip s))) = false ->
  f = Num.NaN \/ nonneg f.
Proof.
  unfold Num.float_of_string.
  destruct (Num.take_sign (Text.chars (Text.strip s))) as [neg body]. simpl.
  intros H ->.
  destruct (_ || _); [injection H as <-; right; reflexivity|].
  destruct (String.eqb _ "nan"); [injection H as <-; now left|].
  destruct (Num.take_digitpart body) as [ip r1].
  destruct (match r1 with
            | [] => ([], [])
            | a :: t => if Ascii.eqb a "." then Num.take_digitpart t else ([], r1)
            end) as [fp r2].
  destruct (ip ++ fp) as [|d ds]; [discriminate|].
  destruct (Num.take_exponent r2) as [[e [|x xs]]|]; try discriminate.
  injection H as <-. right. apply nonneg_cases. left. eexists. split; [reflexivity|].
  apply scale10_nonneg, digits_val_nonneg.
Qed.

Lemma In_lstrip (c : ascii) (l : list ascii) : In c (Text.lstrip l) -> In c l.
Proof.
  induction l as [|a l IH]; simpl; [auto|].
  destruct (Text.is_space a); [intros H; right; auto | auto].
Qed.

Lemma In_strip (c : ascii) (s : string) :
  In c (Text.chars (Text.strip s)) -> In c (Text.chars s).
Proof.
  unfold Text.strip. rewrite chars_text. intros H.
  apply in_rev in H. apply In_lstrip in H. apply in_rev in H. now apply In_lstrip in H.
Qed.

Lemma In_remove_char (c x : ascii) (s : string) :
  In c (Text.chars (Text.remove_char x s)) -> In c (Text.chars s).
Proof.
  unfold Text.remove_char. rewrite chars_text. intros H.
  apply filter_In in H. tauto.
Qed.

Lemma take_sign_unsigned (l : list ascii) :
  (forall c, In c l -> c <> "-"%char) -> fst (Num.take_sign l) = false.
Proof.
  intros H. destruct l as [|a t]; simpl; [reflexivity|].
  destruct (Ascii.eqb_spec a "-") as [->|Hne].
  - exfalso. apply (H "-"%char); [now left | reflexivity].
  - destruct (Ascii.eqb a "+"); reflexivity.
Qed.

(** A text without a minus sign never parses to a negative number of hours. *)
Lemma parse_hours_unsigned (s : string) :
  (forall c, In c (Text.chars s) -> c <> "-"%char) ->
  Utils.parse_hours (JStr s) = Num.NaN \/ nonneg (Utils.parse_hours (JStr s)).
Proof.
  intros H. unfold Utils.parse_hours.
  destruct (String.eqb _ ""); [right; reflexivity|].
  destruct (Num.float_of_string _) as [f|] eqn:Hf; [|right; reflexivity].
  apply (float_of_string_unsigned _ f Hf).
  apply take_sign_unsigned. intros c Hc.
  apply H. apply In_strip. eapply In_remove_char. eapply In_strip. exact Hc.
Qed.

Lemma parse_hours_blank (s : string) :
  Text.strip s = "" -> Utils.parse_hours (JStr s) = Num.zero.
Proof. intros H. unfold Utils.parse_hours. rewrite H. reflexivity. Qed.

Lemma take_digitpart_chars (l ds r : list ascii) :
  Num.take_digitpart l = (ds, r) ->
  forall c, In c l -> In c r \/ Text.is_digit c = true \/ c = "_"%char.
Proof.
  remember (List.length l) as k eqn:Hk. revert l ds r Hk.
  induction k as [k IH] using lt_wf_ind. intros l ds r Hk H c Hc.
  destruct l as [|a t]; [destruct Hc|].
  cbn [Num.take_digitpart] in H. destruct (Text.is_digit a) eqn:Da.
  2:{ injection H as _ <-. now left. }
  assert (Hrec : forall t' ds' r', (List.length t' < k)%nat ->
            Num.take_digitpart t' = (ds', r') ->
            forall c, In c t' -> In c r' \/ Text.is_digit c = true \/ c = "_"%char).
  { intros t' ds' r' Hl. exact (IH _ Hl t' ds' r' eq_refl). }
  destruct Hc as [<-|Hc]; [right; now left|].
  destruct t as [|u [|b t2]].
  - destruct Hc.
  - cbn in H. destruct (Text.is_digit u) eqn:Du.
    + destruct Hc as [<-|[]]. right; now left.
    + injection H as _ <-. now left.
  - destruct (Ascii.eqb u "_" && Text.is_digit b) eqn:E.
    + destruct (Num.take_digitpart (b :: t2)) as [ds' r'] eqn:T. injection H as _ <-.
      apply andb_true_iff in E. destruct E as [Eu _]. apply Ascii.eqb_eq in Eu. subst u.
      destruct Hc as [<-|Hc]; [right; now right|].
      apply (Hrec (b :: t2) ds' r'); [subst k; cbn; lia | exact T | exact Hc].
    + destruct (Num.take_digitpart (u :: b :: t2)) as [ds' r'] eqn:T. injection H as _ <-.
      apply (Hrec (u :: b :: t2) ds' r'); [subst k; cbn; lia | exact T | exact Hc].
Qed.

Lemma lower_text_chars (l : list ascii) (c : ascii) :
  In c l -> In (Text.lower_char c) (Text.chars (Text.lower (Text.text l))).
Proof.
  induction l as [|a l IH]; [intros []|]. cbn. intros [<-|H]; [now left | right; now apply IH].
Qed.

Lemma numeral_digit (c : ascii) : Text.is_digit c = true -> numeral_char c = true.
Proof. intros H. unfold numeral_char. now rewrite H. Qed.

Lemma numeral_lower (c x : ascii) :
  Text.lower_char c = x -> In x ["e"; "i"; "n"; "f"; "t"; "y"; "a"]%char ->
  numeral_char c = true.
Proof.
  intros <- H. unfold numeral_char.
  assert (E : existsb (Ascii.eqb (Text.lower_char c)) ["e"; "i"; "n"; "f"; "t"; "y"; "a"]%char
              = true).
  { apply existsb_exists. exists (Text.lower_char c). split; [exact H | apply Ascii.eqb_refl]. }
  rewrite E. apply orb_true_r.
Qed.

Lemma take_sign_chars (l body : list ascii) (neg : bool) (c : ascii) :
  Num.take_sign l = (neg, body) -> In c l -> In c body \/ c = "-"%char \/ c = "+"%char.
Proof.
  destruct l as [|a t]; [intros _ []|]. cbn [Num.take_sign].
  destruct (Ascii.eqb_spec a "-") as [->|Hm].
  - intros [= _ <-] [<-|H]; auto.
  - destruct (Ascii.eqb_spec a "+") as [->|Hp].
    + intros [= _ <-] [<-|H]; auto.
    + intros [= _ <-] H. now left.
Qed.

Lemma take_exponent_chars (l : list ascii) (e : Z) (c : ascii) :
  Num.take_exponent l = Some (e, []) -> In c l -> numeral_char c = true.
Proof.
  destruct l as [|a t]; [intros _ []|]. cbn [Num.take_exponent].
  destruct (Ascii.eqb_spec (Text.lower_char a) "e") as [Ha|Ha]; [|discriminate].
  destruct (Num.take_sign t) as [neg t1] eqn:S.
  destruct (Num.take_digitpart t1) as [ds r] eqn:T.
  destruct ds as [|d ds]; [discriminate|]. intros [= _ ->].
  intros [<-|Hc].
  - apply (numeral_lower _ _ Ha). now left.
  - destruct (take_sign_chars _ _ _ c S Hc) as [H|[->| ->]]; try reflexivity.
    destruct (take_digitpart_chars _ _ _ T c H) as [[]|[H'| ->]];
      [now apply numeral_digit | reflexivity].
Qed.

(** Every character of a numeral that [float] reads is a numeral character. *)
Lemma float_of_string_chars (s : string) (f : Num.float) (c : ascii) :
  Num.float_of_string s = Some f -> In c (Text.chars (Text.strip s)) ->
  numeral_char c = true.
Proof.
  unfold Num.float_of_string.
  destruct (Num.take_sign (Text.chars (Text.strip s))) as [neg body] eqn:S.
  intros H Hc. destruct (take_sign_chars _ _ _ c S Hc) as [Hb|[->| ->]]; try reflexivity.
  clear Hc S. pose proof (lower_text_chars body c Hb) as Hl.
  destruct (String.eqb_spec (Text.lower (Text.text body)) "inf") as [E|_].
  { rewrite E in Hl. cbn in Hl.
    destruct Hl as [Hl|[Hl|[Hl|[]]]]; apply (numeral_lower _ _ (eq_sym Hl)); cbn; tauto. }
  destruct (String.eqb_spec (Text.lower (Text.text body)) "infinity") as [E|_].
  { rewrite E in Hl. cbn in Hl.
    repeat (destruct Hl as [Hl|Hl]; [apply (numeral_lower _ _ (eq_sym Hl)); cbn; tauto|]).
    destruct Hl. }
  cbn [orb] in H.
  destruct (String.eqb_spec (Text.lower (Text.text body)) "nan") as [E|_].
  { rewrite E in Hl. cbn in Hl.
    repeat (destruct Hl as [Hl|Hl]; [apply (numeral_lower _ _ (eq_sym Hl)); cbn; tauto|]).
    destruct Hl. }
  clear Hl.
  destruct (Num.take_digitpart body) as [ip r1] eqn:T1.
  destruct (take_digitpart_chars _ _ _ T1 c Hb) as [Hr1|[Hd| ->]];
    [|now apply numeral_digit|reflexivity].
  assert (Hr2 : forall fp r2,
            match r1 with
            | a :: t => if Ascii.eqb a "." then Num.take_digitpart t else ([], r1)
            | [] => ([], [])
            end = (fp, r2) ->
            In c r2 \/ numeral_char c = true).
  { intros fp r2 E. destruct r1 as [|a t]; [destruct Hr1|].
    destruct (Ascii.eqb_spec a ".") as [->|Ha].
    - destruct Hr1 as [<-|Ht]; [now right|].
      destruct (take_digitpart_chars _ _ _ E c Ht) as [H'|[H'| ->]];
        [now left | right; now apply numeral_digit | now right].
    - injection E as _ <-. now left. }
  destruct (match r1 with
            | a :: t => if Ascii.eqb a "." then Num.take_digitpart t else ([], r1)
            | [] => ([], [])
            end) as [fp r2] eqn:E.
  destruct (Hr2 fp r2 eq_refl) as [H2|H2]; [|exact H2].
  destruct (ip ++ fp); [discriminate|].
  destruct (Num.take_exponent r2) as [[e [|x y]]|] eqn:X; try discriminate.
  exact (take_exponent_chars _ _ _ X H2).
Qed.

Lemma In_lstrip_keep (c : ascii) (l : list ascii) :
  In c l -> Text.is_space c = false -> In c (Text.lstrip l).
Proof.
  induction l as [|a l IH]; [intros []|]. cbn [Text.lstrip].
  destruct (Text.is_space a) eqn:E.
  - intros [<-|H] Hc; [congruence | now apply IH].
  - intros H _. exact H.
Qed.

Lemma In_strip_keep (c : ascii) (s : string) :
  In c (Text.chars s) -> Text.is_space c = false -> In c (Text.chars (Text.strip s)).
Proof.
  intros H Hc. unfold Text.strip. rewrite chars_text.
  apply (proj1 (in_rev _ _)). apply In_lstrip_keep; [|exact Hc].
  apply (proj1 (in_rev _ _)). now apply In_lstrip_keep.
Qed.

Lemma parse_hours_unparsable (s : string) :
  Num.float_of_string (Text.remove_char "," (Text.strip s)) = None ->
  Utils.parse_hours (JStr s) = Num.zero.
Proof.
  intros H. unfold Utils.parse_hours. rewrite H. now destruct (String.eqb _ "").
Qed.

Lemma parse_hours_foreign_char (s : string) (c : ascii) :
  In c (Text.chars s) -> Text.is_space c = false -> c <> ","%char ->
  numeral_char c = false ->
  Utils.parse_hours (JStr s) = Num.zero.
Proof.
  intros Hc Hs Hcomma Hn. apply parse_hours_unparsable.
  destruct (Num.float_of_string _) as [f|] eqn:E; [|reflexivity].
  exfalso. assert (H : numeral_char c = true); [|congruence].
  apply (float_of_string_chars _ f c E). apply In_strip_keep; [|exact Hs].
  unfold Text.remove_char. rewrite chars_text. apply filter_In. split.
  - now apply In_strip_keep.
  - apply negb_true_iff, Ascii.eqb_neq. exact Hcomma.
Qed.

Lemma leb_refl_nonneg (x : Num.float) : nonneg x -> Num.leb x x = true.
Proof.
  intros H. apply nonneg_cases in H. destruct H as [(q & -> & _)| ->]; simpl.
  - apply Qle_bool_iff, Qle_refl.
  - reflexivity.
Qed.

(** One step of the aggregation loop, for a contribution that is not
    negative: no total becomes negative and no total decreases. *)
Lemma merge_game_monotone (sid : string) (c : Pipeline.combined_t) (g : SteamFetch.game) :
  nonneg (SteamFetch.hours_on_record g) ->
  (forall k i, Pipeline.lookup_key k c = Some i -> nonneg (Pipeline.hours i)) ->
  (forall k i', Pipeline.lookup_key k (Pipeline.merge_game sid c g) = Some i' ->
                nonneg (Pipeline.hours i'))
  /\ (forall k i, Pipeline.lookup_key k c = Some i ->
        exists i', Pipeline.lookup_key k (Pipeline.merge_game sid c g) = Some i'
                   /\ Num.leb (Pipeline.hours i) (Pipeline.hours i') = true).
Proof.
  intros Hg Hc.
  assert (Habs : forall e, (forall i, e = Some i -> nonneg (Pipeline.hours i)) ->
    nonneg (Pipeline.hours (absorb sid g e))
    /\ forall i, e = Some i -> Num.leb (Pipeline.hours i) (Pipeline.hours (absorb sid g e)) = true).
  { intros e He. unfold absorb. destruct e as [i|]; cbn [Pipeline.hours Pipeline.name Pipeline.owners].
    - destruct (nonneg_add (Pipeline.hours i) _ (He i eq_refl) (nonneg_float_or_zero _ Hg))
        as [H1 H2].
      split; [exact H1|]. now intros i0 [= <-].
    - split; [|discriminate].
      apply (nonneg_add Num.zero _ nonneg_zero (nonneg_float_or_zero _ Hg)). }
  split.
  - intros k i'. rewrite lookup_merge_game.
    destruct (String.eqb k (SteamFetch.appid g)); [|apply Hc].
    intros [= <-]. apply Habs. intros i. apply Hc.
  - intros k i Hi. rewrite lookup_merge_game.
    destruct (String.eqb_spec k (SteamFetch.appid g)) as [->|Hne].
    + eexists. split; [reflexivity|]. apply Habs; [intros i0; apply Hc | exact Hi].
    + exists i. split; [exact Hi|]. apply leb_refl_nonneg. eapply Hc; eauto.
Qed.

Lemma merge_account_nonneg (sid : string) (games : list SteamFetch.game)
    (c : Pipeline.combined_t) :
  (forall g, In g games -> nonneg (SteamFetch.hours_on_record g)) ->
  (forall k i, Pipeline.lookup_key k c = Some i -> nonneg (Pipeline.hours i)) ->
  forall k i, Pipeline.lookup_key k (Pipeline.merge_account sid c games) = Some i ->
              nonneg (Pipeline.hours i).
Proof.
  unfold Pipeline.merge_account. revert c.
  induction games as [|g games IH]; intros c Hg Hc; simpl; [exact Hc|].
  apply IH.
  - intros g' Hin. apply Hg. now right.
  - apply merge_game_monotone; [apply Hg; now left | exact Hc].
Qed.

Lemma aggregate_nonneg (libs : list (string * list SteamFetch.game)) (c : Pipeline.combined_t) :
  (forall lib g, In lib libs -> In g (snd lib) -> nonneg (SteamFetch.hours_on_record g)) ->
  (forall k i, Pipeline.lookup_key k c = Some i -> nonneg (Pipeline.hours i)) ->
  forall k i,
    Pipeline.lookup_key k
      (fold_left (fun c lib => Pipeline.merge_account (fst lib) c (snd lib)) libs c) = Some i ->
    nonneg (Pipeline.hours i).
Proof.
  revert c. induction libs as [|lib libs IH]; intros c Hg Hc; simpl; [exact Hc|].
  apply IH.
  - intros lib' g Hin. apply Hg. now right.
  - apply merge_account_nonneg; [|exact Hc]. intros g Hin. apply (Hg lib); [now left|exact Hin].
Qed.

Section Stage1.

Variable xml_fromstring : string -> option xml.
Variable json_loads : string -> option json.
Variable py_str : json -> string.
Variable n : network.

Local Abbreviation fetched_by sid := (fetched xml_fromstring json_loads py_str n sid).
Local Abbreviation stage1 entries :=
  (Pipeline.fetch_libraries xml_fromstring json_loads py_str n entries (Pipeline.Libraries [] 0 [])).

(** C5, as the code has it.  A usage value that is missing, blank or
    unparsable counts as 0.0: unparsable is a text that [float] refuses once
    the blanks around it and its commas are gone, as every text does that has
    an ASCII character, not a blank and not a comma, that cannot stand in a
    numeral, and as "-", "1-2" and "abc" do.  A text without a minus sign,
    thousands separators included, parses to hours that are not negative (or
    to nan for the text "nan").  As long as the contributions are not
    negative, each step of the aggregation loop leaves every total not
    negative and not smaller than before, and the totals of the aggregated
    entries are not negative. *)
Theorem usage_hours_not_negative_for_unsigned_sources :
  Utils.parse_hours JNull = Num.zero
  /\ (forall s, Text.strip s = "" -> Utils.parse_hours (JStr s) = Num.zero)
  /\ (forall s, Num.float_of_string (Text.remove_char "," (Text.strip s)) = None ->
                Utils.parse_hours (JStr s) = Num.zero)
  /\ (forall s c, In c (Text.chars s) -> (Text.code c < 128)%nat ->
                  Text.is_space c = false -> c <> ","%char -> numeral_char c = false ->
                  Utils.parse_hours (JStr s) = Num.zero)
  /\ Utils.parse_hours (JStr "-") = Num.zero
  /\ Utils.parse_hours (JStr "1-2") = Num.zero
  /\ Utils.parse_hours (JStr "abc") = Num.zero
  /\ (forall s, (forall c, In c (Text.chars s) -> c <> "-"%char) ->
                Utils.parse_hours (JStr s) = Num.NaN \/ nonneg (Utils.parse_hours (JStr s)))
  /\ (forall sid c g,
        nonneg (SteamFetch.hours_on_record g) ->
        (forall k i, Pipeline.lookup_key k c = Some i -> nonneg (Pipeline.hours i)) ->
        (forall k i', Pipeline.lookup_key k (Pipeline.merge_game sid c g) = Some i' ->
                      nonneg (Pipeline.hours i'))
        /\ (forall k i, Pipeline.lookup_key k c = Some i ->
              exists i', Pipeline.lookup_key k (Pipeline.merge_game sid c g) = Some i'
                         /\ Num.leb (Pipeline.hours i) (Pipeline.hours i') = true))
  /\ (forall entries,
        (forall e g, In e entries -> In g (fetched_by (InputParser.steamid64 e)) ->
                     nonneg (SteamFetch.hours_on_record g)) ->
        exists libs,
          value (stage1 entries) = Ok libs
          /\ forall k i, Pipeline.lookup_key k (Pipeline.combined libs) = Some i ->
                         nonneg (Pipeline.hours i)).
Proof.
  split; [reflexivity|]. split; [exact parse_hours_blank|].
  split; [exact parse_hours_unparsable|].
  split; [intros s c Hc _; now apply parse_hours_foreign_char|].
  split; [reflexivity|]. split; [reflexivity|]. split; [reflexivity|].
  split; [exact parse_hours_unsigned|]. split; [exact merge_game_monotone|].
  intros entries Hg.
  destruct (run_fetch_libraries xml_fromstring json_loads py_str n entries
              (Pipeline.Libraries [] 0 []) []) as (st' & log' & Hr & Hc).
  exists st'. split; [unfold value, run; now rewrite Hr|].
  rewrite Hc. apply aggregate_nonneg.
  - intros lib g Hin Hing. apply in_map_iff in Hin. destruct Hin as (e & <- & He).
    eapply Hg; eauto.
  - intros k i. discriminate.
Qed.

Lemma float_or_zero_fin (q : Q) :
  exists q', Pipeline.float_or_zero (Num.Fin q) = Num.Fin q' /\ (q' == q)%Q.
Proof.
  unfold Pipeline.float_or_zero. simpl. destruct (Qeq_bool q 0) eqn:Hq; simpl.
  - exists 0%Q. split; [reflexivity|]. apply Qeq_bool_iff in Hq. now symmetry.
  - exists q. split; reflexivity.
Qed.

(** C6. When the libraries fetched for the accounts hold an item id exactly
    twice, once for each of two distinct accounts, with usage hours h1 and
    h2, stage 1 completes and the aggregated entry of that id has two owners
    and total usage 0.0 + h1 + h2, which for finite hours is the number
    h1 + h2.  Merging a game for an account that already owns its id leaves
    the owner set as it is. *)
Theorem two_owners_and_summed_hours
    (entries : list InputParser.entry) (appid sid1 sid2 : string) (g1 g2 : SteamFetch.game) :
  sid1 <> sid2 ->
  occurrences appid
    (map (fun e => (InputParser.steamid64 e, fetched_by (InputParser.steamid64 e))) entries)
  = [(sid1, g1); (sid2, g2)] ->
  let h1 := Pipeline.float_or_zero (SteamFetch.hours_on_record g1) in
  let h2 := Pipeline.float_or_zero (SteamFetch.hours_on_record g2) in
  (exists libs i,
     value (stage1 entries) = Ok libs
     /\ Pipeline.lookup_key appid (Pipeline.combined libs) = Some i
     /\ size (Pipeline.owners i) = 2
     /\ Pipeline.hours i = Num.add (Num.add Num.zero h1) h2
     /\ (forall q1 q2,
           SteamFetch.hours_on_record g1 = Num.Fin q1 ->
           SteamFetch.hours_on_record g2 = Num.Fin q2 ->
           exists q, Pipeline.hours i = Num.Fin q /\ (q == q1 + q2)%Q))
  /\ (forall sid c g i,
        Pipeline.lookup_key (SteamFetch.appid g) c = Some i ->
        sid ∈ Pipeline.owners i ->
        exists i', Pipeline.lookup_key (SteamFetch.appid g) (Pipeline.merge_game sid c g) = Some i'
                   /\ Pipeline.owners i' = Pipeline.owners i).
Proof.
  intros Hne Hocc h1 h2. split.
  - destruct (run_fetch_libraries xml_fromstring json_loads py_str n entries
                (Pipeline.Libraries [] 0 []) []) as (st' & log' & Hr & Hc).
    exists st'. eexists. split; [unfold value, run; now rewrite Hr|].
    split; [rewrite Hc, lookup_aggregate, Hocc; reflexivity|].
    unfold absorb.
    cbn [fst snd Pipeline.name Pipeline.owners Pipeline.hours Pipeline.combined
         Pipeline.lookup_key].
    split; [|split; [reflexivity|]].
    + rewrite (right_id_L ∅ (∪)). rewrite size_union by set_solver.
      rewrite !size_singleton. reflexivity.
    + intros q1 q2 H1 H2. subst h1 h2. rewrite H1, H2.
      destruct (float_or_zero_fin q1) as (q1' & -> & E1).
      destruct (float_or_zero_fin q2) as (q2' & -> & E2).
      simpl. eexists. split; [reflexivity|].
      rewrite !Qred_correct, E1, E2. ring.
  - intros sid c g i Hi Hin. rewrite lookup_merge_game, String.eqb_refl, Hi.
    eexists. split; [reflexivity|]. unfold absorb. cbn [Pipeline.owners].
    apply subseteq_union_1_L. set_solver.
Qed.

End Stage1.

(** ** Identity resolution *)

Section Identity.

Variable urlparse : string -> result InputParser.parsed_url.
Variable xml_fromstring : string -> option xml.
Variable n : network.

Lemma run_vanity (ident : string) (log : list request) :
  try_except (InputParser.resolve_vanity xml_fromstring n ident) (fun _ => ret None) log
  = (Ok (lookup_outcome xml_fromstring n ident),
     log ++ [Request None (InputParser.vanity_url ident)]).
Proof.
  unfold lookup_outcome, try_except, InputParser.resolve_vanity, bind, Utils.session_get,
    Utils.raise_for_status, InputParser.parse_xml, ret, raise.
  destruct (n (InputParser.vanity_url ident)) as [r|]; cbn; [|reflexivity].
  destruct (_ && _); cbn; [reflexivity|].
  destruct (xml_fromstring (body r)); reflexivity.
Qed.

(** C4, as the code has it.  Identity resolution makes at most one request:
    the lookup of the path segment, made exactly when the input is not all
    digits and parses as a URL with a scheme, a steamcommunity.com host and a
    path that starts with /id/<segment>, whether or not the segment is
    numeric.  It returns absent, and raises nothing, when the path has
    neither recognized shape, and in the lookup case when the request fails,
    the response is an error or does not parse, or it has no steamID64
    element. *)
Theorem vanity_lookup_is_the_only_request (val : string) :
  let m := InputParser.normalize_to_steamid64 urlparse xml_fromstring n val in
  map url (requests m)
  = match vanity_segment urlparse val with
    | Some ident => [InputParser.vanity_url ident]
    | None => []
    end
  /\ (forall u,
        Text.isdigit (Text.strip val) = false ->
        urlparse (Text.strip val) = Ok u ->
        Regex.match_at InputParser.profile_path_re (Regex.start (InputParser.path u)) = None ->
        value m = Ok None)
  /\ (forall ident,
        vanity_segment urlparse val = Some ident ->
        value m = Ok (lookup_outcome xml_fromstring n ident)
        /\ (n (InputParser.vanity_url ident) = None -> value m = Ok None)
        /\ (forall r root,
              n (InputParser.vanity_url ident) = Some r ->
              xml_fromstring (body r) = Some root ->
              InputParser.findtext_descendant "steamID64" root = None ->
              value m = Ok None)).
Proof.
  intros m. subst m.
  unfold vanity_segment, InputParser.normalize_to_steamid64, value, requests, run.
  destruct (Text.isdigit (Text.strip val)) eqn:Hd.
  { split; [reflexivity|]. split; [intros; discriminate|intros; discriminate]. }
  unfold bind, lift. destruct (urlparse (Text.strip val)) as [u|e] eqn:Hu.
  2:{ split; [reflexivity|]. split; [intros; discriminate|intros; discriminate]. }
  destruct (negb (String.eqb (InputParser.scheme u) "")
            && Text.contains "steamcommunity.com" (InputParser.netloc u)).
  2:{ split; [reflexivity|]. split; [reflexivity|intros; discriminate]. }
  destruct (Regex.match_at InputParser.profile_path_re (Regex.start (InputParser.path u)))
    as [f|] eqn:Hm.
  2:{ split; [reflexivity|]. split; [reflexivity|intros; discriminate]. }
  destruct (String.eqb (Regex.group_or_empty 1 f) "profiles").
  { split; [reflexivity|]. split; [|intros; discriminate].
    intros u' _ [= <-]. rewrite Hm. discriminate. }
  rewrite run_vanity. cbn [fst snd app map url].
  split; [reflexivity|]. split.
  - intros u' _ [= <-]. rewrite Hm. discriminate.
  - intros ident [= <-]. split; [reflexivity|]. unfold lookup_outcome. split.
    + intros ->. reflexivity.
    + intros r root -> -> ->. destruct (_ && _); reflexivity.
Qed.

End Identity.

Lemma vanity_lookup_is_the_only_request_witness :
  value (InputParser.normalize_to_steamid64 Demo.urlparse Demo.xml_fromstring Demo.upstream
           "https://steamcommunity.com/id/alice")
  = Ok None.
Proof.
  destruct (vanity_lookup_is_the_only_request Demo.urlparse Demo.xml_fromstring Demo.upstream
              "https://steamcommunity.com/id/alice") as (_ & _ & H).
  destruct (H "alice") as (_ & Hfail & _); [vm_compute; reflexivity|].
  apply Hfail. vm_compute. reflexivity.
Defined.

(** C4 as stated fails: the lookup request does not go through the host
    throttle, and it is also made for a numeric segment under /id/. *)
Lemma vanity_lookup_counterexample :
  requests (InputParser.normalize_to_steamid64 Demo.urlparse Demo.xml_fromstring Demo.upstream
              "https://steamcommunity.com/id/bob")
  = [Request None (InputParser.vanity_url "bob")]
  /\ requests (InputParser.normalize_to_steamid64 Demo.urlparse Demo.xml_fromstring
                 Demo.upstream "https://steamcommunity.com/id/12345")
     = [Request None (InputParser.vanity_url "12345")]
  /\ Text.isdigit "12345" = true.
Proof. repeat split; vm_compute; reflexivity. Qed.

(** ** The pipeline *)

Lemma catchable_lowered_strings (l : list json) : catchable (Enrich.lowered_strings l).
Proof.
  induction l as [|x t IH]; simpl; [exact I|].
  destruct x; try reflexivity.
  destruct (Enrich.lowered_strings t); [exact I | exact IH].
Qed.

Lemma catchable_has_patchnotes_tag (v : json) : catchable (Enrich.has_patchnotes_tag v).
Proof.
  destruct v; simpl; try reflexivity.
  pose proof (catchable_lowered_strings l) as H.
  destruct (Enrich.lowered_strings l); [exact I | exact H].
Qed.

Lemma catchable_keywords_in (v : json) : catchable (Enrich.keywords_in v).
Proof. destruct v; reflexivity. Qed.

Lemma catchable_scan_news (items : list json) (b f : option Z) :
  catchable (Enrich.scan_news items b f).
Proof.
  revert b f. induction items as [|it more IH]; intros b f; simpl; [exact I|].
  destruct (Json.get it "date"); [|reflexivity].
  destruct (Json.get it "title"); [|reflexivity].
  destruct (Json.get it "contents"); [|reflexivity].
  destruct (Json.get it "tags"); [|reflexivity].
  pose proof (catchable_to_int (Json.or_else a (JInt 0))) as Hi.
  destruct (Json.to_int (Json.or_else a (JInt 0))) as [ts|e]; [|exact Hi].
  destruct (0 <? ts)%Z; [|apply IH].
  pose proof (catchable_keywords_in (Json.or_else a0 (JStr ""))) as H1.
  destruct (Enrich.keywords_in (Json.or_else a0 (JStr ""))) as [[|]|e]; [apply IH| |exact H1].
  pose proof (catchable_keywords_in (Json.or_else a1 (JStr ""))) as H2.
  destruct (Enrich.keywords_in (Json.or_else a1 (JStr ""))) as [[|]|e]; [apply IH| |exact H2].
  pose proof (catchable_has_patchnotes_tag (Json.or_else a2 (JList []))) as H3.
  destruct (Enrich.has_patchnotes_tag (Json.or_else a2 (JList []))) as [b0|e];
    [apply IH | exact H3].
Qed.

Lemma catchable_year_of_timestamp (ts : Z) : catchable (Enrich.year_of_timestamp ts).
Proof. unfold Enrich.year_of_timestamp. destruct (_ <=? _)%Z; reflexivity. Qed.

Section PipelineLemmas.

Variable urlparse : string -> result InputParser.parsed_url.
Variable xml_fromstring : string -> option xml.
Variable json_loads : string -> option json.
Variable py_str : json -> string.
Variable n : network.
Variable out_name : string.

Lemma safe_fetch_app_meta (appid : string) (nsf ca : bool) :
  safe (Enrich.fetch_app_meta json_loads n appid nsf ca).
Proof.
  intros log0. unfold Enrich.fetch_app_meta, Enrich.fetch_app_meta_body.
  unfold bind at 1. rewrite (swallow_ok _ _ (safe_appdetails_step json_loads n appid)).
  cbn [fst snd]. unfold bind at 1, get_state at 1. cbn [fst snd].
  destruct (Enrich.needs_store_page _ nsf ca).
  - unfold bind at 1. rewrite (swallow_ok _ _ (safe_store_page_step n appid nsf)). exact I.
  - exact I.
Qed.

Lemma safe_fetch_review_summary (appid : string) (dr : Z) :
  safe (Enrich.fetch_review_summary json_loads n appid dr).
Proof.
  unfold Enrich.fetch_review_summary, Enrich.attempt, Enrich.review_query,
    Enrich.response_json, Utils.http_get_store.
  pose proof catchable_summary_of. safe_tac.
Qed.

Lemma safe_fetch_last_update_year (appid : string) :
  safe (Enrich.fetch_last_update_year json_loads n appid).
Proof.
  unfold Enrich.fetch_last_update_year, Enrich.last_update_query, Enrich.response_json,
    Utils.http_get_api.
  pose proof catchable_scan_news. pose proof catchable_year_of_timestamp. safe_tac.
Qed.

Lemma fetch_metas_returns (appids : list string) (nsf : bool) (log : list request) :
  exists metas log', Pipeline.fetch_metas json_loads n appids nsf log = (Ok metas, log').
Proof.
  revert log. induction appids as [|a appids IH]; intros log; simpl.
  - eexists _, _. reflexivity.
  - unfold bind at 1.
    destruct (try_except_returns _ Pipeline.empty_meta log (safe_fetch_app_meta a nsf true))
      as (m & l1 & ->).
    unfold bind at 1. destruct (IH l1) as (metas & l2 & ->).
    eexists _, _. reflexivity.
Qed.

Lemma safe_enrich_one (cfg : Pipeline.Config) (appid : string) :
  safe (Pipeline.enrich_one json_loads n cfg appid).
Proof.
  unfold Pipeline.enrich_one.
  pose proof safe_fetch_review_summary. pose proof safe_fetch_last_update_year. safe_tac.
Qed.

Lemma enrich_all_returns (cfg : Pipeline.Config) (targets : list string) (log : list request) :
  exists enriched log', Pipeline.enrich_all json_loads n cfg targets log = (Ok enriched, log').
Proof.
  revert log. induction targets as [|a targets IH]; intros log; simpl.
  - eexists _, _. reflexivity.
  - unfold bind at 1.
    destruct (try_except_returns _ (Pipeline.no_reviews, None) log (safe_enrich_one cfg a))
      as (m & l1 & ->).
    unfold bind at 1. destruct (IH l1) as (rest & l2 & ->).
    eexists _, _. reflexivity.
Qed.

End PipelineLemmas.

Lemma lookup_key_of_keys {V} (k : string) (d : list (string * V)) :
  In k (map fst d) -> Pipeline.lookup_key k d <> None.
Proof.
  induction d as [|[k0 v] d IH]; simpl; [tauto|].
  intros [<-|Hin]; [now rewrite String.eqb_refl|].
  destruct (String.eqb k k0); [discriminate | auto].
Qed.

(** The loop that builds the rows never binds [excluded_delisted]: it
    raises at the first delisted item, and otherwise ends with the variable
    still unbound. *)
Lemma build_rows_leaves_unbound (cfg : Pipeline.Config) (combined : Pipeline.combined_t)
    (metas : list (string * Enrich.Meta.t)) (enrichments : list (string * Enrich.review))
    (years : list (string * option Z)) (targets : list string) (rows : list Pipeline.row) :
  (forall a, In a targets -> Pipeline.lookup_key a combined <> None) ->
  Pipeline.build_rows cfg combined metas enrichments years targets rows None
  = Raise (UnboundLocalError "excluded_delisted")
  \/ exists rows',
       Pipeline.build_rows cfg combined metas enrichments years targets rows None
       = Ok (rows', None).
Proof.
  revert rows. induction targets as [|a targets IH]; intros rows Hk; simpl.
  - right. eexists. reflexivity.
  - destruct (Pipeline.is_true _); [now left|].
    destruct (Pipeline.lookup_key a combined) as [i|] eqn:Hl.
    + apply IH. intros a' Hin. apply Hk. now right.
    + exfalso. apply (Hk a); [now left | exact Hl].
Qed.

Section PipelineRun.

Variable urlparse : string -> result InputParser.parsed_url.
Variable xml_fromstring : string -> option xml.
Variable json_loads : string -> option json.
Variable py_str : json -> string.
Variable n : network.
Variable out_name : string.

Local Abbreviation pipeline cfg :=
  (Pipeline.run_pipeline urlparse xml_fromstring json_loads py_str n out_name cfg).

(** C1 fails on the code.  No run of [run_pipeline] returns a Results value.
    In the runs the claim is about, where at least one account line is valid
    and at least one item is aggregated, the function raises
    UnboundLocalError for [excluded_delisted], a variable it reads without
    ever having assigned it. *)
Theorem run_pipeline_never_returns (cfg : Pipeline.Config) :
  (forall r, value (pipeline cfg) <> Ok r)
  /\ (forall entries,
        value (InputParser.parse_ids_file urlparse xml_fromstring n (Pipeline.ids_file cfg))
        = Ok entries ->
        entries <> [] ->
        fold_left (fun c lib => Pipeline.merge_account (fst lib) c (snd lib))
          (map (fun e => (InputParser.steamid64 e,
                          fetched xml_fromstring json_loads py_str n (InputParser.steamid64 e)))
               entries) [] <> [] ->
        value (pipeline cfg) = Raise (UnboundLocalError "excluded_delisted")).
Proof.
  assert (Main : forall entries log1,
    InputParser.parse_ids_file urlparse xml_fromstring n (Pipeline.ids_file cfg) []
    = (Ok entries, log1) ->
    value (pipeline cfg) = Raise (SystemExit Pipeline.no_valid_lines) /\ entries = []
    \/ value (pipeline cfg) = Raise (SystemExit Pipeline.no_games_found)
       /\ fold_left (fun c lib => Pipeline.merge_account (fst lib) c (snd lib))
            (map (fun e => (InputParser.steamid64 e,
                            fetched xml_fromstring json_loads py_str n (InputParser.steamid64 e)))
                 entries) [] = []
    \/ value (pipeline cfg) = Raise (UnboundLocalError "excluded_delisted")).
  { intros entries log1 Hp.
    remember (value (pipeline cfg)) as v eqn:Hv.
    unfold value, run, Pipeline.run_pipeline in Hv.
    unfold bind at 1 in Hv. rewrite Hp in Hv.
    destruct entries as [|e0 es]; [left; split; [exact Hv | reflexivity]|]. right.
    unfold bind at 1 in Hv.
    destruct (run_fetch_libraries xml_fromstring json_loads py_str n (e0 :: es)
                (Pipeline.Libraries [] 0 []) log1) as (st' & log2 & Hr & Hc).
    rewrite Hr in Hv. cbn [Pipeline.combined] in Hc. rewrite <- Hc.
    destruct (Pipeline.combined st') as [|kv c'] eqn:Hcomb;
      [left; split; [exact Hv | reflexivity]|]. right.
    unfold bind at 1 in Hv.
    destruct (fetch_metas_returns json_loads n (map fst (kv :: c'))
                (Pipeline.include_release_size cfg) log2) as (metas & log3 & Hm).
    rewrite Hm in Hv. unfold bind at 1 in Hv.
    destruct (enrich_all_returns json_loads n cfg (map fst (kv :: c')) log3)
      as (enriched & log4 & He).
    rewrite He in Hv. unfold bind at 1, lift at 1 in Hv.
    destruct (build_rows_leaves_unbound cfg (kv :: c') metas (fst enriched) (snd enriched)
                (map fst (kv :: c')) []) as [Hb|(rows' & Hb)].
    - intros a. apply lookup_key_of_keys.
    - rewrite Hb in Hv. exact Hv.
    - rewrite Hb in Hv. exact Hv. }
  split.
  - intros r.
    destruct (InputParser.parse_ids_file urlparse xml_fromstring n (Pipeline.ids_file cfg) [])
      as [[entries|e] log1] eqn:Hp.
    + destruct (Main entries log1 eq_refl) as [[-> _]|[[-> _]| ->]]; discriminate.
    + unfold value, run, Pipeline.run_pipeline. unfold bind at 1. rewrite Hp. discriminate.
  - intros entries Hv Hne Hcomb.
    unfold value, run in Hv.
    destruct (InputParser.parse_ids_file urlparse xml_fromstring n (Pipeline.ids_file cfg) [])
      as [r log1] eqn:Hp. cbn [fst] in Hv. subst r.
    destruct (Main entries log1 eq_refl) as [[_ H]|[[_ H]| H]]; [contradiction|contradiction|exact H].
Qed.

End PipelineRun.

Lemma run_pipeline_never_returns_witness :
  value (Pipeline.run_pipeline Demo.urlparse Demo.xml_fromstring Demo.json_loads Demo.py_str
           Demo.upstream "out.csv" Demo.cfg)
  = Raise (UnboundLocalError "excluded_delisted").
Proof.
  apply (proj2 (run_pipeline_never_returns Demo.urlparse Demo.xml_fromstring Demo.json_loads
                  Demo.py_str Demo.upstream "out.csv" Demo.cfg)
           [InputParser.Entry "Alice" Demo.alice; InputParser.Entry "Bob" Demo.bob]).
  - vm_compute. reflexivity.
  - discriminate.
  - vm_compute. discriminate.
Defined.

(** ** Closed instances on the example upstream *)

Lemma first_writer_wins_witness :
  exists m,
    value (Enrich.fetch_app_meta Demo.json_loads Demo.upstream "570" true true) = Ok m
    /\ Enrich._type_from_html Demo.store_html = Some "dlc"
    /\ Enrich.Meta.app_type m = Some "game"
    /\ Enrich.Meta.release_year m = Some 2013%Z
    /\ Enrich.Meta.approx_install_size_gb m = Some 10%Q.
Proof.
  destruct (first_writer_wins Demo.json_loads Demo.upstream "570" true true)
    as [_ (m & Hm & Hk & Hy & Hv & _)].
  exists m. split; [exact Hm|]. split; [vm_compute; reflexivity|].
  split; [apply Hk; vm_compute; reflexivity|].
  split; [apply Hy; vm_compute; reflexivity|].
  destruct (Hv 10%Q) as [_ Hs]; [vm_compute; reflexivity|]. exact Hs.
Defined.

Lemma zero_size_and_empty_kind_are_absent_witness :
  exists m,
    value (Enrich.fetch_app_meta Demo.json_loads Demo.upstream "10" true true) = Ok m
    /\ Enrich.size_gb (at_return Demo.json_loads Demo.upstream "10" true true) = Some 0%Q
    /\ Enrich.Meta.approx_install_size_gb m = None
    /\ Enrich.app_type (after_appdetails Demo.json_loads Demo.upstream "10") = None.
Proof.
  destruct (zero_size_and_empty_kind_are_absent Demo.json_loads Demo.upstream "10" true true)
    as (m & Hm & Hz & _ & Hk & _).
  exists m. split; [exact Hm|]. split; [vm_compute; reflexivity|].
  split.
  - apply (Hz 0%Q); [vm_compute; reflexivity | reflexivity].
  - apply (Hk Demo.details_10); vm_compute; reflexivity.
Defined.

Lemma install_size_prefers_minimum_block_witness :
  Enrich.size_gb (after_appdetails Demo.json_loads Demo.upstream "570") = Some 10%Q.
Proof.
  destruct (install_size_prefers_minimum_block Demo.json_loads Demo.upstream "570"
              Demo.details_570 Demo.requirements_570 Demo.min_block Demo.rec_block)
    as [H _]; [vm_compute; reflexivity .. |].
  rewrite H. vm_compute. reflexivity.
Defined.

(** C3 as stated fails: with a minimum block of 10 GB and a recommended
    block of 20 GB, the size reported is 10, not the larger 20. *)
Lemma install_size_larger_block_counterexample :
  Enrich.parse_storage_requirement_gb_from_html Demo.min_block = Some 10%Q
  /\ Enrich.parse_storage_requirement_gb_from_html Demo.rec_block = Some 20%Q
  /\ value (Enrich.fetch_app_meta Demo.json_loads Demo.upstream "570" true true)
     = Ok (Enrich.Meta.Make (Some "game") (Some 2013%Z) (Some 10%Q) (Some false))
  /\ Some 10%Q <> Enrich.py_max [10%Q; 20%Q].
Proof. repeat split; vm_compute; try reflexivity. discriminate. Qed.

Lemma review_resolution_chain_witness :
  value (Enrich.fetch_review_summary Demo.json_loads Demo.upstream "570" 30)
  = Ok (Enrich.Review (JStr "Very Positive") (Some (F64.of_decimal 6667 2)))
  /\ exists pos total ratio,
       (0 < total)%Z /\ F64.truediv pos total = Ok ratio
       /\ F64.of_decimal 6667 2 = F64.round2 (F64.mul ratio (F64.of_Z 100)).
Proof.
  destruct (review_resolution_chain Demo.json_loads Demo.upstream "570" 30) as (H1 & _ & H3).
  vm_compute in H1. destruct H1 as [_ H1]. split; [exact H1|].
  destruct (H3 _ (F64.of_decimal 6667 2) H1 eq_refl)
    as (u & resp & j & q & pos & total & _ & _ & _ & _ & _ & _ & Ht & ratio & Hr & Hp).
  now exists pos, total, ratio.
Defined.

Lemma usage_hours_not_negative_for_unsigned_sources_witness :
  nonneg (Utils.parse_hours (JStr "1,234.5"))
  /\ exists libs,
       value (Pipeline.fetch_libraries Demo.xml_fromstring Demo.json_loads Demo.py_str
                Demo.upstream Demo.family (Pipeline.Libraries [] 0 [])) = Ok libs
       /\ forall k i, Pipeline.lookup_key k (Pipeline.combined libs) = Some i ->
                      nonneg (Pipeline.hours i).
Proof.
  destruct (usage_hours_not_negative_for_unsigned_sources Demo.xml_fromstring Demo.json_loads
              Demo.py_str Demo.upstream) as (_ & _ & _ & _ & _ & _ & _ & H3 & _ & H5).
  split.
  - destruct (H3 "1,234.5") as [H|H]; [|discriminate H|exact H].
    intros c Hc. simpl in Hc.
    repeat (destruct Hc as [<-|Hc]; [discriminate|]). destruct Hc.
  - apply H5. intros e g He Hg.
    destruct He as [<-|[<-|[]]]; vm_compute in Hg;
      repeat (destruct Hg as [<-|Hg]; [reflexivity|]); destruct Hg.
Defined.

(** C5 as stated fails: a usage value with a minus sign parses to negative
    hours, and the total of the entry it is merged into is negative. *)
Lemma negative_usage_hours_counterexample :
  Utils.parse_hours (JStr "-3.5") = Num.Fin (-7 # 2)
  /\ Num.leb Num.zero (Utils.parse_hours (JStr "-3.5")) = false
  /\ SteamFetch.games_of_root Demo.negative_feed
     = [SteamFetch.Game "1" (JStr "Foo") (Num.Fin (-7 # 2))]
  /\ option_map Pipeline.hours
       (Pipeline.lookup_key "1"
          (Pipeline.merge_account Demo.alice [] (SteamFetch.games_of_root Demo.negative_feed)))
     = Some (Num.Fin (-7 # 2)).
Proof. repeat split; vm_compute; reflexivity. Qed.

Lemma two_owners_and_summed_hours_witness :
  exists libs i,
    value (Pipeline.fetch_libraries Demo.xml_fromstring Demo.json_loads Demo.py_str
             Demo.upstream Demo.family (Pipeline.Libraries [] 0 [])) = Ok libs
    /\ Pipeline.lookup_key "1" (Pipeline.combined libs) = Some i
    /\ size (Pipeline.owners i) = 2
    /\ Pipeline.hours i = Num.Fin 5.
Proof.
  destruct (two_owners_and_summed_hours Demo.xml_fromstring Demo.json_loads Demo.py_str
              Demo.upstream Demo.family "1" Demo.alice Demo.bob
              (SteamFetch.Game "1" (JStr "Foo") (Num.Fin 3))
              (SteamFetch.Game "1" (JStr "Foo") (Num.Fin 2)))
    as [(libs & i & Hv & Hl & Hs & Hh & _) _].
  - intros H. discriminate H.
  - vm_compute. reflexivity.
  - exists libs, i. split; [exact Hv|]. split; [exact Hl|]. split; [exact Hs|].
    rewrite Hh. vm_compute. reflexivity.
Defined.

(** * Part III: further properties *)

Unset Default Proof Using.

(** ** What a computation adds to the log and leaves in the state *)

Section EmitsLemmas.

Context {S A B : Type}.
Variable get : S -> list request.
Variable P : request -> Prop.

Lemma emits_nothing (m : prog S A) : (forall s, get (snd (m s)) = get s) -> emits get P m.
Proof. intros H s. exists []. rewrite app_nil_r. split; [apply H | constructor]. Qed.

Lemma emits_ret (a : A) : emits get P (@ret S A a).
Proof. now apply emits_nothing. Qed.

Lemma emits_raise (e : exn) : emits get P (@raise S A e).
Proof. now apply emits_nothing. Qed.

Lemma emits_lift (r : result A) : emits get P (@lift S A r).
Proof. now apply emits_nothing. Qed.

Lemma emits_bind (m : prog S A) (f : A -> prog S B) :
  emits get P m -> (forall a, emits get P (f a)) -> emits get P (bind m f).
Proof.
  intros Hm Hf s. unfold bind. destruct (Hm s) as (n1 & H1 & F1).
  destruct (m s) as [[a|e] s1]; cbn in *.
  - destruct (Hf a s1) as (n2 & H2 & F2). exists (n1 ++ n2).
    rewrite H2, H1, app_assoc. split; [reflexivity | now apply Forall_app].
  - now exists n1.
Qed.

Lemma emits_try_except (m : prog S A) (h : exn -> prog S A) :
  emits get P m -> (forall e, emits get P (h e)) -> emits get P (try_except m h).
Proof.
  intros Hm Hh s. unfold try_except. destruct (Hm s) as (n1 & H1 & F1).
  destruct (m s) as [[a|e] s1]; cbn in *; [now exists n1|].
  destruct (is_Exception e); [|now exists n1].
  destruct (Hh e s1) as (n2 & H2 & F2). exists (n1 ++ n2).
  rewrite H2, H1, app_assoc. split; [reflexivity | now apply Forall_app].
Qed.

End EmitsLemmas.

Lemma emits_get_state {S} (get : S -> list request) (P : request -> Prop) :
  emits get P (@get_state S).
Proof. now apply emits_nothing. Qed.

Lemma emits_modify {S} (get : S -> list request) (P : request -> Prop) (f : S -> S) :
  (forall s, get (f s) = get s) -> emits get P (modify f).
Proof. intros H. apply emits_nothing. exact H. Qed.

Lemma emits_zoom {S A} (get : S -> list request) (set : list request -> S -> S)
    (P : request -> Prop) (m : io A) :
  (forall l s, get (set l s) = l) -> emits id P m -> emits get P (zoom get set m).
Proof.
  intros Hgs Hm s. unfold zoom. destruct (Hm (get s)) as (new & H & F).
  destruct (m (get s)) as [r l]. cbn in *. exists new. now rewrite Hgs.
Qed.

Lemma emits_session_get (P : request -> Prop) (n : network) (via : option host) (u : string) :
  P (Request via u) -> emits id P (Utils.session_get n via u).
Proof.
  intros H log. exists [Request via u]. split; [reflexivity|]. now constructor.
Qed.

Lemma emits_raise_for_status (P : request -> Prop) (r : response) :
  emits id P (Utils.raise_for_status r).
Proof. apply emits_nothing. intros s. unfold Utils.raise_for_status. now destruct (_ && _). Qed.

Lemma emits_requests {A} (P : request -> Prop) (m : io A) :
  emits id P m -> Forall P (requests m).
Proof. intros H. destruct (H []) as (new & Hn & F). unfold requests, run. cbn in Hn. now rewrite Hn. Qed.

Lemma emits_weaken {S A} (get : S -> list request) (P Q : request -> Prop) (m : prog S A) :
  (forall r, P r -> Q r) -> emits get P m -> emits get Q m.
Proof.
  intros HPQ Hm s. destruct (Hm s) as (new & H & F). exists new. split; [exact H|].
  eapply Forall_impl; eauto.
Qed.

Create HintDb emits.
#[export] Hint Resolve emits_ret emits_raise emits_lift emits_get_state
  emits_raise_for_status : emits.

Ltac emits_step :=
  match goal with
  | |- forall _, _ => intro
  | |- emits _ _ (bind _ _) => apply emits_bind
  | |- emits _ _ (try_except _ _) => apply emits_try_except
  | |- emits _ _ (zoom _ _ _) => apply emits_zoom; [reflexivity|]
  | |- emits _ _ (Enrich.net _) => apply emits_zoom; [reflexivity|]
  | |- emits _ _ (modify _) => apply emits_modify; reflexivity
  | |- emits _ _ (Utils.session_get _ _ _) => apply emits_session_get; reflexivity
  | |- emits _ _ (match ?x with _ => _ end) => destruct x
  | |- emits _ _ (if ?b then _ else _) => destruct b
  | |- emits _ _ (let '(_, _) := ?x in _) => destruct x
  | |- emits _ _ _ => solve [auto with emits]
  end.

Ltac emits_tac := repeat emits_step.

Lemma quiet_log {S A} (get : S -> list request) (m : prog S A) (s : S) :
  quiet get m -> get (snd (m s)) = get s.
Proof.
  intros H. destruct (H s) as (new & Hn & F). destruct new as [|r new].
  - now rewrite app_nil_r in Hn.
  - inversion F; contradiction.
Qed.

Section FixesLemmas.

Context {S A B X : Type}.
Variable get : S -> X.

Lemma fixes_ret (a : A) : fixes get (@ret S A a).
Proof. now intros s. Qed.

Lemma fixes_raise (e : exn) : fixes get (@raise S A e).
Proof. now intros s. Qed.

Lemma fixes_lift (r : result A) : fixes get (@lift S A r).
Proof. now intros s. Qed.

Lemma fixes_bind (m : prog S A) (f : A -> prog S B) :
  fixes get m -> (forall a, fixes get (f a)) -> fixes get (bind m f).
Proof.
  intros Hm Hf s. unfold bind. specialize (Hm s).
  destruct (m s) as [[a|e] s1]; cbn in *; [|exact Hm]. now rewrite Hf.
Qed.

Lemma fixes_try_except (m : prog S A) (h : exn -> prog S A) :
  fixes get m -> (forall e, fixes get (h e)) -> fixes get (try_except m h).
Proof.
  intros Hm Hh s. unfold try_except. specialize (Hm s).
  destruct (m s) as [[a|e] s1]; cbn in *; [exact Hm|].
  destruct (is_Exception e); [|exact Hm]. now rewrite Hh.
Qed.

End FixesLemmas.

Lemma fixes_get_state {S X} (get : S -> X) : fixes get (@get_state S).
Proof. now intros s. Qed.

Lemma fixes_modify {S X} (get : S -> X) (f : S -> S) :
  (forall s, get (f s) = get s) -> fixes get (modify f).
Proof. intros H s. apply H. Qed.

Lemma fixes_zoom {S A X} (get : S -> X) (lg : S -> list request)
    (set : list request -> S -> S) (m : io A) :
  (forall l s, get (set l s) = get s) -> fixes get (zoom lg set m).
Proof. intros H s. unfold zoom. destruct (m (lg s)) as [r l]. apply H. Qed.

Create HintDb fixes.
#[export] Hint Resolve fixes_ret fixes_raise fixes_lift fixes_get_state : fixes.

Ltac fixes_step :=
  match goal with
  | |- forall _, _ => intro
  | |- fixes _ (bind _ _) => apply fixes_bind
  | |- fixes _ (try_except _ _) => apply fixes_try_except
  | |- fixes _ (zoom _ _ _) => apply fixes_zoom; reflexivity
  | |- fixes _ (Enrich.net _) => apply fixes_zoom; reflexivity
  | |- fixes _ (modify _) => apply fixes_modify; reflexivity
  | |- fixes _ (match ?x with _ => _ end) => destruct x
  | |- fixes _ (if ?b then _ else _) => destruct b
  | |- fixes _ _ => solve [auto with fixes]
  end.

Ltac fixes_tac := repeat fixes_step.

(** ** The host throttle *)

Lemma Qltb_spec (a b : Q) : reflect (a < b)%Q (Num.Qltb a b).
Proof.
  unfold Num.Qltb. destruct (Qle_bool b a) eqn:H; constructor.
  - apply Qle_bool_iff in H. now apply Qle_not_lt.
  - apply Qnot_le_lt. intros Hle. apply Qle_bool_iff in Hle. congruence.
Qed.

(** X2. With a jitter that is not negative, a wait never sleeps a negative
    time, and the release time it records for the bucket is never before the
    second clock reading.  A caller that comes when the bucket's delay since
    the release time recorded before has passed does not sleep, and the
    release time recorded for it is the second clock reading. *)
Theorem no_wait_for_late_callers (kind : string) (now rnd now2 : Q) (th : Throttle.t) :
  (0 <= rnd)%Q -> (0 <= Throttle.jitter_ms th)%Z ->
  let before := Throttle.get_or_zero (Throttle.last th) kind in
  let delay := Throttle.get_or_zero (Throttle.min_delay th) kind in
  let th' := fst (Throttle.wait kind now rnd now2 th) in
  let sleep_for := snd (Throttle.wait kind now rnd now2 th) in
  (0 <= sleep_for)%Q
  /\ exists release,
       Throttle.last th' !! kind = Some release
       /\ (now2 <= release)%Q
       /\ ((before + delay <= now)%Q -> (sleep_for == 0)%Q /\ (release == now2)%Q).
Proof.
  intros Hrnd Hj before delay th' sleep_for.
  subst th' sleep_for. unfold Throttle.wait. cbn [fst snd Throttle.last].
  fold before. fold delay.
  set (need := (delay - (now - before))%Q).
  set (jit := Throttle.uniform 0 (inject_Z (Throttle.jitter_ms th) / 1000) rnd).
  assert (HJ : (0 <= inject_Z (Throttle.jitter_ms th) / 1000)%Q).
  { apply Qle_shift_div_l; [reflexivity|]. rewrite Qmult_0_l.
    change 0%Q with (inject_Z 0). now rewrite <- Zle_Qle. }
  assert (Hjit : (0 <= jit)%Q).
  { unfold jit, Throttle.uniform. nra. }
  destruct (Qltb_spec 0 need) as [Hneed|Hneed].
  - assert (Hs : (0 < need + jit)%Q).
    { apply Qlt_le_trans with (1 := Hneed). rewrite <- (Qplus_0_r need) at 1.
      now apply Qplus_le_r. }
    destruct (Qltb_spec 0 (need + jit)) as [_|Hc]; [|contradiction].
    split; [now apply Qlt_le_weak|].
    eexists. split; [apply lookup_insert_eq|]. split; [lra|].
    intros Hb. exfalso. unfold need in Hneed. lra.
  - destruct (Qltb_spec 0 0) as [Hc|_]; [now apply Qlt_irrefl in Hc|].
    split; [apply Qle_refl|].
    eexists. split; [apply lookup_insert_eq|]. split; [lra|].
    intros _. split; [reflexivity | lra].
Qed.

(** X3. A wait on one bucket leaves the release times of the other buckets,
    the delays and the jitter as they are; [configure] sets the three delays
    and the jitter that later waits read, and leaves the release times. *)
Theorem buckets_are_independent (kind other : string) (now rnd now2 : Q) (th : Throttle.t)
    (store community api : Q) (jitter : Z) :
  other <> kind ->
  let th' := fst (Throttle.wait kind now rnd now2 th) in
  let cf := Throttle.configure store community api jitter th in
  Throttle.last th' !! other = Throttle.last th !! other
  /\ Throttle.min_delay th' = Throttle.min_delay th
  /\ Throttle.jitter_ms th' = Throttle.jitter_ms th
  /\ Throttle.get_or_zero (Throttle.min_delay cf) "store" = store
  /\ Throttle.get_or_zero (Throttle.min_delay cf) "community" = community
  /\ Throttle.get_or_zero (Throttle.min_delay cf) "api" = api
  /\ Throttle.jitter_ms cf = jitter
  /\ Throttle.last cf = Throttle.last th.
Proof.
  intros Hne th' cf. subst th' cf. unfold Throttle.wait, Throttle.configure, Throttle.get_or_zero.
  cbn [fst Throttle.last Throttle.min_delay Throttle.jitter_ms].
  split; [now apply lookup_insert_ne|].
  repeat split.
  - rewrite lookup_insert_ne by discriminate. rewrite lookup_insert_ne by discriminate.
    now rewrite lookup_insert_eq.
  - rewrite lookup_insert_ne by discriminate. now rewrite lookup_insert_eq.
  - now rewrite lookup_insert_eq.
Qed.

(** ** Usage hours with separators *)

Lemma float_of_string_digits (digits : list ascii) :
  digits <> [] -> forallb Text.is_digit digits = true ->
  Num.float_of_string (Text.text digits) = Some (Num.Fin (inject_Z (Text.digits_val digits))).
Proof.
  intros Hne Hok. unfold Num.float_of_string.
  rewrite strip_digits, chars_text by exact Hok.
  destruct digits as [|d ds] eqn:E; [contradiction|]. rewrite <- E in *.
  assert (Hd : Text.is_digit d = true).
  { rewrite E in Hok. simpl in Hok. now apply andb_true_iff in Hok. }
  assert (Hs : Num.take_sign digits = (false, digits)).
  { rewrite E. unfold Num.take_sign.
    rewrite (proj1 (negb_true_iff _)
               (digit_prop (fun a => negb (Ascii.eqb a "-")) eq_refl d Hd)).
    now rewrite (proj1 (negb_true_iff _)
               (digit_prop (fun a => negb (Ascii.eqb a "+")) eq_refl d Hd)). }
  rewrite Hs.
  assert (Hw : forall w c, Ascii.eqb (Text.lower_char d) c = false ->
               String.eqb (Text.lower (Text.text digits)) (String c w) = false).
  { intros w c Hc. rewrite E. simpl. now rewrite Hc. }
  rewrite !Hw.
  2:{ apply negb_true_iff.
      apply (digit_prop (fun a => negb (Ascii.eqb (Text.lower_char a) "n")) eq_refl d Hd). }
  2,3: apply negb_true_iff;
      apply (digit_prop (fun a => negb (Ascii.eqb (Text.lower_char a) "i")) eq_refl d Hd).
  cbn [orb]. rewrite take_digitpart_digits by exact Hok.
  rewrite app_nil_r. rewrite E at 1. cbn [Num.take_exponent].
  rewrite <- E. cbn [List.length Z.of_nat Z.sub]. unfold Num.scale10. cbn [Z.leb Z.compare Z.opp].
  change (10 ^ 0)%Z with 1%Z. rewrite Z.mul_1_r. now rewrite Qred_inject_Z.
Qed.

Lemma strip_no_space (s : string) :
  forallb (fun a => negb (Text.is_space a)) (Text.chars s) = true -> Text.strip s = s.
Proof.
  intros H. unfold Text.strip.
  rewrite (lstrip_no_space _ H), lstrip_no_space, rev_involutive; [apply text_chars|].
  apply forallb_forall. intros a Ha. apply (proj1 (forallb_forall _ _) H).
  now apply in_rev.
Qed.

Lemma parse_hours_separators (s : string) :
  forallb (fun c => Text.is_digit c || Ascii.eqb c ",") (Text.chars s) = true ->
  existsb Text.is_digit (Text.chars s) = true ->
  Utils.parse_hours (JStr s)
  = Num.Fin (inject_Z (Text.digits_val (List.filter Text.is_digit (Text.chars s)))).
Proof.
  intros Hall Hex. unfold Utils.parse_hours.
  assert (Hsp : forallb (fun a => negb (Text.is_space a)) (Text.chars s) = true).
  { apply forallb_forall. intros a Ha.
    pose proof (proj1 (forallb_forall _ _) Hall a Ha) as H.
    cbv beta in H. apply orb_true_iff in H. destruct H as [H|H].
    - revert a H Ha. intros a H _. exact (digit_prop (fun a => negb (Text.is_space a)) eq_refl a H).
    - apply Ascii.eqb_eq in H. now subst. }
  rewrite (strip_no_space s Hsp). unfold Text.remove_char.
  assert (Hf : List.filter (fun a => negb (Ascii.eqb a ",")) (Text.chars s)
               = List.filter Text.is_digit (Text.chars s)).
  { apply filter_ext_in. intros a Ha.
    pose proof (proj1 (forallb_forall _ _) Hall a Ha) as H.
    destruct (Text.is_digit a) eqn:Hd.
    - exact (digit_prop (fun a => negb (Ascii.eqb a ",")) eq_refl a Hd).
    - cbv beta in H. rewrite Hd in H. cbn [orb] in H. now rewrite H. }
  rewrite Hf.
  set (digits := List.filter Text.is_digit (Text.chars s)).
  assert (Hne : digits <> []).
  { apply existsb_exists in Hex. destruct Hex as (a & Ha & Hd).
    intros E. assert (Hin : In a digits) by (apply filter_In; now split).
    rewrite E in Hin. exact Hin. }
  assert (Hok : forallb Text.is_digit digits = true).
  { apply forallb_forall. intros a Ha. now apply filter_In in Ha. }
  rewrite (float_of_string_digits digits Hne Hok).
  destruct digits as [|d ds]; [contradiction|]. reflexivity.
Qed.

(** X1. In a usage value made of digits and thousands separators, with at
    least one digit, the separators are dropped wherever they stand: the
    value parses to what its digits alone parse to, which is the whole
    number they spell when that number is below 2^53. *)
Theorem thousands_separators_are_dropped (s : string) :
  forallb (fun c => Text.is_digit c || Ascii.eqb c ",") (Text.chars s) = true ->
  existsb Text.is_digit (Text.chars s) = true ->
  let digits := List.filter Text.is_digit (Text.chars s) in
  Utils.parse_hours (JStr s) = Utils.parse_hours (JStr (Text.text digits))
  /\ ((Text.digits_val digits < 2 ^ 53)%Z ->
      Utils.parse_hours (JStr s) = Num.Fin (inject_Z (Text.digits_val digits))).
Proof.
  intros Hall Hex digits. pose proof (parse_hours_separators s Hall Hex) as H.
  fold digits in H. split; [|intros _; exact H].
  assert (Hok : forallb Text.is_digit digits = true).
  { apply forallb_forall. intros a Ha. now apply filter_In in Ha. }
  assert (Hd : List.filter Text.is_digit digits = digits).
  { apply forallb_filter_id. exact Hok. }
  rewrite H, (parse_hours_separators (Text.text digits)); rewrite ?chars_text.
  - now rewrite Hd.
  - apply forallb_forall. intros a Ha.
    now rewrite (proj1 (forallb_forall _ _) Hok a Ha).
  - apply existsb_exists in Hex. destruct Hex as (a & Ha & Da).
    apply existsb_exists. exists a. split; [|exact Da]. apply filter_In. now split.
Qed.

(** ** The account list *)

Section AccountList.

Variable urlparse : string -> result InputParser.parsed_url.
Variable xml_fromstring : string -> option xml.
Variable n : network.

Local Abbreviation parse_lines := (InputParser.parse_lines urlparse xml_fromstring n).
Local Abbreviation normalize := (InputParser.normalize_to_steamid64 urlparse xml_fromstring n).

Lemma listed_add (seen : gset string) (out : list InputParser.entry) (lab sid : string) :
  listed seen out -> sid ∉ seen -> lab <> "" -> sid <> "" ->
  listed ({[sid]} ∪ seen) (out ++ [InputParser.Entry lab sid]).
Proof.
  intros (Hs & Hn & Hf) Hnew Hl Hi. repeat split.
  - rewrite map_app, elem_of_app, elem_of_union, elem_of_singleton. cbn.
    rewrite list_elem_of_singleton, Hs. tauto.
  - rewrite map_app, elem_of_app, elem_of_union, elem_of_singleton. cbn.
    rewrite list_elem_of_singleton, Hs. tauto.
  - rewrite map_app. cbn. apply NoDup_app. split; [exact Hn|]. split.
    + intros x H1 H2. apply list_elem_of_singleton in H2. subst.
      apply Hnew. now apply Hs.
    + apply NoDup_singleton.
  - apply Forall_app. split; [exact Hf|]. constructor; [|constructor]. cbn. now split.
Qed.

Lemma parse_lines_listed (lines : list string) :
  forall seen out log r log',
    listed seen out ->
    parse_lines lines seen out log = (Ok r, log') ->
    NoDup (map InputParser.steamid64 r)
    /\ Forall (fun e => InputParser.label e <> "" /\ InputParser.steamid64 e <> "") r
    /\ exists extra, r = out ++ extra.
Proof.
  induction lines as [|raw more IH]; intros seen out log r log' Hinv H.
  - cbn in H. injection H as <- <-. destruct Hinv as (_ & Hn & Hf).
    split; [exact Hn|]. split; [exact Hf|]. exists []. now rewrite app_nil_r.
  - cbn [InputParser.parse_lines] in H.
    destruct (_ || _) in H; [exact (IH _ _ _ _ _ Hinv H)|].
    destruct (InputParser.split_colon _) as [[l i]|] in H; [|exact (IH _ _ _ _ _ Hinv H)].
    destruct (String.eqb_spec (Text.strip (Text.text l)) "") as [|Hl];
      [exact (IH _ _ _ _ _ Hinv H)|].
    destruct (String.eqb_spec (Text.strip (Text.text i)) "") as [|Hi];
      [exact (IH _ _ _ _ _ Hinv H)|].
    cbn [orb] in H. unfold bind in H.
    destruct (normalize (Text.strip (Text.text i)) log) as [[[sid|]|e] l1];
      [| exact (IH _ _ _ _ _ Hinv H) | discriminate].
    destruct (String.eqb_spec sid "") as [|Hs]; [exact (IH _ _ _ _ _ Hinv H)|].
    destruct (bool_decide_reflect (sid ∈ seen)) as [Hin|Hnew]; [exact (IH _ _ _ _ _ Hinv H)|].
    destruct (IH _ _ _ _ _ (listed_add _ _ _ _ Hinv Hnew Hl Hs) H) as (Hn & Hf & extra & ->).
    split; [exact Hn|]. split; [exact Hf|]. rewrite <- app_assoc. eexists. reflexivity.
Qed.

Lemma listed_empty : listed ∅ [].
Proof.
  split; [|split]; [|constructor|constructor].
  intros sid. cbn. split; [intros H; now apply not_elem_of_empty in H | intros H; inversion H].
Qed.

(** X4. The account list that [parse_ids_file] returns holds every
    SteamID once, and every entry has a label and a SteamID that are not
    empty. *)
Theorem account_list_has_no_duplicates (content : string) (entries : list InputParser.entry) :
  value (InputParser.parse_ids_file urlparse xml_fromstring n content) = Ok entries ->
  NoDup (map InputParser.steamid64 entries)
  /\ Forall (fun e => InputParser.label e <> "" /\ InputParser.steamid64 e <> "") entries.
Proof.
  unfold value, run, InputParser.parse_ids_file. intros H.
  destruct (parse_lines (InputParser.splitlines content) ∅ [] []) as [r log'] eqn:Hr.
  cbn in H. subst r.
  destruct (parse_lines_listed _ _ _ _ _ _ listed_empty Hr) as (Hn & Hf & _).
  now split.
Qed.

Lemma listed_seen (seen : gset string) (out : list InputParser.entry) :
  listed seen out -> seen = list_to_set (map InputParser.steamid64 out).
Proof.
  intros (Hs & _). apply set_eq. intros x. rewrite elem_of_list_to_set. apply Hs.
Qed.

Lemma parse_lines_app (l1 l2 : list string) :
  forall seen out log,
    listed seen out ->
    parse_lines (l1 ++ l2) seen out log
    = bind (parse_lines l1 seen out)
        (fun r1 => parse_lines l2 (list_to_set (map InputParser.steamid64 r1)) r1) log.
Proof.
  induction l1 as [|raw more IH]; intros seen out log Hinv.
  - cbn. unfold bind, ret. now rewrite <- (listed_seen _ _ Hinv).
  - cbn [app InputParser.parse_lines].
    destruct (_ || _); [exact (IH _ _ _ Hinv)|].
    destruct (InputParser.split_colon _) as [[l i]|]; [|exact (IH _ _ _ Hinv)].
    destruct (String.eqb_spec (Text.strip (Text.text l)) "") as [|Hl]; [exact (IH _ _ _ Hinv)|].
    destruct (String.eqb_spec (Text.strip (Text.text i)) "") as [|Hi]; [exact (IH _ _ _ Hinv)|].
    cbn [orb]. unfold bind in *.
    destruct (normalize (Text.strip (Text.text i)) log) as [[[sid|]|e] l1];
      [| exact (IH _ _ _ Hinv) | reflexivity].
    destruct (String.eqb_spec sid "") as [|Hs]; [exact (IH _ _ _ Hinv)|].
    destruct (bool_decide_reflect (sid ∈ seen)) as [Hin|Hnew]; [exact (IH _ _ _ Hinv)|].
    exact (IH _ _ _ (listed_add _ _ _ _ Hinv Hnew Hl Hs)).
Qed.

(** X5. Lines added at the end of the file leave the entries of the lines
    before them as they are: what the longer file gives starts with what the
    shorter one gives, and goes on with entries for other SteamIDs.  So the
    label of a SteamID is the label of the first line that resolved to it. *)
Theorem earlier_lines_keep_their_entries (l1 l2 : list string) (r : list InputParser.entry) :
  value (parse_lines (l1 ++ l2) ∅ []) = Ok r ->
  exists r1 extra,
    value (parse_lines l1 ∅ []) = Ok r1
    /\ r = r1 ++ extra
    /\ forall e, e ∈ extra -> InputParser.steamid64 e ∉ map InputParser.steamid64 r1.
Proof.
  unfold value, run. rewrite (parse_lines_app l1 l2 ∅ [] [] listed_empty). unfold bind.
  destruct (parse_lines l1 ∅ [] []) as [[r1|e] log1] eqn:H1; [|discriminate].
  destruct (parse_lines l2 _ r1 log1) as [r' log2] eqn:H2. cbn. intros ->.
  destruct (parse_lines_listed _ _ _ _ _ _ listed_empty H1) as (Hn1 & Hf1 & _).
  assert (Hinv : listed (list_to_set (map InputParser.steamid64 r1)) r1).
  { split; [|split; assumption]. intros x. apply elem_of_list_to_set. }
  destruct (parse_lines_listed _ _ _ _ _ _ Hinv H2) as (Hn & _ & extra & ->).
  exists r1, extra. split; [reflexivity|]. split; [reflexivity|].
  intros e He Hin. rewrite map_app in Hn. apply NoDup_app in Hn.
  destruct Hn as (_ & Hd & _). apply (Hd _ Hin). now apply list_elem_of_fmap_2.
Qed.

(** X6. A line that is blank, or whose first character after the blanks
    is [#], may stand anywhere in the file: the entries and the requests are
    those of the file without it. *)
Theorem comment_lines_are_ignored (c : string) (l1 l2 : list string) :
  Text.strip c = "" \/ Text.startswith "#" (Text.strip c) = true ->
  forall seen out log,
    parse_lines (l1 ++ c :: l2) seen out log = parse_lines (l1 ++ l2) seen out log.
Proof.
  intros Hc. induction l1 as [|raw more IH]; intros seen out log.
  - cbn [app InputParser.parse_lines].
    destruct Hc as [->| ->]; [reflexivity | now rewrite orb_true_r].
  - cbn [app InputParser.parse_lines].
    destruct (_ || _); [apply IH|].
    destruct (InputParser.split_colon _) as [[l i]|]; [|apply IH].
    destruct (_ || _); [apply IH|].
    unfold bind.
    destruct (normalize (Text.strip (Text.text i)) log) as [[[sid|]|e] l1];
      [| apply IH | reflexivity].
    destruct (String.eqb sid ""); [apply IH|].
    destruct (bool_decide (sid ∈ seen)); apply IH.
Qed.

End AccountList.

Lemma lstrip_split (l : list ascii) :
  exists p, l = p ++ Text.lstrip l /\ forallb Text.is_space p = true.
Proof.
  induction l as [|a l (p & Hp & Hs)]; [exists []; now split|].
  simpl. destruct (Text.is_space a) eqn:E.
  - exists (a :: p). simpl. rewrite E. split; [now f_equal | exact Hs].
  - exists []. now split.
Qed.

Lemma lstrip_head (l : list ascii) :
  match Text.lstrip l with a :: _ => Text.is_space a = false | [] => True end.
Proof.
  induction l as [|a l IH]; simpl; [exact I|].
  destruct (Text.is_space a) eqn:E; [exact IH | exact E].
Qed.

Lemma lstrip_fixed (l : list ascii) :
  match l with a :: _ => Text.is_space a = false | [] => True end -> Text.lstrip l = l.
Proof. destruct l as [|a l]; simpl; [reflexivity|]. now intros ->. Qed.

Lemma strip_fixed (s : string) :
  Text.strip s = s -> s <> "" ->
  Text.lstrip (Text.chars s) = Text.chars s
  /\ Text.lstrip (rev (Text.chars s)) = rev (Text.chars s).
Proof.
  intros H Hne. unfold Text.strip in H.
  apply (f_equal Text.chars) in H. rewrite chars_text in H.
  set (l := Text.chars s) in *.
  assert (Hl : l <> []).
  { intros E. apply Hne. rewrite <- (text_chars s). fold l. now rewrite E. }
  set (y := Text.lstrip l) in *. set (z := Text.lstrip (rev y)) in *.
  assert (Hz : rev l = z) by (rewrite <- H; apply rev_involutive).
  assert (Hzz : Text.lstrip z = z).
  { apply lstrip_fixed. subst z. apply lstrip_head. }
  destruct (lstrip_split l) as (q & Hq & _). fold y in Hq.
  destruct (lstrip_split (rev y)) as (p & Hp & _). fold z in Hp.
  assert (Hy : y = l ++ rev p).
  { rewrite <- (rev_involutive y), Hp, rev_app_distr, <- Hz. now rewrite rev_involutive. }
  assert (Hlen : List.length q = 0%nat /\ List.length p = 0%nat).
  { apply (f_equal (@List.length _)) in Hq. rewrite Hy in Hq.
    rewrite !length_app, length_rev in Hq. lia. }
  destruct Hlen as [Hq0 Hp0].
  destruct q; [|discriminate]. destruct p; [|discriminate].
  split.
  - fold y. now rewrite Hy, app_nil_r.
  - rewrite Hz. exact Hzz.
Qed.

Lemma lstrip_app_fixed (l1 l2 : list ascii) :
  l1 <> [] -> Text.lstrip l1 = l1 -> Text.lstrip (l1 ++ l2) = l1 ++ l2.
Proof.
  destruct l1 as [|a l1]; [congruence|]. intros _. simpl.
  destruct (Text.is_space a); [|reflexivity].
  intros H. apply (f_equal (@List.length _)) in H.
  pose proof (lstrip_split l1) as (p & Hp & _).
  apply (f_equal (@List.length _)) in Hp. rewrite length_app in Hp. simpl in H. lia.
Qed.

Lemma split_colon_app (l1 l2 : list ascii) :
  forallb (fun a => negb (Ascii.eqb a ":")) l1 = true ->
  InputParser.split_colon (l1 ++ ":"%char :: l2) = Some (l1, l2).
Proof.
  induction l1 as [|a l1 IH]; simpl; [reflexivity|].
  intros H. apply andb_true_iff in H. destruct H as [Ha H].
  apply negb_true_iff in Ha. rewrite Ha, (IH H). reflexivity.
Qed.

Section RoundTrip.

Variable urlparse : string -> result InputParser.parsed_url.
Variable xml_fromstring : string -> option xml.
Variable n : network.

Local Abbreviation parse_lines := (InputParser.parse_lines urlparse xml_fromstring n).

Lemma tidy_parts (e : InputParser.entry) :
  tidy e = true ->
  let lab := InputParser.label e in
  let sid := InputParser.steamid64 e in
  lab <> "" /\ Text.strip lab = lab /\ Text.startswith "#" lab = false
  /\ forallb (fun a => negb (Ascii.eqb a ":")) (Text.chars lab) = true
  /\ forallb (fun a => negb (InputParser.is_linebreak a)) (Text.chars lab) = true
  /\ Text.chars sid <> [] /\ forallb Text.is_digit (Text.chars sid) = true.
Proof.
  unfold tidy, tidy_label. intros H.
  repeat (apply andb_true_iff in H; destruct H as [H ?]).
  cbv zeta. repeat split.
  - intros E. rewrite E in H. discriminate.
  - now apply String.eqb_eq.
  - now apply negb_true_iff.
  - apply forallb_forall. intros a Ha.
    pose proof (proj1 (forallb_forall _ _) H1 a Ha) as Hx. cbv beta in Hx.
    now apply andb_true_iff in Hx.
  - apply forallb_forall. intros a Ha.
    pose proof (proj1 (forallb_forall _ _) H1 a Ha) as Hx. cbv beta in Hx.
    now apply andb_true_iff in Hx.
  - unfold Text.isdigit in H0. destruct (Text.chars (InputParser.steamid64 e)); [discriminate|congruence].
  - unfold Text.isdigit in H0. destruct (Text.chars (InputParser.steamid64 e)); [discriminate|exact H0].
Qed.

Lemma strip_id_line (e : InputParser.entry) :
  tidy e = true -> Text.strip (id_line e) = id_line e.
Proof.
  intros H. destruct (tidy_parts e H) as (Hne & Hs & _ & _ & _ & Hd0 & Hd).
  destruct (strip_fixed _ Hs Hne) as [Hl _].
  unfold Text.strip, id_line. rewrite !chars_append.
  set (lab := Text.chars (InputParser.label e)) in *.
  set (sid := Text.chars (InputParser.steamid64 e)) in *.
  assert (Hlab : lab <> []).
  { intros E. apply Hne. rewrite <- (text_chars (InputParser.label e)). fold lab. now rewrite E. }
  rewrite (lstrip_app_fixed lab _ Hlab Hl).
  rewrite !rev_app_distr, <- app_assoc.
  rewrite (lstrip_app_fixed (rev sid)).
  - rewrite app_assoc, <- !rev_app_distr, rev_involutive. subst lab sid.
    rewrite <- !chars_append. apply text_chars.
  - intros E. apply Hd0. rewrite <- (rev_involutive sid). fold sid. now rewrite E.
  - apply lstrip_no_space. apply digits_all; [|reflexivity].
    apply forallb_forall. intros a Ha. apply (proj1 (forallb_forall _ _) Hd). now apply in_rev.
Qed.

Lemma parse_id_line (e : InputParser.entry) (more : list string) (seen : gset string)
    (out : list InputParser.entry) (log : list request) :
  tidy e = true ->
  parse_lines (id_line e :: more) seen out log
  = if bool_decide (InputParser.steamid64 e ∈ seen) then parse_lines more seen out log
    else parse_lines more ({[InputParser.steamid64 e]} ∪ seen) (out ++ [e]) log.
Proof.
  intros H. destruct (tidy_parts e H) as (Hne & Hs & Hh & Hc & _ & Hd0 & Hd).
  cbn [InputParser.parse_lines]. rewrite (strip_id_line e H).
  destruct e as [lab sid]. unfold id_line in *. cbn [InputParser.label InputParser.steamid64] in *.
  assert (Hlab : Text.chars lab <> []).
  { intros E. apply Hne. rewrite <- (text_chars lab). now rewrite E. }
  assert (E1 : String.eqb (lab ++ ": " ++ sid) "" = false).
  { apply String.eqb_neq. intros E. apply (f_equal Text.chars) in E.
    rewrite chars_append in E. destruct (Text.chars lab); [congruence|discriminate]. }
  assert (E2 : Text.startswith "#" (lab ++ ": " ++ sid) = false).
  { unfold Text.startswith in *. rewrite chars_append.
    destruct (Text.chars lab) as [|a l]; [congruence|]. exact Hh. }
  rewrite E1, E2. cbn [orb].
  rewrite !chars_append.
  change (Text.chars ": ") with [":"%char; " "%char]. cbn [app].
  rewrite (split_colon_app _ _ Hc).
  rewrite text_chars, Hs.
  assert (E3 : Text.strip (Text.text (" "%char :: Text.chars sid)) = sid).
  { unfold Text.strip. rewrite chars_text. cbn [Text.lstrip].
    change (Text.is_space " ") with true. cbv iota.
    assert (Hns : forallb (fun a => negb (Text.is_space a)) (Text.chars sid) = true).
    { apply digits_all; [exact Hd | reflexivity]. }
    rewrite (lstrip_no_space _ Hns), lstrip_no_space, rev_involutive; [apply text_chars|].
    apply forallb_forall. intros a Ha. apply (proj1 (forallb_forall _ _) Hns). now apply in_rev. }
  rewrite E3.
  assert (E4 : String.eqb lab "" = false) by now apply String.eqb_neq.
  assert (E5 : String.eqb sid "" = false).
  { apply String.eqb_neq. intros E. apply Hd0. now rewrite E. }
  rewrite E4, E5. cbn [orb].
  unfold InputParser.normalize_to_steamid64.
  assert (E6 : Text.strip sid = sid) by (rewrite <- (text_chars sid); now apply strip_digits).
  assert (E7 : Text.isdigit sid = true).
  { unfold Text.isdigit. destruct (Text.chars sid); [congruence|exact Hd]. }
  rewrite E6, E7. unfold bind, ret. rewrite E5.
  now destruct (bool_decide (sid ∈ seen)).
Qed.

Lemma parse_id_lines (entries : list InputParser.entry) (seen : gset string)
    (out : list InputParser.entry) (log : list request) :
  Forall (fun e => tidy e = true) entries ->
  NoDup (map InputParser.steamid64 entries) ->
  (forall e, e ∈ entries -> InputParser.steamid64 e ∉ seen) ->
  parse_lines (map id_line entries) seen out log = (Ok (out ++ entries), log).
Proof.
  revert seen out. induction entries as [|e entries IH]; intros seen out Ht Hn Hs.
  - cbn. now rewrite app_nil_r.
  - cbn [map]. inversion Ht as [|? ? He Ht']; subst. inversion Hn as [|? ? Hx Hn']; subst.
    rewrite (parse_id_line e _ seen out log He).
    rewrite bool_decide_eq_false_2 by (apply Hs; left).
    rewrite IH; [now rewrite <- app_assoc | exact Ht' | exact Hn' |].
    intros e' He' Hin. apply elem_of_union in Hin. destruct Hin as [Hin|Hin].
    + apply elem_of_singleton in Hin. apply Hx. rewrite <- Hin.
      apply list_elem_of_fmap. now exists e'.
    + apply (Hs e'); [now right | exact Hin].
Qed.

Lemma splitlines_line (l rest cur : list ascii) :
  forallb (fun a => negb (InputParser.is_linebreak a)) l = true ->
  InputParser.splitlines_chars (l ++ Enrich.newline :: rest) cur
  = (rev cur ++ l) :: InputParser.splitlines_chars rest [].
Proof.
  revert cur. induction l as [|a l IH]; intros cur H.
  - cbn [app InputParser.splitlines_chars].
    change (InputParser.is_linebreak Enrich.newline) with true. cbv iota.
    rewrite app_nil_r. f_equal. now destruct rest.
  - cbn [forallb] in H. apply andb_true_iff in H. destruct H as [Ha H].
    apply negb_true_iff in Ha. cbn [app InputParser.splitlines_chars]. rewrite Ha.
    rewrite (IH _ H). cbn [rev]. now rewrite <- app_assoc.
Qed.

Lemma id_line_one_line (e : InputParser.entry) :
  tidy e = true ->
  forallb (fun a => negb (InputParser.is_linebreak a)) (Text.chars (id_line e)) = true.
Proof.
  intros H. destruct (tidy_parts e H) as (_ & _ & _ & _ & Hb & _ & Hd).
  unfold id_line. rewrite !chars_append, !forallb_app. rewrite Hb.
  rewrite (digits_all _ _ Hd) by reflexivity. reflexivity.
Qed.

Lemma splitlines_ids_file (entries : list InputParser.entry) :
  Forall (fun e => tidy e = true) entries ->
  InputParser.splitlines (ids_file entries) = map id_line entries.
Proof.
  unfold InputParser.splitlines. induction 1 as [|e entries He _ IH]; [reflexivity|].
  cbn [ids_file fold_right]. fold (ids_file entries).
  rewrite chars_append. change (Text.chars (String ?a ?s)) with (a :: Text.chars s).
  rewrite (splitlines_line _ _ [] (id_line_one_line e He)).
  cbn [map rev app]. rewrite IH. f_equal. apply text_chars.
Qed.

(** X25. Writing an account list to a file, one line "label: SteamID64"
    per account, and parsing the file gives the list back, and makes no
    request: for labels that are not empty, have no blank at either end, no
    colon and no line break and do not begin with [#], ids made of digits,
    and no id listed twice. *)
Theorem account_file_round_trip (entries : list InputParser.entry) :
  Forall (fun e => tidy e = true) entries ->
  NoDup (map InputParser.steamid64 entries) ->
  run (InputParser.parse_ids_file urlparse xml_fromstring n (ids_file entries))
  = (Ok entries, []).
Proof.
  intros Ht Hn. unfold run, InputParser.parse_ids_file.
  rewrite (splitlines_ids_file entries Ht).
  rewrite (parse_id_lines entries ∅ [] [] Ht Hn); [reflexivity|].
  intros e _. apply not_elem_of_empty.
Qed.

End RoundTrip.

(** ** Profile URLs *)

Section MoreSteps.

Import Regex.
Context {A : Type}.
Variables (g : captures) (k : cursor -> captures -> option A) (x : A).

Lemma step_Bol (pv : option ascii) (l : list ascii) :
  k (Cursor 0 pv l) g = Some x -> mtch Bol (Cursor 0 pv l) g k = Some x.
Proof. exact (fun H => H). Qed.

Lemma step_Alt_l (r1 r2 : re) (c : cursor) :
  mtch r1 c g k = Some x -> mtch (Alt r1 r2) c g k = Some x.
Proof. intros H. simpl. now rewrite H. Qed.

Lemma step_Alt_r (r1 r2 : re) (c : cursor) :
  mtch r1 c g k = None -> mtch r2 c g k = Some x -> mtch (Alt r1 r2) c g k = Some x.
Proof. intros H1 H2. simpl. now rewrite H1. Qed.

Lemma step_Opt_present (r : re) (c : cursor) :
  mtch r c g k = Some x -> mtch (Opt r) c g k = Some x.
Proof. intros H. simpl. now rewrite H. Qed.

End MoreSteps.

Ltac walk :=
  repeat (cbv beta;
          match goal with
          | |- Regex.mtch (Regex.Cat _ _) _ _ _ = Some _ => apply step_Cat
          | |- Regex.mtch (Regex.Chr _) _ _ _ = Some _ => apply step_Chr; [reflexivity|]
          | |- Regex.mtch Regex.Eps _ _ _ = Some _ => apply step_Eps
          | |- Regex.mtch (Regex.Grp _ _) _ _ _ = Some _ => apply step_Grp
          | |- Regex.mtch Regex.Bol _ _ _ = Some _ => apply step_Bol
          end); cbv beta.

Section PathShapes.

Import Regex.

Lemma match_profile_path (kind : string) (seg tail : list ascii) :
  kind = "id" \/ kind = "profiles" ->
  seg <> [] -> forallb (not_chr "/") seg = true ->
  (tail = [] \/ exists t, tail = "/"%char :: t) ->
  exists e,
    match_at InputParser.profile_path_re (Cursor 0 None (profile_path kind seg tail))
    = Some (Found (Cursor 0 None (profile_path kind seg tail)) e
              [(2, Text.text seg); (1, kind)]).
Proof.
  intros Hk Hne Hok Ht.
  assert (H : exists e g1 g2,
    match_at InputParser.profile_path_re (Cursor 0 None (profile_path kind seg tail))
    = Some (Found (Cursor 0 None (profile_path kind seg tail)) e [(2, g2); (1, g1)])
    /\ g1 = kind /\ g2 = Text.text seg).
  2:{ destruct H as (e & g1 & g2 & H & -> & ->). now exists e. }
  assert (H0 : run_length (not_chr "/") tail = 0).
  { destruct Ht as [->|[t ->]]; reflexivity. }
  unfold match_at, profile_path, InputParser.profile_path_re, lit, seq.
  cbn [fold_right].
  destruct Hk as [->| ->]; cbn [Text.chars list_ascii_of_string map fold_right app].
  all: destruct Ht as [->|[t ->]].
  all: eexists _, _, _; split; [|split].
  all: try (walk; first [ apply step_Alt_r; [reflexivity|]; walk | apply step_Alt_l; walk ];
    apply (step_Rep _ _ _ _ _ seg _);
      [exact Hok | exact H0 | destruct seg; [contradiction | simpl; lia] |];
    walk;
    first [ apply step_Opt_absent; [reflexivity|]; cbn; reflexivity
          | apply step_Opt_present; cbn; reflexivity ]).
  all: cbn [pos rest].
  all: try reflexivity.
  all: rewrite (firstn_length_app seg _ 0 (length seg)) by reflexivity; reflexivity.
Qed.

Variable urlparse : string -> result InputParser.parsed_url.
Variable xml_fromstring : string -> option xml.
Variable n : network.

(** X7. What the two recognized path shapes resolve to, for a URL with a
    scheme and a steamcommunity.com host.  The path /profiles/<seg>, alone or
    followed by a slash and more, gives <seg> when it is all digits and
    absent otherwise, and makes no request.  The path /id/<seg> makes the one
    request https://steamcommunity.com/id/<seg>/?xml=1, not throttled, and
    gives what that lookup yields. *)
Theorem profile_url_resolution (val sch host kind : string) (seg tail : list ascii) :
  Text.isdigit (Text.strip val) = false ->
  urlparse (Text.strip val)
  = Ok (InputParser.ParsedUrl sch host (Text.text (profile_path kind seg tail))) ->
  sch <> "" -> Text.contains "steamcommunity.com" host = true ->
  seg <> [] -> forallb (not_chr "/") seg = true ->
  (tail = [] \/ exists t, tail = "/"%char :: t) ->
  let m := InputParser.normalize_to_steamid64 urlparse xml_fromstring n val in
  (kind = "profiles" ->
   run m = (Ok (if Text.isdigit (Text.text seg) then Some (Text.text seg) else None), []))
  /\ (kind = "id" ->
      run m = (Ok (lookup_outcome xml_fromstring n (Text.text seg)),
               [Request None (InputParser.vanity_url (Text.text seg))])).
Proof.
  intros Hd Hu Hs Hh Hne Hok Ht m. subst m.
  assert (Hrun : kind = "id" \/ kind = "profiles" ->
    exists e,
      match_at InputParser.profile_path_re
        (start (Text.text (profile_path kind seg tail)))
      = Some (Found (Cursor 0 None (profile_path kind seg tail)) e
                [(2, Text.text seg); (1, kind)])).
  { intros Hk. unfold start. rewrite chars_text.
    exact (match_profile_path kind seg tail Hk Hne Hok Ht). }
  unfold run, InputParser.normalize_to_steamid64. rewrite Hd.
  unfold bind, lift. rewrite Hu. cbn [InputParser.scheme InputParser.netloc InputParser.path].
  rewrite Hh. destruct (String.eqb_spec sch "") as [|_]; [contradiction|]. cbn [negb andb].
  split; intros ->.
  - destruct (Hrun (or_intror eq_refl)) as [e ->]. reflexivity.
  - destruct (Hrun (or_introl eq_refl)) as [e ->].
    unfold group_or_empty. cbn [m_groups group Nat.eqb String.eqb Ascii.eqb Bool.eqb].
    rewrite run_vanity. reflexivity.
Qed.

(** X8. Identity resolution raises exactly when its input is not all
    digits and [urlparse] raises on it; it raises the same exception, and has
    made no request. *)
Theorem resolution_raises_what_urlparse_raises (val : string) (e : exn) :
  let m := InputParser.normalize_to_steamid64 urlparse xml_fromstring n val in
  (value m = Raise e <->
   Text.isdigit (Text.strip val) = false /\ urlparse (Text.strip val) = Raise e)
  /\ (value m = Raise e -> requests m = []).
Proof.
  intros m. subst m. unfold value, requests, run, InputParser.normalize_to_steamid64.
  destruct (Text.isdigit (Text.strip val)).
  { cbn. split; [split; [discriminate | intros [? _]; discriminate] | discriminate]. }
  unfold bind, lift. destruct (urlparse (Text.strip val)) as [u|e'].
  2:{ cbn. split; [split; [intros [= ->]; now split | intros [_ [= ->]]; reflexivity]
                  | reflexivity]. }
  assert (H : forall r : result (option string) * list request,
            (exists v, fst r = Ok v) ->
            (fst r = Raise e <-> false = false /\ Ok u = Raise e)
            /\ (fst r = Raise e -> snd r = [])).
  { intros r [v Hv]. rewrite Hv. split; [split; [discriminate | intros [_ ?]; discriminate]
                                        | discriminate]. }
  apply H.
  destruct (_ && _); [|eexists; reflexivity].
  destruct (match_at _ _) as [f|]; [|eexists; reflexivity].
  destruct (String.eqb _ "profiles"); [eexists; reflexivity|].
  rewrite run_vanity. eexists; reflexivity.
Qed.

End PathShapes.

(** ** Library entries *)

Lemma game_of_node_named (x : xml) (g : SteamFetch.game) :
  SteamFetch.game_of_node x = Some g ->
  SteamFetch.appid g <> "" /\ named g
  /\ SteamFetch.hours_on_record g
     = Utils.parse_hours (JStr (SteamFetch.txt x "hoursOnRecord")).
Proof.
  unfold SteamFetch.game_of_node, named. cbv zeta.
  set (a := SteamFetch.str_or _ _).
  destruct (String.eqb_spec a "") as [|Ha]; [discriminate|].
  destruct (String.eqb (SteamFetch.txt x "name") "") eqn:Hn; [discriminate|].
  cbn [negb andb]. intros [= <-].
  cbn [SteamFetch.appid SteamFetch.name SteamFetch.hours_on_record Json.truthy].
  split; [exact Ha|]. split; [now rewrite Hn | reflexivity].
Qed.

Section Entries.

Variable xml_fromstring : string -> option xml.
Variable json_loads : string -> option json.
Variable py_str : json -> string.
Variable n : network.

Lemma games_of_array_named (arr : list json) (games : list SteamFetch.game) :
  SteamFetch.games_of_array py_str arr = Ok games -> Forall named games.
Proof.
  revert games. induction arr as [|j arr IH]; intros games; cbn [SteamFetch.games_of_array].
  - intros [= <-]. constructor.
  - destruct (SteamFetch.game_of_json py_str j) as [og|] eqn:Hj; [|discriminate].
    destruct (SteamFetch.games_of_array py_str arr) as [gs|]; [|discriminate].
    intros [= <-]. specialize (IH gs eq_refl).
    destruct og as [g|]; [|exact IH]. constructor; [|exact IH].
    revert Hj. unfold SteamFetch.game_of_json, named.
    destruct (Json.get j "appid"); [|discriminate].
    destruct (Json.get j "appID"); [|discriminate].
    destruct (Json.get j "name"); [|discriminate].
    destruct (Json.get j "friendly_name"); [|discriminate].
    destruct (Json.get j "hours_forever"); [|discriminate].
    destruct (Json.truthy (Json.or_else _ _)); [|discriminate].
    destruct (Json.truthy (Json.or_else a1 a2)) eqn:Hn; [|discriminate].
    intros [= <-]. exact Hn.
Qed.

Lemma fetch_games_html_rg_named (u : string) (log l : list request)
    (games : list SteamFetch.game) :
  SteamFetch.fetch_games_html_rg json_loads py_str n u log = (Ok games, l) ->
  Forall named games.
Proof.
  unfold SteamFetch.fetch_games_html_rg, SteamFetch.loads_or_raise, bind, Utils.session_get,
    Utils.raise_for_status, lift, ret, raise.
  destruct (n u) as [r|]; [|discriminate].
  destruct (_ && _); [discriminate|].
  destruct (match Regex.search SteamFetch.RG_GAMES_REGEX (body r) with
            | Some m => _ | None => _ end) as [blob|]; [|intros [= <- _]; constructor].
  destruct (json_loads blob) as [j|].
  - destruct j; try discriminate. intros [= H _]. now apply games_of_array_named in H.
  - destruct (json_loads _) as [j|]; [|discriminate].
    destruct j; try discriminate. intros [= H _]. now apply games_of_array_named in H.
Qed.

Lemma fetch_games_xml_named (u : string) (log l : list request) (games : list SteamFetch.game) :
  SteamFetch.fetch_games_xml xml_fromstring n u log = (Ok games, l) ->
  Forall (fun g => SteamFetch.appid g <> "" /\ named g) games.
Proof.
  unfold SteamFetch.fetch_games_xml, InputParser.parse_xml, bind, Utils.session_get,
    Utils.raise_for_status, ret, raise.
  destruct (n u) as [r|]; [|discriminate].
  destruct (_ && _); [discriminate|].
  destruct (xml_fromstring (body r)) as [root|]; [|discriminate].
  intros [= <- _]. unfold SteamFetch.games_of_root.
  apply Forall_forall. intros g Hg.
  apply list_elem_of_omap in Hg.
  destruct Hg as (x & _ & Hx). apply game_of_node_named in Hx. tauto.
Qed.

(** X9. Every entry of a library that the account fetch returns has a
    name that is a true value; an entry that the structured feed gives also
    has an id that is not empty. *)
Theorem library_entries_are_named (sid : string) :
  let xml_url := fst (SteamFetch.build_profile_urls sid) in
  Forall named (fetched xml_fromstring json_loads py_str n sid)
  /\ (forall games,
        value (SteamFetch.fetch_games_xml xml_fromstring n xml_url) = Ok games ->
        Forall (fun g => SteamFetch.appid g <> "" /\ named g) games).
Proof.
  intros xml_url. split.
  - unfold fetched, value, run, SteamFetch.get_owned_games_for_steamid.
    destruct (SteamFetch.build_profile_urls sid) as [xu hu]. unfold bind, try_except.
    destruct (SteamFetch.fetch_games_xml xml_fromstring n xu []) as [[games|e] l1] eqn:Hx.
    + apply fetch_games_xml_named in Hx. destruct games as [|g gs].
      * destruct (SteamFetch.fetch_games_html_rg json_loads py_str n hu l1)
          as [[games|e] l2] eqn:Hh.
        -- cbn. now apply fetch_games_html_rg_named in Hh.
        -- destruct (is_Exception e); cbn; constructor.
      * cbn. eapply Forall_impl; [exact Hx|]. now intros g' [_ H].
    + destruct (is_Exception e); [|cbn; constructor]. cbn [ret].
      destruct (SteamFetch.fetch_games_html_rg json_loads py_str n hu l1)
        as [[games|e'] l2] eqn:Hh.
      * cbn. now apply fetch_games_html_rg_named in Hh.
      * destruct (is_Exception e'); cbn; constructor.
  - intros games. unfold value, run.
    destruct (SteamFetch.fetch_games_xml xml_fromstring n xml_url []) as [r l] eqn:Hx.
    cbn. intros ->. now apply fetch_games_xml_named in Hx.
Qed.

End Entries.

(** ** Release years *)

Section Years.

Import Regex.

Lemma match_at_digit4 (p : nat) (pv : option ascii) (l : list ascii) :
  option_map (group_or_empty 1) (match_at Enrich.digit4 (Cursor p pv l))
  = match l with
    | a :: b :: c :: d :: _ =>
        if Text.is_digit a && Text.is_digit b && Text.is_digit c && Text.is_digit d
        then Some (Text.text [a; b; c; d]) else None
    | _ => None
    end.
Proof.
  unfold match_at, Enrich.digit4, seq. cbn [fold_right mtch].
  destruct l as [|a [|b [|c [|d r]]]]; cbn [rest step pos prev];
    repeat match goal with |- context [Text.is_digit ?x] => destruct (Text.is_digit x) end;
    cbn [andb option_map rest step pos prev]; try reflexivity.
  unfold group_or_empty. cbn [m_groups group Nat.eqb option_map].
  replace (S (S (S (S p))) - p)%nat with 4%nat by lia. reflexivity.
Qed.

Lemma search_rest_digit4 (l : list ascii) (p : nat) (pv : option ascii) :
  option_map (group_or_empty 1) (search_rest Enrich.digit4 p pv l)
  = option_map Text.text (first_four_digits l).
Proof.
  revert p pv. induction l as [|a t IH]; intros p pv.
  - reflexivity.
  - cbn [search_rest first_four_digits].
    pose proof (match_at_digit4 p pv (a :: t)) as H.
    destruct (match_at Enrich.digit4 (Cursor p pv (a :: t))) as [m|].
    + cbn [option_map] in *. rewrite H.
      destruct t as [|b [|c [|d r]]]; try discriminate.
      destruct (_ && _); [reflexivity | discriminate].
    + rewrite IH. destruct t as [|b [|c [|d r]]]; try reflexivity.
      cbn [option_map] in H. destruct (_ && _); [discriminate | reflexivity].
Qed.

(** X10. [_extract_year] reads the leftmost run of four digits of the
    date and nothing else: the result is the number they spell when it lies
    between 1970 and 2100, and absent when there is no such run or when that
    first run spells another number, whatever follows it. *)
Theorem year_is_read_from_the_first_four_digits (s : string) :
  Enrich._extract_year (Some s)
  = match first_four_digits (Text.chars s) with
    | Some ds =>
        let y := Text.digits_val ds in
        if (1970 <=? y)%Z && (y <=? 2100)%Z then Some y else None
    | None => None
    end.
Proof.
  unfold Enrich._extract_year.
  destruct (String.eqb_spec s "") as [->|_]; [reflexivity|].
  pose proof (search_rest_digit4 (Text.chars s) 0 None) as H.
  unfold search, search_from, start. cbn [pos prev rest].
  destruct (search_rest Enrich.digit4 0 None (Text.chars s)) as [m|];
    destruct (first_four_digits (Text.chars s)) as [ds|]; try discriminate; [|reflexivity].
  cbn [option_map] in H. injection H as ->. now rewrite chars_text.
Qed.

End Years.

(** ** Metadata *)

Ltac run_locals :=
  unfold bind, lift, modify, ret, raise, get_state;
  cbn [Enrich.log Enrich.app_type Enrich.release_year Enrich.size_gb Enrich.delisted
       Enrich.set_log Enrich.set_app_type Enrich.set_release_year Enrich.set_size_gb
       Enrich.set_delisted fst snd].

Ltac case_locals x :=
  let H := fresh "E" in destruct x eqn:H; run_locals.

Section MetaRequests.

Variable json_loads : string -> option json.
Variable n : network.

Lemma quiet_read_details (d : json) : quiet Enrich.log (Enrich.read_details d).
Proof. unfold quiet, Enrich.read_details. emits_tac. Qed.

Lemma log_appdetails (appid : string) (l : Enrich.meta_locals) :
  Enrich.log (snd (Enrich.swallow (Enrich.appdetails_step json_loads n appid) l))
  = Enrich.log l ++ [Request (Some Store) (Enrich.APPDETAILS_META appid)].
Proof.
  rewrite (swallow_ok _ _ (safe_appdetails_step json_loads n appid)).
  unfold Enrich.appdetails_step. unfold bind at 1.
  assert (H : forall log, snd (Enrich.request_details json_loads n appid log)
                          = log ++ [Request (Some Store) (Enrich.APPDETAILS_META appid)]).
  { intros log. unfold Enrich.request_details, Utils.http_get_store. unfold bind at 1.
    unfold Utils.session_get at 1.
    destruct (n (Enrich.APPDETAILS_META appid)) as [r|]; [|reflexivity].
    apply (quiet_log id). unfold quiet, Enrich.response_json. emits_tac. }
  unfold Enrich.net, zoom. specialize (H (Enrich.log l)).
  destruct (Enrich.request_details json_loads n appid (Enrich.log l)) as [[[d|]|e] lg];
    cbn [snd] in *; subst lg; try reflexivity.
  rewrite (quiet_log Enrich.log _ _ (quiet_read_details d)). reflexivity.
Qed.

Lemma log_store_page (appid : string) (nsf : bool) (l : Enrich.meta_locals) :
  Enrich.log (after_store_page n appid nsf l)
  = Enrich.log l ++ [Request (Some Store) (Enrich.STORE_PAGE appid)].
Proof.
  unfold after_store_page. rewrite (swallow_ok _ _ (safe_store_page_step n appid nsf)).
  unfold Enrich.store_page_step. unfold bind at 1. unfold Enrich.net at 1, zoom.
  unfold Utils.http_get_store, Utils.session_get.
  destruct (n (Enrich.STORE_PAGE appid)) as [r|]; [|reflexivity].
  cbn [fst snd].
  match goal with |- Enrich.log (snd (?f ?r0 ?s)) = _ =>
    rewrite (quiet_log Enrich.log (f r0) s) end.
  - reflexivity.
  - unfold quiet. emits_tac.
Qed.

(** The locals at the [return] are those of the run. *)
Lemma run_fetch_app_meta (appid : string) (nsf ca : bool) :
  run (Enrich.fetch_app_meta json_loads n appid nsf ca)
  = (Ok (Enrich.meta_of (at_return json_loads n appid nsf ca)),
     Enrich.log (at_return json_loads n appid nsf ca)).
Proof.
  unfold run, Enrich.fetch_app_meta, Enrich.fetch_app_meta_body, at_return,
    after_appdetails, after_store_page, fresh_locals.
  unfold bind at 1. rewrite (swallow_ok _ _ (safe_appdetails_step json_loads n appid)). simpl.
  set (l1 := snd (Enrich.appdetails_step json_loads n appid _)).
  unfold bind, get_state. simpl.
  destruct (Enrich.needs_store_page l1 nsf ca).
  - rewrite (swallow_ok _ _ (safe_store_page_step n appid nsf)). reflexivity.
  - reflexivity.
Qed.

(** X12. Metadata resolution asks for the structured details first and for
    the store page after that exactly when the kind or the release year is
    still absent, or the size is absent and wanted, or the availability check
    is on.  Both requests wait on the store bucket.  With the availability
    check on, as the pipeline calls it, every item costs these two
    requests. *)
Theorem metadata_requests (appid : string) (nsf ca : bool) :
  let details := Request (Some Store) (Enrich.APPDETAILS_META appid) in
  let page := Request (Some Store) (Enrich.STORE_PAGE appid) in
  requests (Enrich.fetch_app_meta json_loads n appid nsf ca)
  = (if Enrich.needs_store_page (after_appdetails json_loads n appid) nsf ca
     then [details; page] else [details])
  /\ requests (Enrich.fetch_app_meta json_loads n appid nsf true) = [details; page].
Proof.
  intros details page.
  assert (H : forall ca', requests (Enrich.fetch_app_meta json_loads n appid nsf ca')
    = if Enrich.needs_store_page (after_appdetails json_loads n appid) nsf ca'
      then [details; page] else [details]).
  { intros ca'. unfold requests. rewrite run_fetch_app_meta. cbn [snd]. unfold at_return.
    assert (Ha : Enrich.log (after_appdetails json_loads n appid) = [details]).
    { unfold after_appdetails. rewrite log_appdetails. reflexivity. }
    destruct (Enrich.needs_store_page _ nsf ca'); [|exact Ha].
    rewrite log_store_page, Ha. reflexivity. }
  split; [apply H|]. rewrite H. unfold Enrich.needs_store_page.
  now rewrite orb_true_r.
Qed.

Lemma appdetails_fixes_delisted (appid : string) :
  fixes Enrich.delisted (Enrich.appdetails_step json_loads n appid).
Proof. unfold Enrich.appdetails_step, Enrich.read_details. fixes_tac. Qed.

Lemma store_page_outcome (appid : string) (nsf : bool) (l : Enrich.meta_locals) :
  Enrich.delisted l = None ->
  match page_loaded n appid with
  | Some html =>
      Enrich.delisted (after_store_page n appid nsf l)
      = Some (Enrich.found_in Enrich._DELISTED_HINTS html)
      /\ Enrich.app_type (after_store_page n appid nsf l)
         = match Enrich.app_type l with
           | Some k => Some k
           | None => Enrich._type_from_html html
           end
  | None => after_store_page n appid nsf l
            = Enrich.set_log (Enrich.log l ++ [Request (Some Store) (Enrich.STORE_PAGE appid)]) l
  end.
Proof.
  intros Hd. unfold after_store_page, page_loaded.
  rewrite (swallow_ok _ _ (safe_store_page_step n appid nsf)).
  unfold Enrich.store_page_step, Enrich.net, zoom, bind, Utils.http_get_store,
    Utils.session_get, Utils.raise_for_status, get_state, modify, ret, raise.
  destruct l as [t y v d lg]. cbn in Hd. subst d.
  cbn [Enrich.log Enrich.app_type Enrich.release_year Enrich.size_gb Enrich.delisted
       Enrich.set_log fst snd].
  destruct (n (Enrich.STORE_PAGE appid)) as [r2|]; [|reflexivity].
  destruct ((400 <=? status r2)%Z && (status r2 <? 600)%Z); [reflexivity|].
  destruct t, y, v, nsf;
    cbn [Enrich.is_none Enrich.log Enrich.app_type Enrich.release_year Enrich.size_gb
         Enrich.delisted Enrich.set_log Enrich.set_app_type Enrich.set_release_year
         Enrich.set_size_gb Enrich.set_delisted fst snd andb];
    try destruct (Regex.search Enrich._RELEASE_BLOCK (body r2));
    cbn [Enrich.is_none Enrich.log Enrich.app_type Enrich.release_year Enrich.size_gb
         Enrich.delisted Enrich.set_log Enrich.set_app_type Enrich.set_release_year
         Enrich.set_size_gb Enrich.set_delisted fst snd andb];
    split; reflexivity.
Qed.

(** X13. With the availability check on, the flag [delisted] of the result
    is read off the store page alone: it is the outcome of the search for the
    delisting phrases when the page loads, and absent when it does not.  When
    the page loads the result has a kind; when it does not, kind and release
    year are those of the structured details. *)
Theorem availability_is_read_off_the_store_page (appid : string) (nsf : bool) :
  exists m,
    value (Enrich.fetch_app_meta json_loads n appid nsf true) = Ok m
    /\ Enrich.Meta.delisted m
       = option_map (Enrich.found_in Enrich._DELISTED_HINTS) (page_loaded n appid)
    /\ (page_loaded n appid <> None -> Enrich.Meta.app_type m <> None)
    /\ (page_loaded n appid = None ->
        Enrich.Meta.app_type m = Enrich.app_type (after_appdetails json_loads n appid)
        /\ Enrich.Meta.release_year m
           = Enrich.release_year (after_appdetails json_loads n appid)).
Proof.
  eexists. split; [apply value_fetch_app_meta|].
  unfold at_return, Enrich.needs_store_page. rewrite orb_true_r.
  assert (Hd : Enrich.delisted (after_appdetails json_loads n appid) = None).
  { unfold after_appdetails.
    rewrite (swallow_ok _ _ (safe_appdetails_step json_loads n appid)). cbn [snd].
    now rewrite appdetails_fixes_delisted. }
  pose proof (store_page_outcome appid nsf _ Hd) as H.
  unfold Enrich.meta_of. cbn [Enrich.Meta.delisted Enrich.Meta.app_type Enrich.Meta.release_year].
  destruct (page_loaded n appid) as [html|].
  - destruct H as [-> ->]. split; [reflexivity|]. split; [|intros; discriminate].
    intros _. destruct (Enrich.app_type _); [discriminate|].
    unfold Enrich._type_from_html. repeat destruct (Enrich.found_in _ _); discriminate.
  - rewrite H. cbn. split; [exact Hd|]. split; [intros []; reflexivity|]. intros _. now split.
Qed.

Lemma plausible_extract_year (s : option string) : plausible (Enrich._extract_year s).
Proof.
  unfold plausible, Enrich._extract_year. intros v. destruct s as [s|]; [|discriminate].
  destruct (String.eqb s ""); [discriminate|].
  destruct (Regex.search Enrich.digit4 s) as [m|]; [|discriminate].
  destruct (_ && _) eqn:H; [|discriminate]. intros [= <-]. lia.
Qed.

Lemma plausible_extract_year_of (v : json) (o : option Z) :
  Enrich.extract_year_of v = Ok o -> plausible o.
Proof.
  unfold Enrich.extract_year_of. destruct (Json.truthy v); [|intros [= <-] ? ?; discriminate].
  destruct v as [| | | |s| |]; try discriminate. intros [= <-].
  exact (plausible_extract_year (Some s)).
Qed.

Lemma read_details_year (d : json) (l : Enrich.meta_locals) :
  plausible (Enrich.release_year l) ->
  plausible (Enrich.release_year (snd (Enrich.read_details d l))).
Proof.
  intros Hl. unfold Enrich.read_details. run_locals.
  case_locals (Json.get d "type"); [|exact Hl].
  case_locals (Enrich.str_lower (Json.or_else a (JStr ""))); [|exact Hl].
  case_locals (Json.get d "release_date"); [|exact Hl].
  case_locals (Json.get (Json.or_else a1 (JDict [])) "coming_soon"); [|exact Hl].
  destruct (Json.truthy a2); run_locals.
  - case_locals (Json.get d "pc_requirements"); [|exact Hl].
    case_locals (Enrich.size_from_requirements (Json.or_else a3 (JDict []))); exact Hl.
  - case_locals (Json.get (Json.or_else a1 (JDict [])) "date"); [|exact Hl].
    case_locals (Enrich.extract_year_of a3); [|exact Hl].
    apply plausible_extract_year_of in E4.
    case_locals (Json.get d "pc_requirements"); [|exact E4].
    case_locals (Enrich.size_from_requirements (Json.or_else a5 (JDict []))); exact E4.
Qed.

Lemma after_appdetails_year (appid : string) :
  plausible (Enrich.release_year (after_appdetails json_loads n appid)).
Proof.
  unfold after_appdetails.
  rewrite (swallow_ok _ _ (safe_appdetails_step json_loads n appid)). cbn [snd].
  unfold Enrich.appdetails_step, Enrich.net, zoom, bind, fresh_locals. cbn [Enrich.log].
  destruct (Enrich.request_details json_loads n appid []) as [[[d|]|e] lg]; cbn [fst snd];
    try discriminate.
  apply read_details_year. discriminate.
Qed.

Lemma after_store_page_year (appid : string) (nsf : bool) (l : Enrich.meta_locals) :
  plausible (Enrich.release_year l) ->
  plausible (Enrich.release_year (after_store_page n appid nsf l)).
Proof.
  intros Hl. unfold after_store_page.
  rewrite (swallow_ok _ _ (safe_store_page_step n appid nsf)).
  unfold Enrich.store_page_step, Enrich.net, zoom, bind, Utils.http_get_store,
    Utils.session_get, Utils.raise_for_status, get_state, modify, ret, raise.
  destruct l as [t y v d lg].
  cbn [Enrich.log Enrich.app_type Enrich.release_year Enrich.size_gb Enrich.delisted
       Enrich.set_log fst snd] in *.
  destruct (n (Enrich.STORE_PAGE appid)) as [r2|]; [|exact Hl].
  destruct ((400 <=? status r2)%Z && (status r2 <? 600)%Z); [exact Hl|].
  destruct t, y, v, d, nsf;
    cbn [Enrich.is_none Enrich.log Enrich.app_type Enrich.release_year Enrich.size_gb
         Enrich.delisted Enrich.set_log Enrich.set_app_type Enrich.set_release_year
         Enrich.set_size_gb Enrich.set_delisted fst snd andb];
    try destruct (Regex.search Enrich._RELEASE_BLOCK (body r2));
    cbn [Enrich.is_none Enrich.log Enrich.app_type Enrich.release_year Enrich.size_gb
         Enrich.delisted Enrich.set_log Enrich.set_app_type Enrich.set_release_year
         Enrich.set_size_gb Enrich.set_delisted fst snd andb];
    first [exact Hl | apply plausible_extract_year | discriminate].
Qed.

(** X11. Metadata resolution always returns, and a release year that it
    reports, from the structured details or from the store page, lies
    between 1970 and 2100. *)
Theorem release_year_is_plausible (appid : string) (nsf ca : bool) :
  exists m,
    value (Enrich.fetch_app_meta json_loads n appid nsf ca) = Ok m
    /\ forall y, Enrich.Meta.release_year m = Some y -> (1970 <= y <= 2100)%Z.
Proof.
  eexists. split; [apply value_fetch_app_meta|].
  unfold Enrich.meta_of. cbn [Enrich.Meta.release_year]. unfold at_return.
  destruct (Enrich.needs_store_page _ nsf ca).
  - apply after_store_page_year, after_appdetails_year.
  - apply after_appdetails_year.
Qed.

End MetaRequests.

(** ** Install sizes *)

Section Matches.

Import Regex.

Section Soundness.
Context {A : Type}.

Lemma try_down_sound (n lo : nat) (f : nat -> option A) (x : A) :
  try_down n lo f = Some x -> exists i, (lo <= i <= n)%nat /\ f i = Some x.
Proof.
  induction n as [|n IH]; simpl.
  - destruct (0 <? lo)%nat eqn:E; [discriminate|]. apply Nat.ltb_ge in E.
    destruct (f 0%nat) eqn:F; [|discriminate]. intros [= <-]. exists 0%nat. split; [lia|exact F].
  - destruct (S n <? lo)%nat eqn:E; [discriminate|]. apply Nat.ltb_ge in E.
    destruct (f (S n)) eqn:F.
    + intros [= <-]. exists (S n). split; [lia|exact F].
    + intros H. destruct (IH H) as (i & Hi & Fi). exists i. split; [lia|exact Fi].
Qed.

Lemma try_up_sound (k lo : nat) (f : nat -> option A) (x : A) :
  try_up k lo f = Some x -> exists i, (lo <= i <= lo + k)%nat /\ f i = Some x.
Proof.
  revert lo. induction k as [|k IH]; intros lo; simpl.
  - destruct (f lo) eqn:F; [|discriminate]. intros [= <-]. exists lo. split; [lia|exact F].
  - destruct (f lo) eqn:F.
    + intros [= <-]. exists lo. split; [lia|exact F].
    + intros H. destruct (IH _ H) as (i & Hi & Fi). exists i. split; [lia|exact Fi].
Qed.

Lemma mtch_sound (r : re) (c : cursor) (g : captures)
    (k : cursor -> captures -> option A) (x : A) :
  mtch r c g k = Some x -> exists c' g', spans r c g c' g' /\ k c' g' = Some x.
Proof.
  revert c g k. induction r as [|p|r1 IH1 r2 IH2|r1 IH1 r2 IH2|gr lo p|r1 IH1|m r1 IH1| |];
    intros c g k; cbn [mtch spans].
  - intros H. now exists c, g.
  - destruct (rest c) as [|a t] eqn:E; [discriminate|].
    destruct (p a) eqn:P; [|discriminate].
    destruct (step c) as [c'|] eqn:S; [|discriminate].
    intros H. exists c', g. repeat split; [|exact H]. exists a. now split.
  - intros H. apply IH1 in H. destruct H as (c1 & g1 & H1 & H).
    apply IH2 in H. destruct H as (c' & g' & H2 & H). exists c', g'. split; [|exact H].
    now exists c1, g1.
  - destruct (mtch r1 c g k) eqn:E.
    + intros [= <-]. apply IH1 in E. destruct E as (c' & g' & H1 & H). exists c', g'. tauto.
    + intros H. apply IH2 in H. destruct H as (c' & g' & H2 & H). exists c', g'. tauto.
  - destruct (run_length p (rest c) <? lo)%nat eqn:E; [discriminate|]. apply Nat.ltb_ge in E.
    destruct gr; intros H.
    + apply try_down_sound in H. destruct H as (i & Hi & H).
      exists (skip i c), g. split; [|exact H]. split; [|reflexivity]. now exists i.
    + apply try_up_sound in H. destruct H as (i & Hi & H).
      exists (skip i c), g. split; [|exact H]. split; [|reflexivity]. exists i. split; [lia|reflexivity].
  - destruct (mtch r1 c g k) eqn:E.
    + intros [= <-]. apply IH1 in E. destruct E as (c' & g' & H1 & H). exists c', g'. tauto.
    + intros H. exists c, g. tauto.
  - intros H. apply IH1 in H. destruct H as (c' & g1 & H1 & H).
    eexists c', _. split; [|exact H]. now exists g1.
  - destruct (pos c =? 0)%nat eqn:E; [|discriminate]. apply Nat.eqb_eq in E.
    intros H. exists c, g. repeat split; assumption.
  - destruct (at_word_boundary c) eqn:E; [|discriminate].
    intros H. exists c, g. repeat split; assumption.
Qed.

End Soundness.

Lemma match_at_sound (r : re) (c : cursor) (m : found) :
  match_at r c = Some m -> spans r c [] (m_end m) (m_groups m).
Proof.
  unfold match_at. intros H. apply mtch_sound in H.
  destruct H as (c' & g' & Hs & [= <-]). exact Hs.
Qed.

Lemma search_rest_sound (r : re) (l : list ascii) (p : nat) (pv : option ascii) (m : found) :
  search_rest r p pv l = Some m -> exists c, match_at r c = Some m.
Proof.
  revert p pv. induction l as [|a l IH]; intros p pv; cbn [search_rest].
  - destruct (match_at r (Cursor p pv [])) eqn:E; [|discriminate].
    intros [= <-]. eexists. exact E.
  - destruct (match_at r (Cursor p pv (a :: l))) eqn:E.
    + intros [= <-]. eexists. exact E.
    + apply IH.
Qed.

Lemma all_from_sound (fuel : nat) (r : re) (c : cursor) (m : found) :
  In m (all_from fuel r c) -> exists c0, match_at r c0 = Some m.
Proof.
  revert c. induction fuel as [|fuel IH]; intros c; cbn [all_from]; [intros []|].
  destruct (search_from r c) as [m0|] eqn:E; [|intros []].
  unfold search_from in E.
  destruct (pos (m_start m0) <? pos (m_end m0))%nat.
  - intros [<-|H]; [now apply search_rest_sound in E | now apply IH in H].
  - intros [<-|H]; [now apply search_rest_sound in E|].
    destruct (step (m_end m0)); [now apply IH in H | destruct H].
Qed.

Lemma find_all_sound (r : re) (s : string) (m : found) :
  In m (find_all r s) -> exists c, spans r c [] (m_end m) (m_groups m).
Proof.
  unfold find_all. intros H. apply all_from_sound in H. destruct H as (c & H).
  exists c. now apply match_at_sound.
Qed.

(** ** Cursors *)

Lemma reaches_refl (c : cursor) : reaches c c [].
Proof. split; [reflexivity | simpl; lia]. Qed.

Lemma reaches_trans (c c1 c' : cursor) (l1 l2 : list ascii) :
  reaches c c1 l1 -> reaches c1 c' l2 -> reaches c c' (l1 ++ l2).
Proof.
  intros [H1 P1] [H2 P2]. split.
  - now rewrite H1, H2, app_assoc.
  - rewrite length_app. lia.
Qed.

Lemma reaches_firstn (c c' : cursor) (l : list ascii) :
  reaches c c' l -> firstn (pos c' - pos c) (rest c) = l.
Proof.
  intros [H P]. rewrite H, P.
  replace (pos c + List.length l - pos c)%nat with (List.length l + 0)%nat by lia.
  rewrite firstn_app_2. cbn [firstn]. apply app_nil_r.
Qed.

Lemma step_reaches (c c' : cursor) (a : ascii) :
  hd_error (rest c) = Some a -> step c = Some c' -> reaches c c' [a].
Proof.
  unfold step. destruct c as [p pv [|b t]]; cbn; [discriminate|].
  intros [= ->] [= <-]. split; cbn; [reflexivity | lia].
Qed.

Lemma skip_run (p : cclass) (i : nat) (c : cursor) :
  (i <= run_length p (rest c))%nat ->
  exists l, reaches c (skip i c) l /\ List.length l = i /\ forallb p l = true.
Proof.
  revert c. induction i as [|i IH]; intros c H.
  - exists []. split; [apply reaches_refl | now split].
  - destruct c as [ps pv [|a t]]; cbn in H; [lia|].
    destruct (p a) eqn:P; [|lia].
    cbn [skip step rest].
    destruct (IH (Cursor (S ps) (Some a) t)) as (l & Hr & Hl & Hp); [cbn; lia|].
    exists (a :: l). split; [|split].
    + apply (reaches_trans _ (Cursor (S ps) (Some a) t) _ [a] l); [|exact Hr].
      split; cbn; [reflexivity | lia].
    + cbn. now rewrite Hl.
    + cbn. now rewrite P, Hp.
Qed.

Lemma spans_Rep (gr : bool) (lo : nat) (p : cclass) (c : cursor) (g : captures)
    (c' : cursor) (g' : captures) :
  spans (Rep gr lo p) c g c' g' ->
  exists l, reaches c c' l /\ g' = g /\ (lo <= List.length l)%nat /\ forallb p l = true.
Proof.
  intros [(i & Hi & ->) ->].
  destruct (skip_run p i c) as (l & Hr & Hl & Hp); [lia|].
  exists l. repeat split; [apply Hr | apply Hr | lia | exact Hp].
Qed.

Lemma spans_Chr (p : cclass) (c : cursor) (g : captures) (c' : cursor) (g' : captures) :
  spans (Chr p) c g c' g' -> exists a, reaches c c' [a] /\ g' = g /\ p a = true.
Proof.
  intros [(a & Ha & Hp) [Hs ->]]. exists a. split; [|now split].
  now apply step_reaches.
Qed.

Lemma spans_Grp (n : nat) (r : re) (c : cursor) (g : captures) (c' : cursor) (g' : captures)
    (P : list ascii -> Prop) :
  (forall c g c' g', spans r c g c' g' -> exists l, reaches c c' l /\ g' = g /\ P l) ->
  spans (Grp n r) c g c' g' ->
  exists l, reaches c c' l /\ g' = (n, Text.text l) :: g /\ P l.
Proof.
  intros Hr (g1 & H & ->). destruct (Hr _ _ _ _ H) as (l & Hl & -> & Hp).
  exists l. split; [exact Hl|]. split; [|exact Hp]. now rewrite (reaches_firstn _ _ _ Hl).
Qed.

(** A literal matched without regard to case. *)
Lemma spans_ci (xs : list ascii) (c : cursor) (g : captures) (c' : cursor) (g' : captures) :
  spans (seq (map (fun a => Chr (chr_ci a)) xs)) c g c' g' ->
  exists l, reaches c c' l /\ g' = g /\ Forall2 (fun a x => chr_ci x a = true) l xs.
Proof.
  revert c g. induction xs as [|x xs IH]; intros c g.
  - intros [-> ->]. exists []. split; [apply reaches_refl | now split].
  - intros (c1 & g1 & H1 & H2). apply spans_Chr in H1. destruct H1 as (a & Ha & -> & Hp).
    apply IH in H2. destruct H2 as (l & Hl & -> & Hf).
    exists (a :: l). split; [exact (reaches_trans _ _ _ [a] l Ha Hl)|]. split; [reflexivity|].
    now constructor.
Qed.

Lemma spans_unit (c : cursor) (g : captures) (c' : cursor) (g' : captures) :
  spans Enrich.unit_re c g c' g' -> exists l, reaches c c' l /\ g' = g /\ True.
Proof.
  unfold Enrich.unit_re, alts. cbn [fold_left]. intros [[[H|H]|H]|H];
    apply spans_ci in H; destruct H as (l & Hl & -> & _); now exists l.
Qed.

Lemma spans_number (c : cursor) (g : captures) (c' : cursor) (g' : captures) :
  spans Enrich.number_re c g c' g' ->
  exists l, reaches c c' l /\ g' = g /\ numeric l.
Proof.
  unfold Enrich.number_re. intros (c1 & g1 & H1 & H2).
  apply spans_Rep in H1. destruct H1 as (d1 & Hr1 & -> & _ & Hd1).
  destruct H2 as [(c2 & g2 & H2 & H3) | [-> ->]].
  - apply spans_Chr in H2. destruct H2 as (a & Ha & -> & Hp).
    apply spans_Rep in H3. destruct H3 as (d2 & Hr2 & -> & _ & Hd2).
    exists (d1 ++ [a] ++ d2). split; [|split; [reflexivity|]].
    + exact (reaches_trans _ _ _ _ _ Hr1 (reaches_trans _ _ _ _ _ Ha Hr2)).
    + intros b Hb. apply in_app_or in Hb. destruct Hb as [Hb|Hb].
      * left. exact (proj1 (forallb_forall _ _) Hd1 b Hb).
      * apply in_app_or in Hb. destruct Hb as [[<-|[]]|Hb].
        -- right. unfold is_chr in Hp. now apply Ascii.eqb_eq in Hp.
        -- left. exact (proj1 (forallb_forall _ _) Hd2 b Hb).
  - exists d1. split; [exact Hr1|]. split; [reflexivity|].
    intros b Hb. left. exact (proj1 (forallb_forall _ _) Hd1 b Hb).
Qed.

Lemma spans_size_tail (c : cursor) (g : captures) (c' : cursor) (g' : captures) :
  spans Enrich.size_tail c g c' g' ->
  exists num unit,
    g' = (2%nat, Text.text unit) :: (1%nat, Text.text num) :: g /\ numeric num.
Proof.
  unfold Enrich.size_tail, seq. cbn [fold_right].
  intros (c1 & g1 & H1 & c2 & g2 & H2 & c3 & g3 & H3 & c4 & g4 & H4 & c5 & g5 & H5
          & c6 & g6 & H6 & -> & ->).
  apply spans_Rep in H1. destruct H1 as (? & _ & -> & _).
  apply spans_Chr in H2. destruct H2 as (? & _ & -> & _).
  apply spans_Rep in H3. destruct H3 as (? & _ & -> & _).
  apply (spans_Grp _ _ _ _ _ _ numeric spans_number) in H4.
  destruct H4 as (num & _ & -> & Hn).
  apply spans_Rep in H5. destruct H5 as (? & _ & -> & _).
  apply (spans_Grp _ _ _ _ _ _ (fun _ => True) spans_unit) in H6.
  destruct H6 as (unit & _ & -> & _).
  now exists num, unit.
Qed.

Lemma spans_size_pattern (pat : re) (c : cursor) (g : captures) (c' : cursor)
    (g' : captures) :
  In pat Enrich.size_patterns -> spans pat c g c' g' ->
  exists c1 g1, spans Enrich.size_tail c1 g1 c' g'.
Proof.
  unfold Enrich.size_patterns. intros [<-|[<-|[<-|[]]]].
  - intros (c1 & g1 & _ & H). now exists c1, g1.
  - unfold seq. cbn [fold_right].
    intros (c1 & g1 & _ & c2 & g2 & _ & c3 & g3 & _ & c4 & g4 & H & -> & ->).
    now exists c3, g3.
  - unfold seq. cbn [fold_right].
    intros (c1 & g1 & _ & c2 & g2 & _ & c3 & g3 & _ & c4 & g4 & H & -> & ->).
    now exists c3, g3.
Qed.

(** ** Rounding *)

Lemma round_half_even_nonneg (q : Q) : (0 <= q)%Q -> (0 <= Num.round_half_even q)%Z.
Proof.
  destruct q as [n d]. unfold Qle, Num.round_half_even. cbn [Qnum Qden]. intros H.
  assert (Hn : (0 <= n)%Z) by lia.
  assert (Hf : (0 <= n / Z.pos d)%Z) by (apply Z.div_pos; lia).
  destruct (2 * (n mod Z.pos d) ?= Z.pos d)%Z; [destruct (Z.even _)| |]; lia.
Qed.

Lemma round2_nonneg (x : Q) : (0 <= x)%Q -> (0 <= Num.round2 x)%Q.
Proof.
  intros Hx. unfold Num.round2.
  assert (Hz : (0 <= Num.round_half_even (x * 100))%Z).
  { apply round_half_even_nonneg. nra. }
  rewrite Qred_correct. unfold Qle. cbn. lia.
Qed.

Lemma number_value_nonneg (l : list ascii) : numeric l -> (0 <= Enrich.number_value (Text.text l))%Q.
Proof.
  intros Hl. unfold Enrich.number_value.
  destruct (Num.float_of_string (Text.text l)) as [f|] eqn:E; [|apply Qle_refl].
  apply float_of_string_unsigned in E.
  - destruct E as [->|E]; [apply Qle_refl|].
    destruct f as [q| |]; try apply Qle_refl.
    unfold nonneg in E. cbn in E. now apply Qle_bool_iff in E.
  - apply take_sign_unsigned. intros a Ha. apply In_strip in Ha. rewrite chars_text in Ha.
    destruct (Hl a Ha) as [H| ->]; [|discriminate].
    intros ->. discriminate.
Qed.

(** Whatever the unit is taken to be, also when none of the three branches
    takes it. *)
Lemma size_in_gb_nonneg (num : list ascii) (unit : string) :
  numeric num -> (0 <= Enrich.size_in_gb (Text.text num) unit)%Q.
Proof.
  intros Hn. pose proof (number_value_nonneg num Hn) as Hv.
  unfold Enrich.size_in_gb, Utils.mb_gb, Utils.tb_gb.
  destruct (String.eqb _ "MB"); [|destruct (_ || _); [|destruct (String.eqb _ "TB")]];
    try (apply round2_nonneg); try exact Hv.
  - unfold Qdiv. assert (H : (0 <= / 1024)%Q) by (unfold Qle; cbn; lia). nra.
  - assert (H : (0 <= 1024)%Q) by (unfold Qle; cbn; lia). nra.
Qed.

Lemma size_phrases_nonneg (html : string) (v : Q) :
  In v (Enrich.size_phrases html) -> (0 <= v)%Q.
Proof.
  unfold Enrich.size_phrases. intros H. apply in_flat_map in H.
  destruct H as (pat & Hpat & H). apply in_map_iff in H. destruct H as (m & <- & Hm).
  apply find_all_sound in Hm. destruct Hm as (c & Hm).
  apply (spans_size_pattern pat _ _ _ _ Hpat) in Hm. destruct Hm as (c1 & g1 & Hm).
  apply spans_size_tail in Hm. destruct Hm as (num & unit & Hg & Hn).
  unfold group_or_empty. rewrite Hg. cbn [group Nat.eqb].
  now apply size_in_gb_nonneg.
Qed.

Lemma sized_parse (html : string) : sized (Enrich.parse_storage_requirement_gb_from_html html).
Proof.
  intros v H. unfold Enrich.parse_storage_requirement_gb_from_html in H.
  apply py_max_spec in H. destruct H as [H _]. now apply size_phrases_nonneg in H.
Qed.

Lemma sized_none : sized None.
Proof. intros v. discriminate. Qed.

Lemma sized_parse_size_of (v : json) (o : option Q) : Enrich.parse_size_of v = Ok o -> sized o.
Proof.
  unfold Enrich.parse_size_of. destruct v as [| | | |s| |]; try discriminate.
  intros [= <-]. apply sized_parse.
Qed.

Lemma sized_size_from_requirements (pc : json) (o : option Q) :
  Enrich.size_from_requirements pc = Ok o -> sized o.
Proof.
  unfold Enrich.size_from_requirements, and_then.
  destruct (Json.get pc "minimum") as [mnv|]; [|discriminate].
  destruct (Json.get pc "recommended") as [rcv|]; [|discriminate].
  destruct (Enrich.parse_size_of (Json.or_else mnv (JStr ""))) as [a|] eqn:E; [|discriminate].
  destruct (Enrich.size_truthy a).
  - intros [= <-]. now apply sized_parse_size_of in E.
  - apply sized_parse_size_of.
Qed.

(** X26. Whatever the text, a size that the size parser returns is not
    negative. *)
Theorem parsed_size_is_never_negative (html : string) (v : Q) :
  Enrich.parse_storage_requirement_gb_from_html html = Some v -> (0 <= v)%Q.
Proof. apply sized_parse. Qed.

End Matches.

Section SizeFlow.

Variable json_loads : string -> option json.
Variable n : network.

Lemma read_details_sized (d : json) (l : Enrich.meta_locals) :
  sized (Enrich.size_gb l) -> sized (Enrich.size_gb (snd (Enrich.read_details d l))).
Proof.
  intros Hl. unfold Enrich.read_details. run_locals.
  case_locals (Json.get d "type"); [|exact Hl].
  case_locals (Enrich.str_lower (Json.or_else a (JStr ""))); [|exact Hl].
  case_locals (Json.get d "release_date"); [|exact Hl].
  case_locals (Json.get (Json.or_else a1 (JDict [])) "coming_soon"); [|exact Hl].
  destruct (Json.truthy a2); run_locals.
  - case_locals (Json.get d "pc_requirements"); [|exact Hl].
    case_locals (Enrich.size_from_requirements (Json.or_else a3 (JDict []))); [|exact Hl].
    now apply sized_size_from_requirements in E4.
  - case_locals (Json.get (Json.or_else a1 (JDict [])) "date"); [|exact Hl].
    case_locals (Enrich.extract_year_of a3); [|exact Hl].
    case_locals (Json.get d "pc_requirements"); [|exact Hl].
    case_locals (Enrich.size_from_requirements (Json.or_else a5 (JDict []))); [|exact Hl].
    now apply sized_size_from_requirements in E6.
Qed.

Lemma after_appdetails_sized (appid : string) :
  sized (Enrich.size_gb (after_appdetails json_loads n appid)).
Proof.
  unfold after_appdetails.
  rewrite (swallow_ok _ _ (safe_appdetails_step json_loads n appid)). cbn [snd].
  unfold Enrich.appdetails_step, Enrich.net, zoom, bind, fresh_locals. cbn [Enrich.log].
  destruct (Enrich.request_details json_loads n appid []) as [[[d|]|e] lg]; cbn [fst snd];
    try apply sized_none.
  apply read_details_sized, sized_none.
Qed.

Lemma after_store_page_sized (appid : string) (nsf : bool) (l : Enrich.meta_locals) :
  sized (Enrich.size_gb l) -> sized (Enrich.size_gb (after_store_page n appid nsf l)).
Proof.
  intros Hl. unfold after_store_page.
  rewrite (swallow_ok _ _ (safe_store_page_step n appid nsf)).
  unfold Enrich.store_page_step, Enrich.net, zoom, bind, Utils.http_get_store,
    Utils.session_get, Utils.raise_for_status, get_state, modify, ret, raise.
  destruct l as [t y v d lg].
  cbn [Enrich.log Enrich.app_type Enrich.release_year Enrich.size_gb Enrich.delisted
       Enrich.set_log fst snd] in *.
  destruct (n (Enrich.STORE_PAGE appid)) as [r2|]; [|exact Hl].
  destruct ((400 <=? status r2)%Z && (status r2 <? 600)%Z); [exact Hl|].
  destruct t, y, v, d, nsf;
    cbn [Enrich.is_none Enrich.log Enrich.app_type Enrich.release_year Enrich.size_gb
         Enrich.delisted Enrich.set_log Enrich.set_app_type Enrich.set_release_year
         Enrich.set_size_gb Enrich.set_delisted fst snd andb];
    try destruct (Regex.search Enrich._RELEASE_BLOCK (body r2));
    cbn [Enrich.is_none Enrich.log Enrich.app_type Enrich.release_year Enrich.size_gb
         Enrich.delisted Enrich.set_log Enrich.set_app_type Enrich.set_release_year
         Enrich.set_size_gb Enrich.set_delisted fst snd andb];
    first [exact Hl | apply sized_parse | apply sized_none].
Qed.

(** X27. Metadata resolution always returns, and an install size that it
    reports is not negative, whatever the upstream answers. *)
Theorem reported_size_is_never_negative (appid : string) (nsf ca : bool) :
  exists m,
    value (Enrich.fetch_app_meta json_loads n appid nsf ca) = Ok m
    /\ forall v, Enrich.Meta.approx_install_size_gb m = Some v -> (0 <= v)%Q.
Proof.
  eexists. split; [apply value_fetch_app_meta|].
  unfold Enrich.meta_of. cbn [Enrich.Meta.approx_install_size_gb].
  assert (H : sized (Enrich.size_gb (at_return json_loads n appid nsf ca))).
  { unfold at_return. destruct (Enrich.needs_store_page _ nsf ca).
    - apply after_store_page_sized, after_appdetails_sized.
    - apply after_appdetails_sized. }
  destruct (Enrich.size_gb (at_return json_loads n appid nsf ca)) as [q|];
    cbn [Enrich.size_truthy]; [|discriminate].
  destruct (Qeq_bool q 0); cbn [negb]; [discriminate|].
  intros v [= <-]. apply round2_nonneg. now apply H.
Qed.

End SizeFlow.

(** ** Tags *)

Section Tags.

Import Regex.

Lemma run_length_split (p : cclass) (l : list ascii) :
  exists l1 l2,
    l = l1 ++ l2 /\ List.length l1 = run_length p l /\ forallb p l1 = true
    /\ run_length p l2 = 0%nat /\ skipn (run_length p l) l = l2.
Proof.
  induction l as [|a l (l1 & l2 & H1 & H2 & H3 & H4 & H5)].
  - exists [], []. cbn. tauto.
  - cbn [run_length]. destruct (p a) eqn:P.
    + exists (a :: l1), l2. cbn. rewrite P, H3, H2. repeat split; try tauto.
      now rewrite H1 at 1.
    + exists [], (a :: l). cbn. rewrite P. tauto.
Qed.

Lemma run_length_0 (p : cclass) (l : list ascii) :
  run_length p l = 0%nat -> l = [] \/ exists a t, l = a :: t /\ p a = false.
Proof.
  destruct l as [|a t]; [now left|]. cbn. destruct (p a) eqn:P; [discriminate|].
  intros _. right. now exists a, t.
Qed.

(** The shape of a text at whose head a tag stands. *)
Lemma opens_shape (l : list ascii) :
  opens l = true <->
  exists run t, l = "<"%char :: run ++ ">"%char :: t /\ run <> []
                /\ forallb (not_chr ">") run = true.
Proof.
  split.
  - destruct l as [|a x]; [discriminate|]. cbn [opens]. intros H.
    apply andb_true_iff in H. destruct H as [H H3].
    apply andb_true_iff in H. destruct H as [H1 H2].
    apply Ascii.eqb_eq in H1. subst a. apply Nat.leb_le in H2.
    destruct (run_length_split (not_chr ">") x) as (l1 & l2 & E1 & E2 & E3 & E4 & E5).
    rewrite E5 in H3. destruct l2 as [|b t]; [discriminate|].
    apply run_length_0 in E4. destruct E4 as [E4|(b' & t' & [= <- <-] & E4)]; [discriminate|].
    unfold not_chr in E4. apply negb_false_iff, Ascii.eqb_eq in E4. subst b.
    exists l1, t. split; [now rewrite E1|]. split; [|exact E3].
    intros ->. cbn in E2. lia.
  - intros (run & t & -> & Hne & Hrun). cbn [opens].
    rewrite (run_length_all _ _ _ Hrun). cbn [run_length]. 
    change (not_chr ">" ">"%char) with false. cbv iota. rewrite Nat.add_0_r.
    replace (skipn (List.length run) (run ++ ">"%char :: t)) with (">"%char :: t).
    + destruct run; [congruence|]. reflexivity.
    + rewrite skipn_app, skipn_all, Nat.sub_diag. reflexivity.
Qed.

Lemma match_at_tag_shape (c : cursor) (m : found) :
  match_at Utils.tag_re c = Some m -> opens (rest c) = true.
Proof.
  intros H. apply match_at_sound in H. unfold Utils.tag_re, seq in H. cbn [fold_right] in H.
  destruct H as (c1 & g1 & H1 & c2 & g2 & H2 & c3 & g3 & H3 & _).
  apply spans_Chr in H1. destruct H1 as (a & [Ha _] & _ & Pa).
  apply spans_Rep in H2. destruct H2 as (run & [Hr _] & _ & Hl & Hp).
  apply spans_Chr in H3. destruct H3 as (b & [Hb _] & _ & Pb).
  unfold is_chr in Pa, Pb. apply Ascii.eqb_eq in Pa, Pb. subst a b.
  apply opens_shape. exists run, (rest c3). split.
  - rewrite Ha. cbn [app]. now rewrite Hr, Hb.
  - split; [|exact Hp]. intros ->. cbn in Hl. lia.
Qed.

Lemma match_at_tag (run t : list ascii) (p : nat) (pv : option ascii) :
  run <> [] -> forallb (not_chr ">") run = true ->
  exists e,
    match_at Utils.tag_re (Cursor p pv ("<"%char :: run ++ ">"%char :: t))
    = Some (Found (Cursor p pv ("<"%char :: run ++ ">"%char :: t)) e [])
    /\ rest e = t /\ (p < pos e)%nat.
Proof.
  intros Hne Hrun. eexists. split; [|split].
  - unfold match_at, Utils.tag_re, seq. cbn [fold_right].
    apply step_Cat, step_Chr; [reflexivity|].
    apply step_Cat, (step_Rep _ _ _ _ _ run (">"%char :: t)); [exact Hrun | reflexivity | |].
    { destruct run; [congruence | cbn; lia]. }
    apply step_Cat, step_Chr; [reflexivity|]. apply step_Eps. reflexivity.
  - reflexivity.
  - cbn. lia.
Qed.

(** The leftmost tag, if there is one. *)
Lemma search_tag (l : list ascii) (p : nat) (pv : option ascii) :
  (has_tag l = false /\ search_rest Utils.tag_re p pv l = None)
  \/ exists pre s m,
       l = pre ++ s /\ no_tag_before pre s /\ opens s = true
       /\ search_rest Utils.tag_re p pv l = Some m
       /\ rest (m_start m) = s /\ pos (m_start m) = (p + List.length pre)%nat
       /\ (pos (m_start m) < pos (m_end m))%nat
       /\ exists run, s = "<"%char :: run ++ ">"%char :: rest (m_end m).
Proof.
  revert p pv. induction l as [|a l IH]; intros p pv.
  - left. split; [reflexivity|]. cbn.
    destruct (match_at Utils.tag_re (Cursor p pv [])) eqn:E; [|reflexivity].
    apply match_at_tag_shape in E. discriminate.
  - cbn [search_rest has_tag]. destruct (opens (a :: l)) eqn:O.
    + right. pose proof O as O'. apply opens_shape in O'.
      destruct O' as (run & t & E & Hne & Hrun).
      destruct (match_at_tag run t p pv Hne Hrun) as (e & Hm & He & Hp).
      exists [], (a :: l), (Found (Cursor p pv (a :: l)) e []).
      rewrite E in *. rewrite Hm. cbn. repeat split; try lia; try assumption.
      exists run. now rewrite He.
    + destruct (match_at Utils.tag_re (Cursor p pv (a :: l))) eqn:E.
      { apply match_at_tag_shape in E. cbn [rest] in E. congruence. }
      destruct (IH (S p) (Some a))
        as [[H1 H2]|(pre & s & m & H1 & H2 & H3 & H4 & H5 & H6 & H7 & H8)].
      * left. now split.
      * right. exists (a :: pre), s, m. subst l. cbn [app no_tag_before List.length].
        repeat split; try assumption. lia.
Qed.

Lemma opens_no_close (x : list ascii) :
  opens ("<"%char :: x) = false -> In ">"%char x -> exists x', x = ">"%char :: x'.
Proof.
  cbn [opens]. change (Ascii.eqb "<"%char "<"%char) with true. cbn [andb]. intros H Hin.
  destruct (run_length_split (not_chr ">") x) as (l1 & l2 & E1 & E2 & E3 & E4 & E5).
  rewrite E5 in H.
  assert (Hl2 : l2 <> []).
  { intros ->. rewrite app_nil_r in E1. subst l1.
    pose proof (proj1 (forallb_forall _ _) E3 _ Hin) as F. discriminate. }
  destruct l2 as [|b t]; [congruence|]. rewrite andb_true_r in H.
  apply Nat.leb_gt in H. rewrite <- E2 in H. destruct l1; [|cbn in H; lia].
  apply run_length_0 in E4. destruct E4 as [E4|(b' & t' & [= <- <-] & E4)]; [discriminate|].
  unfold not_chr in E4. apply negb_false_iff, Ascii.eqb_eq in E4. subst b.
  now exists t.
Qed.

Lemma no_tag_glue (pre run t out : list ascii) :
  no_tag_before pre ("<"%char :: run ++ ">"%char :: t) -> has_tag out = false ->
  has_tag (pre ++ " "%char :: out) = false.
Proof.
  intros Hpre Hout. induction pre as [|a q IH].
  - cbn [app has_tag opens]. exact Hout.
  - destruct Hpre as [Ho Hq]. cbn [app has_tag]. rewrite (IH Hq), orb_false_r.
    destruct (Ascii.eqb_spec a "<") as [->|Hne].
    + destruct (opens_no_close _ Ho) as (x' & Hx).
      { apply in_or_app. right. right. apply in_or_app. right. now left. }
      destruct q as [|b q']; [discriminate|]. cbn [app] in Hx. injection Hx as -> _.
      reflexivity.
    + cbn [opens]. apply Ascii.eqb_neq in Hne. now rewrite Hne.
Qed.

Lemma sub_from_no_tag (fuel : nat) (c : cursor) :
  (List.length (rest c) < fuel)%nat ->
  has_tag (sub_from (all_from fuel Utils.tag_re c) (fun _ => Text.chars " ") c) = false.
Proof.
  revert c. induction fuel as [|fuel IH]; intros c Hf; [lia|].
  cbn [all_from]. unfold search_from.
  destruct (search_tag (rest c) (pos c) (prev c))
    as [[H1 H2]|(pre & s & m & H1 & H2 & H3 & H4 & H5 & H6 & H7 & run & H8)].
  - rewrite H2. exact H1.
  - rewrite H4. apply Nat.ltb_lt in H7. rewrite H7. cbn [sub_from].
    unfold between. rewrite H6, H1.
    replace (pos c + List.length pre - pos c)%nat with (List.length pre + 0)%nat by lia.
    rewrite firstn_app_2. cbn [firstn]. rewrite app_nil_r.
    change (Text.chars " ") with [" "%char]. cbn [app].
    rewrite H8 in H2. apply (no_tag_glue pre run _ _ H2). apply IH.
    rewrite H1, H8 in Hf. rewrite length_app in Hf. cbn [List.length] in Hf.
    rewrite length_app in Hf. cbn [List.length] in Hf. lia.
Qed.

Lemma search_rest_no_tag (l : list ascii) (p : nat) (pv : option ascii) :
  has_tag l = false -> search_rest Utils.tag_re p pv l = None.
Proof.
  intros H. destruct (search_tag l p pv) as [[_ H2]|(pre & s & m & H1 & H2 & H3 & _)];
    [exact H2|]. exfalso. subst l. clear H2.
  induction pre as [|a q IH]; cbn [app has_tag] in H.
  - destruct s; [discriminate|]. cbn [has_tag] in H. rewrite H3 in H. discriminate.
  - apply orb_false_iff in H. destruct H as [_ H]. now apply IH.
Qed.

Lemma sub_from_length (fuel : nat) (c : cursor) :
  (List.length (sub_from (all_from fuel Utils.tag_re c) (fun _ => Text.chars " ") c)
   <= List.length (rest c))%nat.
Proof.
  revert c. induction fuel as [|fuel IH]; intros c; [cbn; lia|].
  cbn [all_from]. unfold search_from.
  destruct (search_tag (rest c) (pos c) (prev c))
    as [[H1 H2]|(pre & s & m & H1 & H2 & H3 & H4 & H5 & H6 & H7 & run & H8)].
  - rewrite H2. cbn. lia.
  - rewrite H4. apply Nat.ltb_lt in H7. rewrite H7. cbn [sub_from].
    unfold between. rewrite H6, H1.
    replace (pos c + List.length pre - pos c)%nat with (List.length pre + 0)%nat by lia.
    rewrite firstn_app_2. cbn [firstn]. rewrite app_nil_r.
    pose proof (IH (m_end m)) as Hl. rewrite H8.
    change (Text.chars " ") with [" "%char] in *.
    rewrite !length_app. cbn [List.length]. rewrite length_app. cbn [List.length]. lia.
Qed.

Lemma length_chars (s : string) : List.length (Text.chars s) = String.length s.
Proof. induction s as [|a s IH]; cbn; [reflexivity | now rewrite <- IH]. Qed.

(** X28. The text that [strip_html] returns holds no tag: a search for
    one finds nothing, and stripping it again changes nothing.  It is never
    longer than the text given. *)
Theorem strip_html_leaves_no_tag (s : string) :
  search Utils.tag_re (Utils.strip_html s) = None
  /\ Utils.strip_html (Utils.strip_html s) = Utils.strip_html s
  /\ (String.length (Utils.strip_html s) <= String.length s)%nat.
Proof.
  assert (H : has_tag (Text.chars (Utils.strip_html s)) = false).
  { unfold Utils.strip_html, sub, sub_with, find_all. rewrite chars_text.
    apply sub_from_no_tag. cbn [start rest]. rewrite length_chars. lia. }
  assert (Hs : search Utils.tag_re (Utils.strip_html s) = None).
  { unfold search, search_from, start. cbn [pos prev rest]. now apply search_rest_no_tag. }
  split; [exact Hs|]. split.
  - set (t := Utils.strip_html s) in *.
    unfold Utils.strip_html, sub, sub_with, find_all. cbn [all_from].
    unfold search in Hs. rewrite Hs. cbn [sub_from start rest]. apply text_chars.
  - rewrite <- !length_chars. unfold Utils.strip_html, sub, sub_with, find_all.
    rewrite chars_text. apply (sub_from_length _ (start s)).
Qed.

End Tags.

(** ** News *)

Lemma year_of_days_epoch (days : Z) : (0 <= days)%Z -> (1970 <= Enrich.year_of_days days)%Z.
Proof.
  intros H. unfold Enrich.year_of_days. cbv zeta.
  match goal with |- context [(?a <? 10)%Z] => destruct (Z.ltb_spec a 10) end;
    Z.to_euclidean_division_equations; lia.
Qed.

Lemma scan_news_step (it : json) (more : list json) (b f : option Z) :
  Enrich.scan_news (it :: more) b f
  = match news_item it with
    | Raise e => Raise e
    | Ok (ts, m) =>
        Enrich.scan_news more
          (if m && Enrich.newer ts b then Some ts else b)
          (if (0 <? ts)%Z && Enrich.newer ts f then Some ts else f)
    end.
Proof.
  cbn [Enrich.scan_news]. unfold news_item.
  destruct (Json.get it "date") as [dv|]; [|reflexivity].
  destruct (Json.get it "title") as [tv|]; [|reflexivity].
  destruct (Json.get it "contents") as [cv|]; [|reflexivity].
  destruct (Json.get it "tags") as [gv|]; [|reflexivity].
  destruct (Json.to_int _) as [ts|]; [|reflexivity].
  destruct (0 <? ts)%Z eqn:E; [|cbv beta iota; now rewrite E].
  destruct (Enrich.keywords_in (Json.or_else tv _)) as [[|]|];
    try (cbv beta iota; now rewrite ?E).
  destruct (Enrich.keywords_in (Json.or_else cv _)) as [[|]|];
    try (cbv beta iota; now rewrite ?E).
  destruct (Enrich.has_patchnotes_tag _) as [b0|]; cbv beta iota; now rewrite ?E.
Qed.

Lemma news_item_matched (it : json) (ts : Z) :
  news_item it = Ok (ts, true) -> (0 < ts)%Z.
Proof.
  unfold news_item.
  destruct (Json.get it "date") as [dv|]; [|discriminate].
  destruct (Json.get it "title") as [tv|]; [|discriminate].
  destruct (Json.get it "contents") as [cv|]; [|discriminate].
  destruct (Json.get it "tags") as [gv|]; [|discriminate].
  destruct (Json.to_int _) as [t|]; [|discriminate].
  destruct (Z.ltb_spec 0 t) as [Hpos|]; [|discriminate].
  intros H. assert (t = ts); [|lia].
  destruct (Enrich.keywords_in (Json.or_else tv _)) as [[|]|]; try congruence.
  destruct (Enrich.keywords_in (Json.or_else cv _)) as [[|]|]; try congruence.
  destruct (Enrich.has_patchnotes_tag _) as [b0|]; congruence.
Qed.

Lemma newest_of_step (o : option Z) (l : list Z) (ts : Z) (take : bool) :
  newest_of o l -> (take = true -> (0 < ts)%Z) ->
  newest_of (if take && Enrich.newer ts o then Some ts else o)
            (if take then l ++ [ts] else l).
Proof.
  intros Ho Ht. destruct take; cbn [andb]; [|exact Ho]. specialize (Ht eq_refl).
  unfold Enrich.newer, newest_of in *. destruct o as [m|].
  - destruct Ho as (Hin & Hpos & Hmax). destruct (Z.ltb_spec m ts).
    + split; [apply in_or_app; right; now left|]. split; [exact Ht|].
      intros x Hx. apply in_app_or in Hx. destruct Hx as [Hx|[<-|[]]]; [|lia].
      specialize (Hmax x Hx). lia.
    + split; [apply in_or_app; now left|]. split; [exact Hpos|].
      intros x Hx. apply in_app_or in Hx. destruct Hx as [Hx|[<-|[]]]; [auto | lia].
  - split; [apply in_or_app; right; now left|]. split; [exact Ht|].
    intros x Hx. apply in_app_or in Hx. destruct Hx as [Hx|[<-|[]]]; [|lia].
    specialize (Ho x Hx). lia.
Qed.

Lemma newest_of_skip (o : option Z) (l : list Z) (ts : Z) :
  newest_of o l -> (ts <= 0)%Z -> newest_of o (l ++ [ts]).
Proof.
  intros Ho Ht. unfold newest_of in *. destruct o as [m|].
  - destruct Ho as (Hin & Hpos & Hmax). split; [apply in_or_app; now left|].
    split; [exact Hpos|]. intros x Hx. apply in_app_or in Hx.
    destruct Hx as [Hx|[<-|[]]]; [auto | lia].
  - intros x Hx. apply in_app_or in Hx. destruct Hx as [Hx|[<-|[]]]; [auto | lia].
Qed.

Lemma scan_news_newest (items : list json) :
  forall (facts : list (Z * bool)) (b f : option Z) (seenb seenf : list Z),
    Forall2 (fun it x => news_item it = Ok x) items facts ->
    newest_of b seenb -> newest_of f seenf ->
    exists best fallback,
      Enrich.scan_news items b f = Ok (best, fallback)
      /\ newest_of best (seenb ++ map fst (List.filter snd facts))
      /\ newest_of fallback (seenf ++ map fst facts).
Proof.
  induction items as [|it more IH]; intros facts b f seenb seenf HF Hb Hf.
  - inversion HF; subst. exists b, f. cbn. rewrite !app_nil_r. now repeat split.
  - inversion HF as [|? [ts m] ? facts' Hit HF']; subst.
    rewrite scan_news_step, Hit.
    assert (Hb' : newest_of (if m && Enrich.newer ts b then Some ts else b)
                            (if m then seenb ++ [ts] else seenb)).
    { apply newest_of_step; [exact Hb|]. intros ->. now apply (news_item_matched it). }
    assert (Hf' : newest_of (if (0 <? ts)%Z && Enrich.newer ts f then Some ts else f)
                            (seenf ++ [ts])).
    { destruct (Z.ltb_spec 0 ts) as [Hpos|Hneg].
      - apply (newest_of_step f seenf ts true); auto.
      - cbn [andb]. now apply newest_of_skip. }
    destruct (IH facts' _ _ _ _ HF' Hb' Hf') as (best & fb & Hs & H1 & H2).
    exists best, fb. split; [exact Hs|]. cbn [List.filter map snd fst].
    split.
    + destruct m; cbn [map fst]; [now rewrite <- app_assoc in H1 | exact H1].
    + now rewrite <- app_assoc in H2.
Qed.

(** X14. When every news item can be read, the scan ends with [best_ts]
    the largest positive date among the items that look like an update and
    [fallback_ts] the largest positive date of all, each absent when there is
    no such date; a [best_ts] is never later than the [fallback_ts]. *)
Theorem newest_update_wins (items : list json) (facts : list (Z * bool)) :
  Forall2 (fun it x => news_item it = Ok x) items facts ->
  exists best fallback,
    Enrich.scan_news items None None = Ok (best, fallback)
    /\ newest_of best (map fst (List.filter snd facts))
    /\ newest_of fallback (map fst facts)
    /\ (forall b, best = Some b -> exists fb, fallback = Some fb /\ (b <= fb)%Z).
Proof.
  intros HF.
  destruct (scan_news_newest items facts None None [] [] HF) as (best & fb & Hs & H1 & H2);
    [intros x [] | intros x [] |].
  exists best, fb. cbn [app] in *. split; [exact Hs|]. split; [exact H1|]. split; [exact H2|].
  intros b ->. destruct H1 as (Hin & Hpos & _).
  assert (Hin' : In b (map fst facts)).
  { apply in_map_iff in Hin. destruct Hin as (x & <- & Hx). apply filter_In in Hx.
    apply in_map. tauto. }
  destruct fb as [m|]; cbn in H2.
  - exists m. split; [reflexivity|]. now apply H2.
  - specialize (H2 b Hin'). lia.
Qed.

Lemma scan_news_positive (items : list json) :
  forall b f r,
    after_epoch b -> after_epoch f -> Enrich.scan_news items b f = Ok r ->
    after_epoch (fst r) /\ after_epoch (snd r).
Proof.
  induction items as [|it more IH]; intros b f r Hb Hf.
  - cbn. intros [= <-]. now split.
  - rewrite scan_news_step. destruct (news_item it) as [[ts m]|] eqn:Hit; [|discriminate].
    apply IH.
    + destruct m; cbn [andb]; [|exact Hb].
      destruct (Enrich.newer ts b); [|exact Hb].
      intros v [= <-]. now apply (news_item_matched it).
    + destruct (Z.ltb_spec 0 ts); cbn [andb]; [|exact Hf].
      destruct (Enrich.newer ts f); [|exact Hf]. now intros v [= <-].
Qed.

Section News.

Variable json_loads : string -> option json.
Variable n : network.

Lemma safe_last_update_query (appid : string) (count : Z) :
  safe (Enrich.last_update_query json_loads n appid count).
Proof.
  unfold Enrich.last_update_query, Enrich.response_json, Utils.http_get_api.
  pose proof catchable_scan_news. pose proof catchable_year_of_timestamp. safe_tac.
Qed.

Lemma last_update_query_year (appid : string) (count : Z) (log l : list request) (v : Z) :
  Enrich.last_update_query json_loads n appid count log = (Ok (Some v), l) ->
  (1970 <= v <= 9999)%Z.
Proof.
  unfold Enrich.last_update_query, bind, Utils.http_get_api, Utils.session_get,
    Utils.raise_for_status, Enrich.response_json, lift, ret, raise.
  destruct (n _) as [r|]; [|discriminate].
  destruct (_ && _); [discriminate|].
  destruct (json_loads _) as [j|]; [|discriminate].
  destruct (Json.get (Json.or_else j _) _) as [news|]; [|discriminate].
  destruct (Json.get (Json.or_else news _) _) as [itemsv|]; [|discriminate].
  destruct (Json.truthy _); [|discriminate].
  destruct (Json.or_else itemsv _) as [| | | | |items|]; try discriminate.
  destruct (Enrich.scan_news items None None) as [[best fb]|] eqn:Hs; [|discriminate].
  destruct (scan_news_positive items None None _ ltac:(discriminate) ltac:(discriminate) Hs)
    as [Hb Hf].
  cbn [fst snd] in *.
  assert (Hyear : forall ts, (0 < ts)%Z -> Enrich.year_of_timestamp ts = Ok v ->
                             (1970 <= v <= 9999)%Z).
  { intros ts Hts. unfold Enrich.year_of_timestamp.
    destruct (Z.leb_spec (Enrich.year_of_days (ts / 86400)) 9999); [|discriminate].
    intros [= <-]. split; [|assumption]. apply year_of_days_epoch.
    apply Z.div_pos; lia. }
  destruct best as [b|].
  - destruct (Enrich.year_of_timestamp b) eqn:Hy; [|discriminate].
    intros [= -> _]. apply (Hyear b); auto.
  - destruct fb as [fb|]; [|discriminate].
    destruct (Enrich.year_of_timestamp fb) eqn:Hy; [|discriminate].
    intros [= -> _]. apply (Hyear fb); auto.
Qed.

(** X15. The news lookup makes exactly one request, on the API bucket,
    whatever comes back, and raises nothing; a year it returns lies between
    1970 and 9999. *)
Theorem news_lookup_is_one_request (appid : string) :
  requests (Enrich.fetch_last_update_year json_loads n appid)
  = [Request (Some Api) (Enrich.GET_NEWS_V2 appid 60)]
  /\ exists y,
       value (Enrich.fetch_last_update_year json_loads n appid) = Ok y
       /\ forall v, y = Some v -> (1970 <= v <= 9999)%Z.
Proof.
  split.
  - unfold requests, run, Enrich.fetch_last_update_year, Enrich.last_update_query,
      Utils.http_get_api.
    rewrite one_request; [reflexivity | | intros e; apply silent_ret].
    intros r. unfold Enrich.response_json. silent_tac.
  - unfold value, run, Enrich.fetch_last_update_year, try_except.
    pose proof (safe_last_update_query appid 60 []) as Hsafe.
    destruct (Enrich.last_update_query json_loads n appid 60 []) as [[y|e] l] eqn:Hq.
    + exists y. split; [reflexivity|]. intros v ->.
      exact (last_update_query_year _ _ _ _ _ Hq).
    + cbn in Hsafe. rewrite Hsafe. exists None. split; [reflexivity | discriminate].
Qed.

End News.

(** ** The stages of the pipeline *)

Section Routing.

Variable urlparse : string -> result InputParser.parsed_url.
Variable xml_fromstring : string -> option xml.
Variable json_loads : string -> option json.
Variable py_str : json -> string.
Variable n : network.
Variable out_name : string.

Lemma routed_fetch_app_meta (appid : string) (nsf ca : bool) :
  emits id routed (Enrich.fetch_app_meta json_loads n appid nsf ca).
Proof.
  assert (H : emits Enrich.log routed (Enrich.fetch_app_meta_body json_loads n appid nsf ca)).
  { unfold Enrich.fetch_app_meta_body, Enrich.swallow, Enrich.appdetails_step,
      Enrich.store_page_step, Enrich.request_details, Enrich.read_details,
      Enrich.response_json, Utils.http_get_store.
    emits_tac. }
  intros log0. unfold Enrich.fetch_app_meta.
  destruct (H (Enrich.Locals None None None None log0)) as (new & Hn & F).
  destruct (Enrich.fetch_app_meta_body _ _ _ _ _ _) as [r l]. now exists new.
Qed.

Lemma routed_fetch_review_summary (appid : string) (dr : Z) :
  emits id routed (Enrich.fetch_review_summary json_loads n appid dr).
Proof.
  unfold Enrich.fetch_review_summary, Enrich.attempt, Enrich.review_query,
    Enrich.response_json, Utils.http_get_store.
  emits_tac.
Qed.

Lemma routed_fetch_last_update_year (appid : string) :
  emits id routed (Enrich.fetch_last_update_year json_loads n appid).
Proof.
  unfold Enrich.fetch_last_update_year, Enrich.last_update_query, Enrich.response_json,
    Utils.http_get_api.
  emits_tac.
Qed.

Lemma community_get_owned (sid : string) :
  emits id community
    (SteamFetch.get_owned_games_for_steamid xml_fromstring json_loads py_str n sid).
Proof.
  unfold SteamFetch.get_owned_games_for_steamid, SteamFetch.build_profile_urls,
    SteamFetch.fetch_games_xml, SteamFetch.fetch_games_html_rg, SteamFetch.loads_or_raise,
    InputParser.parse_xml.
  emits_tac; apply emits_session_get; split; reflexivity.
Qed.

Lemma community_normalize (val : string) :
  emits id community (InputParser.normalize_to_steamid64 urlparse xml_fromstring n val).
Proof.
  unfold InputParser.normalize_to_steamid64, InputParser.resolve_vanity, InputParser.parse_xml.
  emits_tac; apply emits_session_get; split; reflexivity.
Qed.

Lemma community_parse_lines (lines : list string) (seen : gset string)
    (out : list InputParser.entry) :
  emits id community (InputParser.parse_lines urlparse xml_fromstring n lines seen out).
Proof.
  revert seen out. induction lines as [|raw more IH]; intros seen out; cbn [InputParser.parse_lines].
  - apply emits_ret.
  - pose proof community_normalize. emits_tac; auto.
Qed.

Lemma community_fetch_libraries (entries : list InputParser.entry) (st : Pipeline.libraries) :
  emits id community
    (Pipeline.fetch_libraries xml_fromstring json_loads py_str n entries st).
Proof.
  revert st. induction entries as [|e more IH]; intros st; cbn [Pipeline.fetch_libraries].
  - apply emits_ret.
  - pose proof community_get_owned. emits_tac; auto.
Qed.

Lemma routed_fetch_metas (appids : list string) (nsf : bool) :
  emits id routed (Pipeline.fetch_metas json_loads n appids nsf).
Proof.
  induction appids as [|a more IH]; cbn [Pipeline.fetch_metas].
  - apply emits_ret.
  - pose proof routed_fetch_app_meta. emits_tac; auto.
Qed.

Lemma routed_enrich_all (cfg : Pipeline.Config) (targets : list string) :
  emits id routed (Pipeline.enrich_all json_loads n cfg targets).
Proof.
  induction targets as [|a more IH]; cbn [Pipeline.enrich_all].
  - apply emits_ret.
  - pose proof routed_fetch_review_summary. pose proof routed_fetch_last_update_year.
    unfold Pipeline.enrich_one. emits_tac; auto.
Qed.

(** X21. In every run of the pipeline, whatever the upstream answers, each
    request waits on the bucket of the host it goes to: the store bucket for
    store.steampowered.com, the API bucket for api.steampowered.com, and no
    bucket at all for steamcommunity.com.  The community bucket is never
    used. *)
Theorem requests_wait_on_the_bucket_of_their_host (cfg : Pipeline.Config) :
  Forall (fun r => well_routed r = true)
    (requests (Pipeline.run_pipeline urlparse xml_fromstring json_loads py_str n out_name cfg))
  /\ Forall (fun r => throttled r <> Some Community)
       (requests (Pipeline.run_pipeline urlparse xml_fromstring json_loads py_str n out_name cfg)).
Proof.
  assert (H : emits id routed
    (Pipeline.run_pipeline urlparse xml_fromstring json_loads py_str n out_name cfg)).
  { unfold Pipeline.run_pipeline, InputParser.parse_ids_file.
    pose proof (fun l s o => emits_weaken id community routed _ (fun r => @proj2 _ _)
                               (community_parse_lines l s o)).
    pose proof (fun e st => emits_weaken id community routed _ (fun r => @proj2 _ _)
                               (community_fetch_libraries e st)).
    pose proof routed_fetch_metas. pose proof routed_enrich_all.
    emits_tac; auto. }
  apply emits_requests in H. split; [exact H|].
  eapply Forall_impl; [exact H|]. intros [[[| |]|] u] Hr; cbn; try discriminate.
Qed.

Local Abbreviation fetched_by sid := (fetched xml_fromstring json_loads py_str n sid).
Local Abbreviation lacks_games := (no_games xml_fromstring json_loads py_str n).

Lemma fetch_libraries_accounts (entries : list InputParser.entry) (st : Pipeline.libraries)
    (log : list request) :
  exists st' log',
    Pipeline.fetch_libraries xml_fromstring json_loads py_str n entries st log = (Ok st', log')
    /\ Pipeline.ok_count st'
       = (Pipeline.ok_count st
          + Z.of_nat (List.length (List.filter (fun e => negb (lacks_games e)) entries)))%Z
    /\ Pipeline.failed st'
       = Pipeline.failed st ++ map Pipeline.failed_line (List.filter lacks_games entries).
Proof.
  revert st log. induction entries as [|e entries IH]; intros st log; cbn [Pipeline.fetch_libraries].
  - exists st, log. cbn. rewrite Z.add_0_r, app_nil_r. repeat split.
  - unfold bind. rewrite (appends_get_owned xml_fromstring json_loads py_str n _ log),
      (get_owned_returns xml_fromstring json_loads py_str n).
    cbn [List.filter].
    destruct (fetched_by (InputParser.steamid64 e)) as [|g gs] eqn:Hg.
    + assert (Hno : lacks_games e = true) by (unfold no_games; now rewrite Hg).
      rewrite Hno. cbn [negb map].
      destruct (IH (Pipeline.Libraries (Pipeline.combined st) (Pipeline.ok_count st)
                      (Pipeline.failed st ++ [Pipeline.failed_line e]))
                   (log ++ requests (SteamFetch.get_owned_games_for_steamid xml_fromstring
                                       json_loads py_str n (InputParser.steamid64 e))))
        as (st' & log' & Hr & Hc & Hf).
      exists st', log'. split; [exact Hr|]. cbn [Pipeline.ok_count Pipeline.failed] in *.
      split; [exact Hc|]. rewrite Hf, <- app_assoc. reflexivity.
    + assert (Hno : lacks_games e = false) by (unfold no_games; now rewrite Hg).
      rewrite Hno. cbn [negb List.length].
      destruct (IH (Pipeline.Libraries
                      (Pipeline.merge_account (InputParser.steamid64 e) (Pipeline.combined st)
                         (g :: gs))
                      (Pipeline.ok_count st + 1)%Z (Pipeline.failed st))
                   (log ++ requests (SteamFetch.get_owned_games_for_steamid xml_fromstring
                                       json_loads py_str n (InputParser.steamid64 e))))
        as (st' & log' & Hr & Hc & Hf).
      exists st', log'. split; [exact Hr|]. cbn [Pipeline.ok_count Pipeline.failed] in *.
      split; [rewrite Hc; lia | exact Hf].
Qed.

(** X16. Stage 1 always completes, and counts every account once: the
    failed accounts are those whose library came back empty, in the order of
    the list, the count of aggregated accounts is the number of the others,
    and the two add up to the number of accounts. *)
Theorem every_account_is_counted_once (entries : list InputParser.entry) :
  exists libs,
    value (Pipeline.fetch_libraries xml_fromstring json_loads py_str n entries
             (Pipeline.Libraries [] 0 [])) = Ok libs
    /\ Pipeline.failed libs = map Pipeline.failed_line (List.filter lacks_games entries)
    /\ Pipeline.ok_count libs
       = Z.of_nat (List.length (List.filter (fun e => negb (lacks_games e)) entries))
    /\ (Pipeline.ok_count libs + Z.of_nat (List.length (Pipeline.failed libs))
        = Z.of_nat (List.length entries))%Z.
Proof.
  destruct (fetch_libraries_accounts entries (Pipeline.Libraries [] 0 []) [])
    as (st' & log' & Hr & Hc & Hf).
  exists st'. unfold value, run. rewrite Hr. cbn in Hc, Hf.
  split; [reflexivity|]. split; [exact Hf|]. split; [exact Hc|].
  rewrite Hc, Hf, length_map. clear.
  induction entries as [|e entries IH]; cbn; [reflexivity|].
  destruct (lacks_games e); cbn [negb List.length]; lia.
Qed.

Local Abbreviation parsed cfg :=
  (InputParser.parse_ids_file urlparse xml_fromstring n (Pipeline.ids_file cfg)).
Local Abbreviation pipeline cfg :=
  (Pipeline.run_pipeline urlparse xml_fromstring json_loads py_str n out_name cfg).

(** X20. The two fatal conditions.  When the account list has no entry
    the run ends with SystemExit and the message about valid lines, having
    made only the requests of the account list; when no library has an item
    it ends with SystemExit and the message about games, having made no
    throttled request.  An exception of the account list ends the run
    unchanged. *)
Theorem fatal_conditions (cfg : Pipeline.Config) :
  (forall e, value (parsed cfg) = Raise e -> run (pipeline cfg) = (Raise e, requests (parsed cfg)))
  /\ (value (parsed cfg) = Ok [] ->
      run (pipeline cfg) = (Raise (SystemExit Pipeline.no_valid_lines), requests (parsed cfg)))
  /\ (forall entries,
        value (parsed cfg) = Ok entries -> entries <> [] ->
        fold_left (fun c lib => Pipeline.merge_account (fst lib) c (snd lib))
          (map (fun e => (InputParser.steamid64 e, fetched_by (InputParser.steamid64 e)))
               entries) [] = [] ->
        value (pipeline cfg) = Raise (SystemExit Pipeline.no_games_found)
        /\ Forall (fun r => throttled r = None) (requests (pipeline cfg))).
Proof.
  unfold value, requests, run.
  destruct (community_parse_lines (InputParser.splitlines (Pipeline.ids_file cfg)) ∅ [] [])
    as (new1 & Hn1 & F1).
  fold (InputParser.parse_ids_file urlparse xml_fromstring n (Pipeline.ids_file cfg)) in Hn1.
  assert (Hrun : forall r l, parsed cfg [] = (r, l) ->
    match r with
    | Raise e => pipeline cfg [] = (Raise e, l)
    | Ok [] => pipeline cfg [] = (Raise (SystemExit Pipeline.no_valid_lines), l)
    | Ok entries =>
        forall libs l',
          Pipeline.fetch_libraries xml_fromstring json_loads py_str n entries
            (Pipeline.Libraries [] 0 []) l = (Ok libs, l') ->
          Pipeline.combined libs = [] ->
          pipeline cfg [] = (Raise (SystemExit Pipeline.no_games_found), l')
    end).
  { intros r l Hp.
    destruct r as [[|e0 es]|e]; [| intros libs l' Hl Hc |];
      unfold Pipeline.run_pipeline; unfold bind at 1; rewrite Hp; [reflexivity | | reflexivity].
    unfold bind at 1. rewrite Hl, Hc. reflexivity. }
  destruct (parsed cfg []) as [[entries|e] log1] eqn:Hp; cbn [fst snd id app] in *;
    specialize (Hrun _ _ eq_refl).
  - split; [discriminate|]. split; [intros [= ->]; now rewrite Hrun|].
    intros ? [= <-] Hne Hagg. destruct entries as [|e0 es]; [contradiction|].
    destruct (run_fetch_libraries xml_fromstring json_loads py_str n (e0 :: es)
                (Pipeline.Libraries [] 0 []) log1) as (st' & log2 & Hr & Hc).
    destruct (community_fetch_libraries (e0 :: es) (Pipeline.Libraries [] 0 []) log1)
      as (new2 & Hn2 & F2).
    rewrite Hr in Hn2. cbn [fst snd id Pipeline.combined] in *. rewrite Hagg in Hc.
    rewrite (Hrun _ _ Hr Hc).
    split; [reflexivity|]. cbn [snd]. subst log2 log1.
    apply Forall_app. split; eapply Forall_impl; eauto; now intros r [Hu _].
  - split; [intros ? [= <-]; now rewrite Hrun|]. split; [discriminate|]. intros; discriminate.
Qed.

End Routing.

Lemma absorb_all (occs : list (string * SteamFetch.game)) (i0 : Pipeline.info) :
  exists i,
    fold_left (fun e p => Some (absorb (fst p) (snd p) e)) occs (Some i0) = Some i
    /\ Pipeline.name i = Pipeline.name i0
    /\ Pipeline.owners i = list_to_set (map fst occs) ∪ Pipeline.owners i0
    /\ Pipeline.hours i
       = fold_left Num.add
           (map (fun p => Pipeline.float_or_zero (SteamFetch.hours_on_record (snd p))) occs)
           (Pipeline.hours i0).
Proof.
  revert i0. induction occs as [|[s g] occs IH]; intros i0; cbn [fold_left map fst snd].
  - exists i0. repeat split. cbn [map]. now rewrite list_to_set_nil, (left_id_L ∅ (∪)).
  - destruct (IH (absorb s g (Some i0))) as (i & Hi & Hn & Ho & Hh).
    exists i. split; [exact Hi|]. split; [exact Hn|]. split; [|exact Hh].
    rewrite Ho. cbn [absorb Pipeline.owners map fst]. rewrite list_to_set_cons.
    now rewrite (union_comm_L {[s]} (list_to_set (map fst occs))), (assoc_L (∪)).
Qed.

Section Aggregated.

Variable xml_fromstring : string -> option xml.
Variable json_loads : string -> option json.
Variable py_str : json -> string.
Variable n : network.

Local Abbreviation fetched_by sid := (fetched xml_fromstring json_loads py_str n sid).
Local Abbreviation stage1 entries :=
  (Pipeline.fetch_libraries xml_fromstring json_loads py_str n entries (Pipeline.Libraries [] 0 [])).

(** X17. After stage 1 an item has an aggregated entry exactly when some
    library lists it.  The owners of the entry are the accounts whose library
    lists the item, all of them accounts of the list; its name is the one
    the first of them gives; its hours are the contributions added to 0.0
    in the order in which the libraries were merged. *)
Theorem owners_are_the_accounts_that_list_the_item
    (entries : list InputParser.entry) (appid : string) :
  let occs :=
    occurrences appid
      (map (fun e => (InputParser.steamid64 e, fetched_by (InputParser.steamid64 e))) entries) in
  exists libs,
    value (stage1 entries) = Ok libs
    /\ match occs with
       | [] => Pipeline.lookup_key appid (Pipeline.combined libs) = None
       | (s, g) :: _ =>
           exists i,
             Pipeline.lookup_key appid (Pipeline.combined libs) = Some i
             /\ Pipeline.name i = SteamFetch.name g
             /\ Pipeline.owners i = list_to_set (map fst occs)
             /\ Pipeline.owners i ⊆ list_to_set (map InputParser.steamid64 entries)
             /\ Pipeline.hours i
                = fold_left Num.add
                    (map (fun p => Pipeline.float_or_zero (SteamFetch.hours_on_record (snd p)))
                         occs)
                    Num.zero
       end.
Proof.
  intros occs.
  destruct (run_fetch_libraries xml_fromstring json_loads py_str n entries
              (Pipeline.Libraries [] 0 []) []) as (libs & log' & Hr & Hc).
  exists libs. unfold value, run. rewrite Hr. split; [reflexivity|].
  rewrite Hc, lookup_aggregate. cbn [Pipeline.combined Pipeline.lookup_key]. fold occs.
  assert (Hsub : forall x, x ∈ map fst occs -> x ∈ map InputParser.steamid64 entries).
  { subst occs. clear. induction entries as [|e es IH]; cbn; [intros x H; exact H|].
    intros x. rewrite map_app, elem_of_app, map_map. cbn [fst]. intros [H|H].
    - apply list_elem_of_fmap in H. destruct H as (g & -> & _). left.
    - right. now apply IH. }
  destruct occs as [|[s g] occs']; [reflexivity|]. cbn [fold_left fst snd].
  destruct (absorb_all occs' (absorb s g None)) as (i & Hi & Hn & Ho & Hh).
  exists i. split; [exact Hi|]. split; [exact Hn|].
  assert (Hown : Pipeline.owners i = list_to_set (map fst ((s, g) :: occs'))).
  { rewrite Ho. cbn [absorb Pipeline.owners map fst]. rewrite list_to_set_cons.
    now rewrite (right_id_L ∅ (∪)), (union_comm_L {[s]}). }
  split; [exact Hown|]. split.
  - rewrite Hown. intros x Hx. apply elem_of_list_to_set in Hx.
    apply elem_of_list_to_set. now apply Hsub.
  - rewrite Hh. reflexivity.
Qed.

Lemma alter_key_keys {V} (f : V -> V) (k : string) (d : list (string * V)) :
  map fst (Pipeline.alter_key f k d) = map fst d.
Proof.
  induction d as [|[k0 v] d IH]; cbn; [reflexivity|].
  destruct (String.eqb k k0); cbn; [reflexivity | now rewrite IH].
Qed.

Lemma merge_game_keys (sid : string) (c : Pipeline.combined_t) (g : SteamFetch.game) :
  NoDup (map fst c) -> NoDup (map fst (Pipeline.merge_game sid c g)).
Proof.
  intros Hc. unfold Pipeline.merge_game. rewrite !alter_key_keys.
  unfold Pipeline.has_key.
  destruct (Pipeline.lookup_key (SteamFetch.appid g) c) eqn:Hl; [exact Hc|].
  rewrite map_app. apply NoDup_app. split; [exact Hc|]. split; [|apply NoDup_singleton].
  intros x Hx Hx'. apply list_elem_of_singleton in Hx'. subst x.
  apply list_elem_of_In in Hx. now apply lookup_key_of_keys in Hx.
Qed.

Lemma aggregate_keys (libs : list (string * list SteamFetch.game)) (c : Pipeline.combined_t) :
  NoDup (map fst c) ->
  NoDup (map fst (fold_left (fun c lib => Pipeline.merge_account (fst lib) c (snd lib)) libs c)).
Proof.
  revert c. induction libs as [|[sid games] libs IH]; intros c Hc; cbn; [exact Hc|].
  apply IH. unfold Pipeline.merge_account. clear IH. revert c Hc.
  induction games as [|g games IHg]; intros c Hc; cbn; [exact Hc|].
  apply IHg. now apply merge_game_keys.
Qed.

Lemma fetch_metas_keys (appids : list string) (nsf : bool) (log : list request) :
  exists metas log',
    Pipeline.fetch_metas json_loads n appids nsf log = (Ok metas, log')
    /\ map fst metas = appids.
Proof.
  revert log. induction appids as [|a appids IH]; intros log; cbn [Pipeline.fetch_metas].
  - exists [], log. now split.
  - unfold bind at 1.
    destruct (try_except_returns _ Pipeline.empty_meta log
                (safe_fetch_app_meta json_loads n a nsf true)) as (m & l1 & ->).
    unfold bind at 1. destruct (IH l1) as (metas & l2 & -> & Hk).
    eexists _, _. split; [reflexivity|]. cbn. now rewrite Hk.
Qed.

(** X18. The ids that stage 1 aggregates are pairwise different, and stage
    2 always completes with one metadata result for each of them, in their
    order. *)
Theorem every_item_is_resolved_once (entries : list InputParser.entry) (nsf : bool) :
  exists libs metas,
    value (stage1 entries) = Ok libs
    /\ NoDup (map fst (Pipeline.combined libs))
    /\ value (Pipeline.fetch_metas json_loads n (map fst (Pipeline.combined libs)) nsf)
       = Ok metas
    /\ map fst metas = map fst (Pipeline.combined libs).
Proof.
  destruct (run_fetch_libraries xml_fromstring json_loads py_str n entries
              (Pipeline.Libraries [] 0 []) []) as (libs & log' & Hr & Hc).
  destruct (fetch_metas_keys (map fst (Pipeline.combined libs)) nsf []) as (metas & l2 & Hm & Hk).
  exists libs, metas. unfold value, run. rewrite Hr, Hm.
  split; [reflexivity|]. split; [|split; [reflexivity | exact Hk]].
  rewrite Hc. apply aggregate_keys. constructor.
Qed.

End Aggregated.

Section Enrichment.

Variable json_loads : string -> option json.
Variable n : network.

Lemma store_fetch_review_summary (appid : string) (dr : Z) :
  emits id (via Store) (Enrich.fetch_review_summary json_loads n appid dr).
Proof.
  unfold Enrich.fetch_review_summary, Enrich.attempt, Enrich.review_query,
    Enrich.response_json, Utils.http_get_store.
  emits_tac.
Qed.

Lemma api_fetch_last_update_year (appid : string) :
  emits id (via Api) (Enrich.fetch_last_update_year json_loads n appid).
Proof.
  unfold Enrich.fetch_last_update_year, Enrich.last_update_query, Enrich.response_json,
    Utils.http_get_api.
  emits_tac.
Qed.

Lemma enrich_all_emits (P : request -> Prop) (cfg : Pipeline.Config) (targets : list string) :
  (Pipeline.include_reviews cfg = true -> forall r, via Store r -> P r) ->
  (Pipeline.include_last_update cfg = true -> forall r, via Api r -> P r) ->
  emits id P (Pipeline.enrich_all json_loads n cfg targets).
Proof.
  intros Hs Ha. induction targets as [|a more IH]; cbn [Pipeline.enrich_all].
  - apply emits_ret.
  - unfold Pipeline.enrich_one.
    destruct (Pipeline.include_reviews cfg), (Pipeline.include_last_update cfg);
      emits_tac; auto;
      first [ apply (emits_weaken id (via Store)); [auto | apply store_fetch_review_summary]
            | apply (emits_weaken id (via Api)); [auto | apply api_fetch_last_update_year] ].
Qed.

Lemma enrich_all_values (cfg : Pipeline.Config) (targets : list string) (log : list request) :
  exists r log',
    Pipeline.enrich_all json_loads n cfg targets log = (Ok r, log')
    /\ map fst (fst r) = targets /\ map fst (snd r) = targets
    /\ (Pipeline.include_reviews cfg = false ->
        Forall (fun p => snd p = Pipeline.no_reviews) (fst r))
    /\ (Pipeline.include_last_update cfg = false -> Forall (fun p => snd p = None) (snd r)).
Proof.
  revert log. induction targets as [|a more IH]; intros log; cbn [Pipeline.enrich_all].
  - exists ([], []), log. cbn. repeat split; constructor.
  - unfold bind at 1.
    assert (H1 : exists one l1,
      try_except (Pipeline.enrich_one json_loads n cfg a)
        (fun _ => ret (Pipeline.no_reviews, None)) log = (Ok one, l1)
      /\ (Pipeline.include_reviews cfg = false -> fst one = Pipeline.no_reviews)
      /\ (Pipeline.include_last_update cfg = false -> snd one = None)).
    { unfold try_except.
      pose proof (safe_enrich_one json_loads n cfg a log) as Hsafe.
      destruct (Pipeline.enrich_one json_loads n cfg a log) as [[one|e] l1] eqn:He.
      - exists one, l1. split; [reflexivity|]. revert He. unfold Pipeline.enrich_one.
        unfold bind, ret.
        destruct (Pipeline.include_reviews cfg), (Pipeline.include_last_update cfg);
          repeat match goal with
                 | |- context [match ?m ?l with _ => _ end] =>
                     destruct (m l) as [[?|?] ?]
                 end;
          intros [= <- <-] || discriminate; split; intros; (reflexivity || discriminate).
      - cbn in Hsafe. rewrite Hsafe. exists (Pipeline.no_reviews, None), l1.
        repeat split; reflexivity. }
    destruct H1 as (one & l1 & -> & Hr & Hu).
    unfold bind at 1. destruct (IH l1) as (rest & l2 & -> & Hk1 & Hk2 & Hr' & Hu').
    eexists _, _. split; [reflexivity|]. cbn [fst snd map].
    rewrite Hk1, Hk2. repeat split; intros H; constructor; auto.
Qed.

(** X19. Stage 3 always completes with one result per item, in order.
    With the reviews switched off every review is the "No reviews" default
    and no request waits on the store bucket; with the last update switched
    off every year is absent and no request waits on the API bucket; with
    both off the stage makes no request. *)
Theorem disabled_enrichment_costs_nothing (cfg : Pipeline.Config) (targets : list string) :
  let m := Pipeline.enrich_all json_loads n cfg targets in
  exists r,
    value m = Ok r
    /\ map fst (fst r) = targets /\ map fst (snd r) = targets
    /\ (Pipeline.include_reviews cfg = false ->
        Forall (fun p => snd p = Pipeline.no_reviews) (fst r)
        /\ Forall (fun q => throttled q <> Some Store) (requests m))
    /\ (Pipeline.include_last_update cfg = false ->
        Forall (fun p => snd p = None) (snd r)
        /\ Forall (fun q => throttled q <> Some Api) (requests m))
    /\ (Pipeline.include_reviews cfg = false -> Pipeline.include_last_update cfg = false ->
        requests m = []).
Proof.
  intros m. subst m.
  destruct (enrich_all_values cfg targets []) as (r & l' & Hv & Hk1 & Hk2 & Hr & Hu).
  exists r. unfold value, run. rewrite Hv. split; [reflexivity|].
  split; [exact Hk1|]. split; [exact Hk2|]. split; [|split].
  - intros H. split; [auto|]. apply emits_requests, enrich_all_emits.
    + rewrite H. discriminate.
    + intros _ q Hq. unfold via in Hq. rewrite Hq. discriminate.
  - intros H. split; [auto|]. apply emits_requests, enrich_all_emits.
    + intros _ q Hq. unfold via in Hq. rewrite Hq. discriminate.
    + rewrite H. discriminate.
  - intros H1 H2.
    assert (HF : Forall (fun _ => False) (requests (Pipeline.enrich_all json_loads n cfg targets))).
    { apply emits_requests, enrich_all_emits; [rewrite H1 | rewrite H2]; discriminate. }
    destruct (requests _) as [|q qs]; [reflexivity|]. inversion HF; contradiction.
Qed.

End Enrichment.

(** ** The dialogue *)

Lemma ask_yn_loop_junk (text : string) (default : bool) (junk lines out : list string) :
  Forall (fun l => yn_answer default l = None) junk ->
  Cli.ask_yn_loop text default (junk ++ lines) out
  = Cli.ask_yn_loop text default lines
      (out ++ flat_map (fun _ => [text; ("Please answer y or n." ++ Cli.nl)%string]) junk).
Proof.
  intros H. revert out. induction H as [|l junk Hl _ IH]; intros out.
  - cbn. now rewrite app_nil_r.
  - cbn [app Cli.ask_yn_loop flat_map]. unfold yn_answer in Hl.
    destruct (String.eqb _ ""); [discriminate|].
    destruct (_ || _); [discriminate|]. destruct (_ || _); [discriminate|].
    rewrite IH. f_equal. now rewrite <- !app_assoc.
Qed.

(** X22. A yes/no prompt asks until a line answers it.  After lines that
    are no answer, each of which costs the prompt and the complaint, a blank
    line gives the default, y or yes gives True and n or no gives False, in
    any case and with blanks around, and the lines after it are left unread;
    when the input ends first the prompt ends with EOFError. *)
Theorem yes_no_prompt_asks_until_answered
    (prompt : string) (default : bool) (junk rest out : list string) :
  Forall (fun l => yn_answer default l = None) junk ->
  let text := (prompt ++ (if default then " [Y/n] " else " [y/N] "))%string in
  let asked := out ++ flat_map (fun _ => [text; ("Please answer y or n." ++ Cli.nl)%string]) junk
               ++ [text] in
  (forall good b,
     yn_answer default good = Some b ->
     Cli._ask_yn prompt default (Cli.Console (junk ++ good :: rest) out)
     = (Cli.Returned b, Cli.Console rest asked))
  /\ Cli._ask_yn prompt default (Cli.Console junk out)
     = (Cli.EndOfInput, Cli.Console [] asked).
Proof.
  intros Hjunk text asked. subst asked. unfold Cli._ask_yn. cbn [Cli.stdin Cli.stdout].
  fold text. split.
  - intros good b Hb. rewrite (ask_yn_loop_junk text default junk _ out Hjunk).
    cbn [Cli.ask_yn_loop]. unfold yn_answer in Hb. rewrite <- app_assoc.
    destruct (String.eqb _ ""); [now injection Hb as <-|].
    destruct (_ || _); [now injection Hb as <-|].
    destruct (_ || _); [now injection Hb as <-|discriminate].
  - rewrite <- (app_nil_r junk) at 1. rewrite (ask_yn_loop_junk text default junk [] out Hjunk).
    cbn [Cli.ask_yn_loop]. now rewrite <- app_assoc.
Qed.

Section CliProperties.

Variable py_int : string -> option Z.
Variable path_exists : string -> bool.
Variable path_str : string -> string.

Lemma ask_int_loop_bounds (text : string) (default minimum : Z) (maximum : option Z)
    (lines out : list string) (v : Z) (c' : Cli.console) :
  Cli.ask_int_loop py_int text default minimum maximum lines out = (Cli.Returned v, c') ->
  v = default
  \/ (minimum <= v)%Z /\ (forall mx, maximum = Some mx -> (v <= mx)%Z).
Proof.
  revert out. induction lines as [|line rest IH]; intros out; cbn [Cli.ask_int_loop].
  - discriminate.
  - destruct (String.eqb _ ""); [intros [= <- _]; now left|].
    destruct (py_int _) as [val|]; [|apply IH].
    destruct (Z.ltb_spec val minimum); [apply IH|].
    destruct maximum as [mx|].
    + destruct (Z.ltb_spec mx val); [apply IH|].
      intros [= <- _]. right. split; [assumption|]. now intros ? [= <-].
    + intros [= <- _]. right. split; [assumption|]. discriminate.
Qed.

(** X23. A number that a numeric prompt returns is its default, which is
    not checked, or a number that is at least the minimum and at most the
    maximum, when there is one. *)
Theorem number_prompt_keeps_its_bounds (prompt : string) (default minimum : Z)
    (maximum : option Z) (c c' : Cli.console) (v : Z) :
  Cli._ask_int py_int prompt default minimum maximum c = (Cli.Returned v, c') ->
  v = default
  \/ (minimum <= v)%Z /\ (forall mx, maximum = Some mx -> (v <= mx)%Z).
Proof. unfold Cli._ask_int. apply ask_int_loop_bounds. Qed.

Lemma and_then_returned {A B} (m : Cli.cli A) (f : A -> Cli.cli B) (c c' : Cli.console) (b : B) :
  Cli.and_then m f c = (Cli.Returned b, c') ->
  exists a c1, m c = (Cli.Returned a, c1) /\ f a c1 = (Cli.Returned b, c').
Proof.
  unfold Cli.and_then. destruct (m c) as [[a| |] c1]; try discriminate.
  intros H. now exists a, c1.
Qed.

Lemma valid_path_loop_exists (p : string) (lines out : list string) (r : string)
    (c' : Cli.console) :
  Cli.valid_path_loop path_exists path_str p lines out = (Cli.Returned r, c') ->
  path_exists r = true.
Proof.
  revert p out. induction lines as [|line rest IH]; intros p out; cbn [Cli.valid_path_loop].
  - destruct (path_exists p) eqn:Hp; [intros [= <- _]; exact Hp | discriminate].
  - destruct (path_exists p) eqn:Hp; [intros [= <- _]; exact Hp | apply IH].
Qed.

(** X24. The settings that the dialogue returns name a file that exists,
    have between 1 and 128 workers and a review window of 1 to 365 days; in
    safe mode they are 6 workers, 30 days and the delays 0.6, 0.25, 0.2 with
    jitter 120, and otherwise the delays are 0.35, 0.15, 0.15 with jitter
    100. *)
Theorem setup_returns_valid_settings (c c' : Cli.console) (cfg : Cli.Config) (used : bool) :
  Cli.interactive_setup py_int path_exists path_str c = (Cli.Returned (cfg, used), c') ->
  path_exists (Cli.ids_path cfg) = true
  /\ (1 <= Cli.workers cfg <= 128)%Z
  /\ (1 <= Cli.day_range cfg <= 365)%Z
  /\ (if Cli.safe_mode cfg
      then Cli.workers cfg = 6%Z /\ Cli.day_range cfg = 30%Z
           /\ Cli.min_delay_store cfg = (3 # 5)%Q
           /\ Cli.min_delay_community cfg = (1 # 4)%Q
           /\ Cli.min_delay_api cfg = (1 # 5)%Q /\ Cli.jitter_ms cfg = 120%Z
      else Cli.min_delay_store cfg = (7 # 20)%Q
           /\ Cli.min_delay_community cfg = (3 # 20)%Q
           /\ Cli.min_delay_api cfg = (3 # 20)%Q /\ Cli.jitter_ms cfg = 100%Z).
Proof.
  unfold Cli.interactive_setup. intros H.
  apply and_then_returned in H. destruct H as (_ & c1 & _ & H).
  apply and_then_returned in H. destruct H as (use_default & c2 & _ & H).
  apply and_then_returned in H. destruct H as (p0 & c3 & _ & H).
  apply and_then_returned in H. destruct H as (p & c4 & Hp & H).
  apply valid_path_loop_exists in Hp.
  apply and_then_returned in H. destruct H as (verbose & c5 & _ & H).
  apply and_then_returned in H. destruct H as (debug & c6 & _ & H).
  apply and_then_returned in H. destruct H as (safe & c7 & _ & H).
  apply and_then_returned in H. destruct H as (pace & c8 & Hpace & H).
  destruct pace as [[[[[w d] ds] dc] da] j].
  repeat (apply and_then_returned in H; destruct H as (? & ? & _ & H)).
  destruct (negb _); [discriminate|]. injection H as <- <- <-.
  cbn [Cli.ids_path Cli.workers Cli.day_range Cli.safe_mode Cli.min_delay_store
       Cli.min_delay_community Cli.min_delay_api Cli.jitter_ms].
  split; [exact Hp|]. destruct safe.
  - injection Hpace as <- <- <- <- <- <- _. repeat split; lia.
  - apply and_then_returned in Hpace. destruct Hpace as (w' & c9 & Hw & Hpace).
    apply and_then_returned in Hpace. destruct Hpace as (d' & c10 & Hd & Hpace).
    injection Hpace as <- <- <- <- <- <- _.
    unfold Cli._ask_int in Hw, Hd. apply ask_int_loop_bounds in Hw, Hd.
    split; [|split; [|repeat split]].
    + destruct Hw as [->|[? Hmx]]; [lia|]. specialize (Hmx _ eq_refl). lia.
    + destruct Hd as [->|[? Hmx]]; [lia|]. specialize (Hmx _ eq_refl). lia.
Qed.

End CliProperties.

(** ** Closed instances *)

Lemma account_list_has_no_duplicates_witness :
  NoDup (map InputParser.steamid64 Demo.family)
  /\ Forall (fun e => InputParser.label e <> "" /\ InputParser.steamid64 e <> "") Demo.family.
Proof.
  apply (account_list_has_no_duplicates Demo.urlparse Demo.xml_fromstring Demo.upstream
           Demo.ids_txt Demo.family).
  vm_compute. reflexivity.
Defined.

Lemma earlier_lines_keep_their_entries_witness :
  exists r1 extra,
    value (InputParser.parse_lines Demo.urlparse Demo.xml_fromstring Demo.upstream
             ["Alice: 76561198000000001"] ∅ []) = Ok r1
    /\ Demo.family = r1 ++ extra
    /\ forall e, e ∈ extra -> InputParser.steamid64 e ∉ map InputParser.steamid64 r1.
Proof.
  apply (earlier_lines_keep_their_entries Demo.urlparse Demo.xml_fromstring Demo.upstream
           ["Alice: 76561198000000001"] ["Bob: https://steamcommunity.com/id/bob"]
           Demo.family).
  vm_compute. reflexivity.
Defined.

Lemma comment_lines_are_ignored_witness :
  InputParser.parse_lines Demo.urlparse Demo.xml_fromstring Demo.upstream
    (["Alice: 76561198000000001"] ++ "  # the family" :: ["Bob: https://steamcommunity.com/id/bob"])
    ∅ [] []
  = InputParser.parse_lines Demo.urlparse Demo.xml_fromstring Demo.upstream
      (["Alice: 76561198000000001"] ++ ["Bob: https://steamcommunity.com/id/bob"]) ∅ [] [].
Proof.
  apply (comment_lines_are_ignored Demo.urlparse Demo.xml_fromstring Demo.upstream
           "  # the family").
  right. vm_compute. reflexivity.
Defined.

Lemma profile_url_resolution_witness :
  run (InputParser.normalize_to_steamid64 Demo.urlparse Demo.xml_fromstring Demo.upstream
         "https://steamcommunity.com/profiles/76561198000000002/")
  = (Ok (Some Demo.bob), []).
Proof.
  apply (proj1 (profile_url_resolution Demo.urlparse Demo.xml_fromstring Demo.upstream
                  "https://steamcommunity.com/profiles/76561198000000002/"
                  "https" "steamcommunity.com" "profiles" (Text.chars Demo.bob) ["/"%char]
                  ltac:(vm_compute; reflexivity) ltac:(vm_compute; reflexivity)
                  ltac:(discriminate) ltac:(vm_compute; reflexivity)
                  ltac:(discriminate) ltac:(vm_compute; reflexivity)
                  ltac:(right; eexists; reflexivity))).
  reflexivity.
Defined.

Lemma thousands_separators_are_dropped_witness :
  Utils.parse_hours (JStr "1,234") = Utils.parse_hours (JStr "1234")
  /\ Utils.parse_hours (JStr "1,234") = Num.Fin 1234.
Proof.
  destruct (thousands_separators_are_dropped "1,234" eq_refl eq_refl) as [H1 H2].
  split; [exact H1 | apply H2; reflexivity].
Defined.

Lemma newest_update_wins_witness :
  exists best fallback,
    Enrich.scan_news Sample.news None None = Ok (best, fallback)
    /\ newest_of best [100%Z]
    /\ newest_of fallback [200%Z; 100%Z]
    /\ (forall b, best = Some b -> exists fb, fallback = Some fb /\ (b <= fb)%Z).
Proof.
  apply (newest_update_wins Sample.news [(200%Z, false); (100%Z, true)]).
  repeat constructor.
Defined.

Lemma yes_no_prompt_asks_until_answered_witness :
  Cli._ask_yn "Proceed?" true (Cli.Console ["maybe"; " N "] [])
  = (Cli.Returned false,
     Cli.Console [] ["Proceed? [Y/n] "; ("Please answer y or n." ++ Cli.nl)%string;
                     "Proceed? [Y/n] "]).
Proof.
  apply (proj1 (yes_no_prompt_asks_until_answered "Proceed?" true ["maybe"] [] []
                  ltac:(repeat constructor)) " N " false).
  vm_compute. reflexivity.
Defined.

Lemma number_prompt_keeps_its_bounds_witness :
  64%Z = 12%Z
  \/ (1 <= 64)%Z /\ (forall mx, Some 128%Z = Some mx -> (64 <= mx)%Z).
Proof.
  apply (number_prompt_keeps_its_bounds Sample.py_int "How many parallel workers?" 12 1
           (Some 128%Z) (Cli.Console ["500"; "64"] [])
           (Cli.Console []
              ["How many parallel workers? [12] "; ("Enter <= 128." ++ Cli.nl)%string;
               "How many parallel workers? [12] "])).
  vm_compute. reflexivity.
Defined.

Lemma setup_returns_valid_settings_witness :
  Sample.path_exists (Cli.ids_path Sample.default_config) = true
  /\ (1 <= Cli.workers Sample.default_config <= 128)%Z
  /\ (1 <= Cli.day_range Sample.default_config <= 365)%Z.
Proof.
  destruct (setup_returns_valid_settings Sample.py_int Sample.path_exists Sample.path_str
              Sample.all_defaults
              (snd (Cli.interactive_setup Sample.py_int Sample.path_exists Sample.path_str
                      Sample.all_defaults))
              Sample.default_config true ltac:(vm_compute; reflexivity))
    as (H1 & H2 & H3 & _).
  exact (conj H1 (conj H2 H3)).
Defined.

Lemma no_wait_for_late_callers_witness :
  (0 <= snd (Throttle.wait "store" 1 (1 # 2) 1 Throttle.init))%Q.
Proof.
  apply (proj1 (no_wait_for_late_callers "store" 1 (1 # 2) 1 Throttle.init
                  ltac:(vm_compute; discriminate) ltac:(vm_compute; discriminate))).
Defined.

Lemma buckets_are_independent_witness :
  Throttle.last (fst (Throttle.wait "store" 1 (1 # 2) 1 Throttle.init)) !! "api"
  = Throttle.last Throttle.init !! "api".
Proof.
  apply (proj1 (buckets_are_independent "store" "api" 1 (1 # 2) 1 Throttle.init 0 0 0 0
                  ltac:(discriminate))).
Defined.

Lemma account_file_round_trip_witness :
  run (InputParser.parse_ids_file Demo.urlparse Demo.xml_fromstring Demo.upstream
         (ids_file [InputParser.Entry "Dad PC" "76561198000000001";
                    InputParser.Entry "kid" "76561198000000002"]))
  = (Ok [InputParser.Entry "Dad PC" "76561198000000001";
         InputParser.Entry "kid" "76561198000000002"], []).
Proof.
  apply account_file_round_trip.
  - repeat constructor.
  - apply (bool_decide_unpack _). vm_compute. reflexivity.
Defined.

Lemma parsed_size_is_never_negative_witness : (0 <= 10)%Q.
Proof.
  apply (parsed_size_is_never_negative "Storage: 10240 MB available space").
  vm_compute. reflexivity.
Defined.
